(** * slog-console: the record encoder and its handler, verified

    A shallow embedding of the console handler for Go's [log/slog]
    ([handler.go], [encoder.go]) and the properties its specification states
    about it.  The development follows the code:

    - [GoSlice] is the memory model of Go slices the handler relies on: backing
      arrays in a store, slice headers (pointer, length, capacity), [append]
      that writes in place while capacity lasts and allocates otherwise, and
      [slices.Clip].
    - [Slog] is the part of [log/slog] the encoder inspects: values and their
      kinds, attributes, [Resolve] and [Equal].
    - [Console] is the package itself: options, theme, encoder, handler.
    - [Props] holds what the theorems are stated with, and handlers and
      events to run the code on.
    - [GoSliceFacts] and [Verified] are the proofs: the memory model first,
      then the encoder, the handler and the properties. *)

From Stdlib Require Import ZArith Lia Bool.
From Stdlib Require Import Strings.String Strings.Ascii Strings.Byte.
From Stdlib Require Import Numbers.DecimalString Numbers.DecimalN.
From stdpp Require Import base tactics option list relations.

Set Warnings "-register-all,-cast-in-pattern".

(** ** Go slices over a store of backing arrays *)

Module GoSlice.

(** A slice header.  Every slice the handler keeps starts at the first cell of
    its backing array, so the pointer is the address of the array. *)
Record slice := Slice { ptr : nat; len : nat; cap : nat }.

(** The nil slice: no array, length and capacity zero. *)
Definition nil_slice : slice := Slice 0 0 0.

(** [slices.Clip]: [s[:len(s):len(s)]]. *)
Definition clip (s : slice) : slice := Slice (ptr s) (len s) (len s).

(** The store: backing arrays by address, in allocation order. *)
Abbreviation store T := (list (list T)) (only parsing).

Section Store.
Context {T : Type}.

(** [zero] is the zero value of the element type, [growcap] the runtime's
    growth policy (old capacity, needed length); the new capacity is never
    below the needed length whatever the policy answers. *)
Variable zero : T.
Variable growcap : nat -> nat -> nat.

Definition array (st : store T) (p : nat) : list T := default [] (st !! p).

(** The elements a slice shows: [s[0:len(s)]]. *)
Definition read (st : store T) (s : slice) : list T := take (len s) (array st (ptr s)).

(** [make([]T, n, c)]. *)
Definition make (st : store T) (n c : nat) : store T * slice :=
  (st ++ [replicate (n `max` c) zero], Slice (length st) n (n `max` c)).

(** [s[i] = v]; out of range is a run-time panic ([None]). *)
Definition set_index (st : store T) (s : slice) (i : nat) (v : T) : option (store T) :=
  if decide (i < len s)
  then Some (<[ptr s := <[i := v]> (array st (ptr s))]> st)
  else None.

(** [append(s, data...)]: in place when the capacity suffices, otherwise into a
    freshly allocated array that receives a copy of the old elements. *)
Definition append (st : store T) (s : slice) (data : list T) : store T * slice :=
  let n := len s + length data in
  if decide (n <= cap s)
  then (<[ptr s := take (len s) (array st (ptr s)) ++ data
                   ++ drop n (array st (ptr s))]> st,
        Slice (ptr s) n (cap s))
  else let c := n `max` growcap (cap s) n in
       (st ++ [read st s ++ data ++ replicate (c - n) zero],
        Slice (length st) n c).

(** [copy(dst, src)]: the first [min(len(dst), len(src))] elements. *)
Definition copy (st : store T) (dst src : slice) : store T :=
  let data := take (len dst) (read st src) in
  <[ptr dst := data ++ drop (length data) (array st (ptr dst))]> st.

(** A slice header is well formed in a store when its array is there and
    covers its capacity. *)
Definition wf (st : store T) (s : slice) : Prop :=
  len s <= cap s /\ cap s <= length (array st (ptr s)).

(** Well formed, and with no spare capacity. *)
Definition clipped (st : store T) (s : slice) : Prop :=
  wf st s /\ cap s = len s.

(** [keeps P st st']: the store [st'] has every array of [st] whose address
    satisfies [P], unchanged and at the same address. *)
Definition keeps (P : nat -> Prop) (st st' : store T) : Prop :=
  length st <= length st' /\
  forall p, p < length st -> P p -> st' !! p = st !! p.

(** [grows st st']: the store [st'] has every array of [st], at the same
    address and of the same length. *)
Definition grows (st st' : store T) : Prop :=
  length st <= length st' /\
  forall p, p < length st -> length (array st' p) = length (array st p).

End Store.
End GoSlice.

(** ** The part of [log/slog] the encoder looks at *)

Module Slog.

(** [slog.Level] is a Go [int]: 64 bits, two's complement. *)
Definition Level := Z.
Definition LevelDebug : Level := (-4)%Z.
Definition LevelInfo : Level := 0%Z.
Definition LevelWarn : Level := 4%Z.
Definition LevelError : Level := 8%Z.

Definition TimeKey : string := "time".
Definition LevelKey : string := "level".
Definition MessageKey : string := "msg".
Definition SourceKey : string := "source".

(** [time.Time] as an instant: nanoseconds since the zero instant (January 1,
    year 1, 00:00 UTC), which is what [IsZero] tests. *)
Definition Time := Z.
Definition IsZero (t : Time) : bool := (t =? 0)%Z.

(** A [float64] by its IEEE-754 bit pattern; the encoder only hands it to the
    formatter. *)
Definition float64 := Z.

(** [slog.Source]. *)
Record Source := MkSource { Function : string; File : string; Line : Z }.

(** The dynamic value behind a [KindAny] value, by what the encoder's type
    switches can tell apart. *)
Inductive AnyV : Type :=
| ANil                                          (* the nil interface *)
| AError (msg : string) (plusv : option string) (* an error; [Some s] when it is a
                                                   fmt.Formatter too, [s] its %+v form *)
| AStringer (str : string)                      (* a fmt.Stringer that is no error *)
| ALevel (l : Level)                            (* a slog.Level *)
| ASource (src : option Source)                 (* a *slog.Source, [None] the nil pointer *)
| AOther (tag : string).                        (* any other dynamic value *)

(** [slog.Attr], over the type of values. *)
Record Attr_ (V : Type) := MkAttr { Key : string; Val : V }.
Arguments MkAttr {V} Key Val.
Arguments Key {V} _.
Arguments Val {V} _.

(** [slog.Value].  A [LogValuer] carries the value its [LogValue] method
    returns; [tyname] is its Go type name. *)
Inductive Value : Type :=
| VAny (a : AnyV)
| VBool (b : bool)
| VDuration (d : Z)
| VFloat64 (f : float64)
| VInt64 (i : Z)
| VString (s : string)
| VTime (t : Time)
| VUint64 (u : Z)
| VGroup (attrs : list (Attr_ Value))
| VLogValuer (tyname : string) (v : Value).

Abbreviation Attr := (Attr_ Value).

Inductive Kind := KindAny | KindBool | KindDuration | KindFloat64 | KindInt64
  | KindString | KindTime | KindUint64 | KindGroup | KindLogValuer.

Definition kind (v : Value) : Kind :=
  match v with
  | VAny _ => KindAny | VBool _ => KindBool | VDuration _ => KindDuration
  | VFloat64 _ => KindFloat64 | VInt64 _ => KindInt64 | VString _ => KindString
  | VTime _ => KindTime | VUint64 _ => KindUint64 | VGroup _ => KindGroup
  | VLogValuer _ _ => KindLogValuer
  end.

Definition isGroup (v : Value) : bool :=
  match v with VGroup _ => true | _ => false end.

(** The zero [Value] (kind [Any], nil) and the zero [Attr]. *)
Definition zeroValue : Value := VAny ANil.
Definition zeroAttr : Attr := MkAttr "" zeroValue.

(** [v.Equal(slog.Value{})]: the kinds agree and the dynamic value is nil. *)
Definition isZeroValue (v : Value) : bool :=
  match v with VAny ANil => true | _ => false end.

(** [a.Equal(slog.Attr{})]. *)
Definition isZeroAttr (a : Attr) : bool :=
  String.eqb (Key a) "" && isZeroValue (Val a).

Definition maxLogValues : nat := 100.

(** The error [Resolve] returns when [LogValue] was called [maxLogValues]
    times. *)
Definition tooManyLogValues (orig : Value) : Value :=
  VAny (AError (String.append "LogValue called too many times on Value of type "
                  match orig with VLogValuer ty _ => ty | _ => "" end) None).

Fixpoint resolveLoop (n : nat) (orig v : Value) : Value :=
  match n with
  | O => tooManyLogValues orig
  | S n' => match v with
            | VLogValuer _ v' => resolveLoop n' orig v'
            | _ => v
            end
  end.

(** [v.Resolve()]. *)
Definition Resolve (v : Value) : Value := resolveLoop maxLogValues v v.

(** Constructors of attributes. *)
Definition String_ (k v : string) : Attr := MkAttr k (VString v).
Definition Int (k : string) (i : Z) : Attr := MkAttr k (VInt64 i).
Definition Any (k : string) (a : AnyV) : Attr := MkAttr k (VAny a).
Definition TimeAttr (k : string) (t : Time) : Attr := MkAttr k (VTime t).
Definition Group (k : string) (l : list Attr) : Attr := MkAttr k (VGroup l).

(** [slog.Record], as far as the handler reads it. *)
Record Record_ := MkRecord {
  RTime : Time;
  RMessage : string;
  RLevel : Level;
  RPC : Z;
  RAttrs : list Attr
}.
Arguments MkRecord RTime%_Z RMessage%_string RLevel%_Z RPC%_Z RAttrs%_list.

End Slog.

(** ** The console handler *)

Module Console.
Import Slog.
Local Open Scope string_scope.
Local Open Scope list_scope.

Definition ANSIMod := string.

(** [Theme] (theme.go): the style token of each field category. *)
Module Th.
Record Theme := MkTheme {
  Timestamp : ANSIMod;
  Source : ANSIMod;
  Message : ANSIMod;
  MessageDebug : ANSIMod;
  AttrKey : ANSIMod;
  AttrValue : ANSIMod;
  AttrValueError : ANSIMod;
  LevelError : ANSIMod;
  LevelWarn : ANSIMod;
  LevelInfo : ANSIMod;
  LevelDebug : ANSIMod
}.
End Th.

(** What the package takes from outside [handler.go] and [encoder.go]: the Go
    runtime and standard library ([append]'s growth policy, [runtime], [fmt],
    [filepath], [strings]), and the parts of the repository that are not in the
    sources at hand (the typed appenders of [buffer], [ResetMod] and the default
    theme of [theme.go]). *)
Class Runtime := {
  growcap : nat -> nat -> nat;
  ResetMod : ANSIMod;
  NewDefaultTheme : Th.Theme;
  fmtInt : Z -> list byte;
  fmtUint : Z -> list byte;
  fmtFloat : float64 -> list byte;
  fmtBool : bool -> list byte;
  fmtTime : Time -> string -> list byte;
  fmtDuration : Z -> list byte;
  fmtSprint : Value -> string;
  callersFrame : Z -> Source;
  filepathRel : string -> string -> option string;
  TrimSpace : string -> string;
  cwd : string
}.

(** [io.Writer]: what a [Write] of the given bytes answers, the number of
    bytes taken and the error if any. *)
Definition Writer := list byte -> nat * option string.

Record HandlerOptions := MkOptions {
  AddSource : bool;
  Level : option Slog.Level;
  NoColor : bool;
  TimeFormat : string;
  Theme : option Th.Theme;
  Headers : list string;
  ReplaceAttr : option (list string -> Attr -> Attr)
}.

Record Handler := MkHandler {
  opts : HandlerOptions;
  out : Writer;
  groupPrefix : string;
  groups : list string;
  context : GoSlice.slice;       (* buffer: a []byte in the byte store *)
  headers : GoSlice.slice        (* []slog.Attr in the attribute store *)
}.

(** [buffer] (buffer.go), as a value: the bytes it holds. *)
Definition buffer := list byte.

(** The encoder.  [hookCalls] is not a field of the Go struct: it records, in
    order, the arguments of every call of [ReplaceAttr] made through this
    encoder, so that which fields the hook runs on can be stated. *)
Record encoder := MkEncoder {
  e_h : Handler;
  e_headerBuf : buffer;
  e_middleBuf : buffer;
  e_trailerBuf : buffer;
  e_groups : list string;
  e_headers : GoSlice.slice;
  hookCalls : list (list string * Attr)
}.

(** The state the handlers of a process share: the byte arrays behind the
    contexts, the attribute arrays behind the header slots, [encoderPool], and
    what the sink has received. *)
Record world := MkWorld {
  bytes_mem : GoSlice.store byte;
  attrs_mem : GoSlice.store Attr;
  pool : list encoder;
  sink : list byte
}.

Definition set_bytes_mem (w : world) (m : GoSlice.store byte) : world :=
  MkWorld m (attrs_mem w) (pool w) (sink w).
Definition set_attrs_mem (w : world) (m : GoSlice.store Attr) : world :=
  MkWorld (bytes_mem w) m (pool w) (sink w).
Definition set_pool (w : world) (p : list encoder) : world :=
  MkWorld (bytes_mem w) (attrs_mem w) p (sink w).
Definition set_sink (w : world) (s : list byte) : world :=
  MkWorld (bytes_mem w) (attrs_mem w) (pool w) s.

Definition set_groups (e : encoder) (g : list string) : encoder :=
  MkEncoder (e_h e) (e_headerBuf e) (e_middleBuf e) (e_trailerBuf e) g
    (e_headers e) (hookCalls e).
Definition set_h (e : encoder) (h : Handler) : encoder :=
  MkEncoder h (e_headerBuf e) (e_middleBuf e) (e_trailerBuf e) (e_groups e)
    (e_headers e) (hookCalls e).

(** A call of the hook: the call is recorded, the answer is the hook's. *)
Definition addCalls (e : encoder) (calls : list (list string * Attr)) : encoder :=
  MkEncoder (e_h e) (e_headerBuf e) (e_middleBuf e) (e_trailerBuf e) (e_groups e)
    (e_headers e) (hookCalls e ++ calls).

Definition callHook (f : list string -> Attr -> Attr) (e : encoder)
    (gs : list string) (a : Attr) : encoder * Attr :=
  (addCalls e [(gs, a)], f gs a).

Definition bytes_of (s : string) : list byte := list_byte_of_string s.
Arguments bytes_of s%_string.
Definition text_of (b : list byte) : string := string_of_list_byte b.

Definition newline : byte := x0a.
Definition space : byte := x20.

(** The first index at which [f] holds ([slices.IndexFunc]; [None] for -1). *)
Fixpoint IndexFunc {A} (l : list A) (f : A -> bool) : option nat :=
  match l with
  | [] => None
  | x :: l' => if f x then Some 0 else S <$> IndexFunc l' f
  end.

(** A loop whose body may fail. *)
Fixpoint foldlM {S A} (f : S -> A -> option S) (l : list A) (s : S) : option S :=
  match l with
  | [] => Some s
  | x :: l' => match f s x with Some s' => foldlM f l' s' | None => None end
  end.

(** Go's [int] arithmetic wraps at 64 bits. *)
Definition wrap64 (z : Z) : Z := ((z + 2 ^ 63) mod 2 ^ 64 - 2 ^ 63)%Z.

(** [%+d]: decimal with the sign always written. *)
Definition fmt_plus_d (z : Z) : string :=
  String.append (if (z <? 0)%Z then "-" else "+")
                (NilZero.string_of_uint (N.to_uint (Z.abs_N z))).

(** [Level.String] of [log/slog]. *)
Definition levelString (l : Slog.Level) : string :=
  let str (base : string) (val : Z) : string :=
    if (val =? 0)%Z then base else String.append base (fmt_plus_d val) in
  if (l <? LevelInfo)%Z then str "DEBUG" (wrap64 (l - LevelDebug))
  else if (l <? LevelWarn)%Z then str "INFO" (wrap64 (l - LevelInfo))
  else if (l <? LevelError)%Z then str "WARN" (wrap64 (l - LevelWarn))
  else str "ERROR" (wrap64 (l - LevelError)).

(** Modelled from the spec: the growable byte accumulator [buffer] (buffer.go
    is not among the sources).  Every way of adding to it is Go's [append] on
    the underlying []byte; the encoder is written once over this interface and
    run both on a buffer held by value and on a slice in the byte store. *)
Class Buffer (B : Type) := Append : B -> list byte -> B.

#[export] Instance buffer_Buffer : Buffer buffer := fun b data => b ++ data.

Definition AppendByte {B} `{Buffer B} (b : B) (c : byte) : B := Append b [c].
Definition AppendString {B} `{Buffer B} (b : B) (s : string) : B :=
  Append b (bytes_of s).

(** *** encoder.go *)

Section Encoder.
Context `{Runtime}.
Context {B : Type} `{Buffer B}.

Definition eopts (e : encoder) : HandlerOptions := opts (e_h e).

(** [e.h.opts.ReplaceAttr != nil]. *)
Definition hasHook (e : encoder) : bool :=
  match ReplaceAttr (eopts e) with Some _ => true | None => false end.

(** [e.h.opts.Theme]; [NewHandler] has replaced a nil theme by the default
    one. *)
Definition etheme (e : encoder) : Th.Theme :=
  default NewDefaultTheme (Theme (eopts e)).

Definition NewLine (e : encoder) (buf : B) : B := AppendByte buf newline.

Definition withColor (e : encoder) (b : B) (c : ANSIMod) (f : B -> B) : B :=
  if String.eqb c "" || NoColor (eopts e) then f b
  else AppendString (f (AppendString b c)) ResetMod.

Definition writeColoredTime (e : encoder) (w : B) (t : Time) (format : string)
    (c : ANSIMod) : B :=
  withColor e w c (fun w => Append w (fmtTime t format)).

Definition writeColoredString (e : encoder) (w : B) (s : string) (c : ANSIMod) : B :=
  withColor e w c (fun w => AppendString w s).

Definition writeColoredInt (e : encoder) (w : B) (i : Z) (c : ANSIMod) : B :=
  withColor e w c (fun w => Append w (fmtInt i)).

Definition writeColoredUint (e : encoder) (w : B) (i : Z) (c : ANSIMod) : B :=
  withColor e w c (fun w => Append w (fmtUint i)).

Definition writeColoredFloat (e : encoder) (w : B) (i : float64) (c : ANSIMod) : B :=
  withColor e w c (fun w => Append w (fmtFloat i)).

Definition writeColoredBool (e : encoder) (w : B) (b : bool) (c : ANSIMod) : B :=
  withColor e w c (fun w => Append w (fmtBool b)).

Definition writeColoredDuration (e : encoder) (w : B) (d : Z) (c : ANSIMod) : B :=
  withColor e w c (fun w => Append w (fmtDuration d)).

(** [value.String()]: the string itself, or as [fmt.Sprint] prints the
    value. *)
Definition valueString (v : Value) : string :=
  match v with VString s => s | _ => fmtSprint v end.

Definition writeColoredValue (e : encoder) (buf : B) (value : Value)
    (style : ANSIMod) : B :=
  match value with
  | VInt64 i => writeColoredInt e buf i style
  | VBool b => writeColoredBool e buf b style
  | VFloat64 f => writeColoredFloat e buf f style
  | VTime t => writeColoredTime e buf t (TimeFormat (eopts e)) style
  | VUint64 u => writeColoredUint e buf u style
  | VDuration d => writeColoredDuration e buf d style
  | VAny (AError _ (Some plusv)) =>
      (* an error that is a fmt.Formatter: fmt.Fprintf(buf, "%+v", v) *)
      withColor e buf style (fun buf => AppendString buf plusv)
  | VAny (AError msg None) => writeColoredString e buf msg style
  | VAny (AStringer s) => writeColoredString e buf s style
  | VAny (ALevel l) => writeColoredString e buf (levelString l) style
  | _ => writeColoredString e buf (valueString value) style
  end.

(** [a = ReplaceAttr(groups, a); a.Value = a.Value.Resolve()]. *)
Definition replaceAndResolve (f : list string -> Attr -> Attr) (e : encoder)
    (gs : list string) (a : Attr) : encoder * Attr :=
  let '(e, a) := callHook f e gs a in
  (e, MkAttr (Key a) (Resolve (Val a))).

Definition writeTimestamp (e : encoder) (buf : B) (tm : Time) : encoder * B :=
  if IsZero tm then (* elide, and skip ReplaceAttr *) (e, buf)
  else
    match ReplaceAttr (eopts e) with
    | Some f =>
        let '(e, attr) := replaceAndResolve f e [] (TimeAttr TimeKey tm) in
        if isZeroValue (Val attr) then (e, buf)
        else
          match Val attr with
          | VTime tm =>
              if IsZero tm then (e, buf)
              else (e, AppendByte
                         (writeColoredTime e buf tm (TimeFormat (eopts e))
                            (Th.Timestamp (etheme e))) space)
          | v => (e, AppendByte (writeColoredValue e buf v (Th.Timestamp (etheme e)))
                       space)
          end
    | None =>
        (e, AppendByte
              (writeColoredTime e buf tm (TimeFormat (eopts e))
                 (Th.Timestamp (etheme e))) space)
    end.

(** The tail of [writeSource], once the source is settled. *)
Definition writeSourceFields (e : encoder) (buf : B) (src : Source) (cwd : string) : B :=
  if String.eqb (File src) "" && (Line src =? 0)%Z then buf
  else
    let file :=
      if String.eqb cwd "" then File src
      else match filepathRel cwd (File src) with
           | Some ff => ff
           | None => File src
           end in
    withColor e buf (Th.Source (etheme e)) (fun buf =>
      AppendByte (Append (AppendByte (AppendString buf file) ":"%byte)
                    (fmtInt (Line src))) space).

Definition writeSource (e : encoder) (buf : B) (pc : Z) (cwd : string) : encoder * B :=
  let src := if (0 <? pc)%Z then callersFrame pc else MkSource "" "" 0 in
  match ReplaceAttr (eopts e) with
  | Some f =>
      let '(e, attr) := replaceAndResolve f e [] (Any SourceKey (ASource (Some src))) in
      if isZeroValue (Val attr) then (e, buf)
      else
        match Val attr with
        | VAny (ASource None) => (e, buf)
        | VAny (ASource (Some newsrc)) =>
            (e, writeSourceFields e buf
                  (MkSource (Function src) (File newsrc) (Line newsrc)) cwd)
        | v => (e, AppendByte (writeColoredValue e buf v (Th.Timestamp (etheme e)))
                     space)
        end
  | None => (e, writeSourceFields e buf src cwd)
  end.

Definition writeMessage (e : encoder) (buf : B) (level : Slog.Level) (msg : string)
    : encoder * B :=
  let style := if (level <? LevelInfo)%Z then Th.MessageDebug (etheme e)
               else Th.Message (etheme e) in
  match ReplaceAttr (eopts e) with
  | Some f =>
      let '(e, attr) := replaceAndResolve f e [] (String_ MessageKey msg) in
      if isZeroValue (Val attr) then (e, buf)
      else (e, writeColoredValue e buf (Val attr) style)
  | None => (e, writeColoredString e buf msg style)
  end.

(** One round of the loop of [writeHeaders]. *)
Definition writeHeader (eb : encoder * B) (a : Attr) : encoder * B :=
  let '(e, buf) := eb in
  let '(e, a) :=
    match ReplaceAttr (eopts e) with
    | Some f => if negb (isGroup (Val a)) then replaceAndResolve f e [] a else (e, a)
    | None => (e, a)
    end in
  if isZeroValue (Val a) then (e, buf)
  else (e, AppendByte (writeColoredValue e buf (Val a) (Th.Source (etheme e))) space).

Definition writeHeaders (e : encoder) (buf : B) (headers : list Attr) : encoder * B :=
  fold_left writeHeader headers (e, buf).

Definition writeHeaderSeparator (e : encoder) (buf : B) : B :=
  writeColoredString e buf "> " (Th.AttrKey (etheme e)).

(** [writeAttr].  The hook may answer a group whose members are rewritten in
    turn, so the recursion is not bounded by the attribute: it runs on [fuel],
    and [None] is a run that did not end within it. *)
Fixpoint writeAttr (fuel : nat) (e : encoder) (buf : B) (a : Attr) (group : string)
    : option (encoder * B) :=
  match fuel with
  | O => None
  | S fuel' =>
    let a := MkAttr (Key a) (Resolve (Val a)) in
    let '(e, a) :=
      match ReplaceAttr (eopts e) with
      | Some f => if negb (isGroup (Val a)) then replaceAndResolve f e (e_groups e) a
                  else (e, a)
      | None => (e, a)
      end in
    if isZeroAttr a then (* Elide empty Attrs. *) Some (e, buf)
    else
      match Val a with
      | VGroup members =>
          let subgroup :=
            if String.eqb group "" then Key a
            else String.append group (String.append "." (Key a)) in
          let e := if hasHook e then set_groups e (e_groups e ++ [Key a]) else e in
          match foldlM (fun eb attr => writeAttr fuel' (fst eb) (snd eb) attr subgroup)
                       members (e, buf) with
          | Some (e, buf) =>
              let e := if hasHook e
                       then set_groups e (take (length (e_groups e) - 1) (e_groups e))
                       else e in
              Some (e, buf)
          | None => None
          end
      | value =>
          let buf := AppendByte buf space in
          let buf := withColor e buf (Th.AttrKey (etheme e)) (fun buf =>
            let buf := if String.eqb group "" then buf
                       else AppendByte (AppendString buf group) "."%byte in
            AppendByte (AppendString buf (Key a)) "="%byte) in
          let style := match value with
                       | VAny (AError _ _) => Th.AttrValueError (etheme e)
                       | _ => Th.AttrValue (etheme e)
                       end in
          Some (e, writeColoredValue e buf value style)
      end
  end.

Definition writeLevel (e : encoder) (buf : B) (l : Slog.Level) : encoder * B :=
  let finish (e : encoder) (l : Slog.Level) (val : option Value) : encoder * B :=
    let '(style, str, delta) :=
      if (LevelError <=? l)%Z
      then (Th.LevelError (etheme e), "ERR", wrap64 (l - LevelError))
      else if (LevelWarn <=? l)%Z
      then (Th.LevelWarn (etheme e), "WRN", wrap64 (l - LevelWarn))
      else if (LevelInfo <=? l)%Z
      then (Th.LevelInfo (etheme e), "INF", wrap64 (l - LevelInfo))
      else if (LevelDebug <=? l)%Z
      then (Th.LevelDebug (etheme e), "DBG", wrap64 (l - LevelDebug))
      else (Th.LevelDebug (etheme e), "DBG", wrap64 (l - LevelDebug)) in
    let buf :=
      match val with
      | Some val => writeColoredValue e buf val style
      | None =>
          let str := if (delta =? 0)%Z then str
                     else String.append str (fmt_plus_d delta) in
          writeColoredString e buf str style
      end in
    (e, AppendByte buf space) in
  match ReplaceAttr (eopts e) with
  | Some f =>
      let '(e, attr) := replaceAndResolve f e [] (Any LevelKey (ALevel l)) in
      if isZeroValue (Val attr) then (e, buf)
      else
        match Val attr with
        | VAny (ALevel ll) => finish e ll None
        | val => finish e l (Some val)
        end
  | None => finish e l None
  end.

End Encoder.

(** *** handler.go *)

Section HandlerCode.
Context `{Runtime}.

(** A context being built lives in the byte store: appending to it is Go's
    [append] on the slice. *)
#[export] Instance slice_Buffer : Buffer (GoSlice.store byte * GoSlice.slice) :=
  fun b data => GoSlice.append x00 growcap (fst b) (snd b) data.

(** Modelled from the spec: [buffer.copy] (buffer.go), which appends the
    bytes of another buffer when there are any. *)
Definition buffer_copy (b : buffer) (src : list byte) : buffer :=
  if (0 <? length src)%nat then Append b src else b.

(** Modelled from the spec: [buffer.WriteTo] (buffer.go), the flush of one
    section: the bytes go to the sink in one [Write], whose failure is
    returned. *)
Definition WriteTo (b : buffer) (dst : Writer) (w : world) : world * option string :=
  let '(n, err) := dst b in
  (set_sink w (sink w ++ take n b), err).

(** [encoderPool]: [Get] hands out a pooled encoder, or a new one ([New]) when
    the pool is empty. *)
Definition encoderPool_New (mem : GoSlice.store Attr) (h : Handler)
    : GoSlice.store Attr * encoder :=
  let '(mem, hs) := GoSlice.make zeroAttr mem 0 6 in
  (mem, MkEncoder h [] [] [] [] hs []).

Definition encoderPool_Get (w : world) (h : Handler) : world * encoder :=
  match pool w with
  | e :: rest => (set_pool w rest, e)
  | [] => let '(mem, e) := encoderPool_New (attrs_mem w) h in
          (set_attrs_mem w mem, e)
  end.

Definition newEncoder (w : world) (h : Handler) : world * encoder :=
  let '(w, e) := encoderPool_Get w h in
  let e := set_h e h in
  let e := match ReplaceAttr (opts h) with
           | Some _ => set_groups e (e_groups e ++ groups h)
           | None => e
           end in
  (w, e).

(** [free]: the buffers and the groups are emptied, the encoder goes back to
    the pool. *)
Definition free (w : world) (e : encoder) : world :=
  set_pool w (MkEncoder (e_h e) [] [] [] [] (e_headers e) (hookCalls e) :: pool w).

Definition zeroOptions : HandlerOptions := MkOptions false None false "" None [] None.

Definition DateTime : string := "2006-01-02 15:04:05".

Definition NewHandler (w : world) (out : Writer) (o : option HandlerOptions)
    : world * Handler :=
  let o := default zeroOptions o in
  let level := match Level o with None => Some LevelInfo | l => l end in
  let format := if String.eqb (TimeFormat o) "" then DateTime else TimeFormat o in
  let theme := match Theme o with None => Some NewDefaultTheme | t => t end in
  let o := MkOptions (AddSource o) level (NoColor o) format theme (Headers o)
             (ReplaceAttr o) in
  let '(mem, hs) := GoSlice.make zeroAttr (attrs_mem w) (length (Headers o))
                      (length (Headers o)) in
  (set_attrs_mem w mem, MkHandler o out "" [] GoSlice.nil_slice hs).

Definition Enabled (h : Handler) (l : Slog.Level) : bool :=
  (default LevelInfo (Level (opts h)) <=? l)%Z.

(** The state of the loop over the attributes of a record in [Handle]. *)
Record attrsState := MkAS {
  as_mem : GoSlice.store Attr;
  as_headers : GoSlice.slice;
  as_localHeaders : bool;
  as_enc : encoder;
  as_middleBuf : buffer;
  as_trailerBuf : buffer
}.

(** The body of that loop, the function literal given to [rec.Attrs]. *)
Definition Handle_attr (fuel : nat) (h : Handler) (st : attrsState) (a : Attr)
    : option attrsState :=
  match IndexFunc (Headers (opts h)) (fun s => String.eqb s (Key a)) with
  | Some idx =>
      let '(mem, headers) :=
        if as_localHeaders st then (as_mem st, as_headers st)
        else GoSlice.append zeroAttr growcap (as_mem st) (e_headers (as_enc st))
               (GoSlice.read (as_mem st) (headers h)) in
      match GoSlice.set_index mem headers idx a with
      | Some mem => Some (MkAS mem headers true (as_enc st) (as_middleBuf st)
                            (as_trailerBuf st))
      | None => None
      end
  | None =>
      let offset := length (as_middleBuf st) in
      match writeAttr fuel (as_enc st) (as_middleBuf st) a (groupPrefix h) with
      | Some (enc, middleBuf) =>
          (* check if the last attr written has newlines in it
             if so, move it to the trailerBuf *)
          let lastAttr := drop offset middleBuf in
          if existsb (Byte.eqb newline) lastAttr
          then Some (MkAS (as_mem st) (as_headers st) (as_localHeaders st) enc
                       (take offset middleBuf) (Append (as_trailerBuf st) lastAttr))
          else Some (MkAS (as_mem st) (as_headers st) (as_localHeaders st) enc
                       middleBuf (as_trailerBuf st))
      | None => None
      end
  end.

(** [Handle] up to the point where the sections are connected: the three
    buffers, before the terminator. *)
Definition Handle_sections (fuel : nat) (mem : GoSlice.store Attr)
    (bmem : GoSlice.store byte) (enc : encoder) (h : Handler) (rec : Record_)
    : option (GoSlice.store Attr * encoder * buffer * buffer * buffer) :=
  let headerBuf := e_headerBuf enc in
  let middleBuf := e_middleBuf enc in
  let trailerBuf := e_trailerBuf enc in
  let '(enc, headerBuf) := writeTimestamp enc headerBuf (RTime rec) in
  let '(enc, headerBuf) := writeLevel enc headerBuf (RLevel rec) in
  let headerLen := length headerBuf in
  let '(enc, headerBuf) :=
    if AddSource (opts h) then writeSource enc headerBuf (RPC rec) cwd
    else (enc, headerBuf) in
  let '(enc, middleBuf) := writeMessage enc middleBuf (RLevel rec) (RMessage rec) in
  let middleBuf := buffer_copy middleBuf (GoSlice.read bmem (context h)) in
  match foldlM (Handle_attr fuel h) (RAttrs rec)
               (MkAS mem (headers h) false enc middleBuf trailerBuf) with
  | Some st =>
      let enc := as_enc st in
      (* add additional headers after the source *)
      let '(enc, headerBuf) :=
        if (0 <? GoSlice.len (as_headers st))%nat
        then writeHeaders enc headerBuf (GoSlice.read (as_mem st) (as_headers st))
        else (enc, headerBuf) in
      (* connect the sections *)
      let headerBuf :=
        if (headerLen <? length headerBuf)%nat then writeHeaderSeparator enc headerBuf
        else headerBuf in
      Some (as_mem st, enc, headerBuf, as_middleBuf st, as_trailerBuf st)
  | None => None
  end.

(** The terminator: on the middle buffer when there were no multiline attrs,
    on the trailer otherwise. *)
Definition Handle_terminate (enc : encoder) (middleBuf trailerBuf : buffer)
    : buffer * buffer :=
  if (length trailerBuf =? 0)%nat then (NewLine enc middleBuf, trailerBuf)
  else (middleBuf, NewLine enc trailerBuf).

(** The flush of the three sections, and the release of the encoder. *)
Definition Handle_flush (w : world) (enc : encoder) (h : Handler)
    (headerBuf middleBuf trailerBuf : buffer) : world * option string :=
  let '(w, err) := WriteTo headerBuf (out h) w in
  match err with
  | Some err => (w, Some err)
  | None =>
      let '(w, err) := WriteTo middleBuf (out h) w in
      match err with
      | Some err => (w, Some err)
      | None =>
          let '(w, err) := WriteTo trailerBuf (out h) w in
          match err with
          | Some err => (w, Some err)
          | None => (free w enc, None)
          end
      end
  end.

(** [Handle]: the world after the call and the error returned. *)
Definition Handle (fuel : nat) (w : world) (h : Handler) (rec : Record_)
    : option (world * option string) :=
  let '(w, enc) := newEncoder w h in
  match Handle_sections fuel (attrs_mem w) (bytes_mem w) enc h rec with
  | Some (mem, enc, headerBuf, middleBuf, trailerBuf) =>
      let w := set_attrs_mem w mem in
      let '(middleBuf, trailerBuf) := Handle_terminate enc middleBuf trailerBuf in
      Some (Handle_flush w enc h headerBuf middleBuf trailerBuf)
  | None => None
  end.

(** The state of the loop of [extractHeaders]; [eh_attrs] is the caller's
    slice, which the loop writes to. *)
Record ehState := MkEH {
  eh_mem : GoSlice.store Attr;
  eh_headers : GoSlice.slice;
  eh_changed : bool;
  eh_attrs : list Attr
}.

Definition extractHeaders_step (h : Handler) (st : ehState) (i : nat)
    : option ehState :=
  match eh_attrs st !! i with
  | Some attr =>
      match IndexFunc (Headers (opts h)) (fun s => String.eqb s (Key attr)) with
      | Some idx =>
          let '(mem, hs) :=
            if eh_changed st then (eh_mem st, eh_headers st)
            else (* make a copy of prefixes: *)
              let '(mem, hs) := GoSlice.make zeroAttr (eh_mem st)
                                  (GoSlice.len (headers h)) (GoSlice.len (headers h)) in
              (GoSlice.copy mem hs (headers h), hs) in
          match GoSlice.set_index mem hs idx attr with
          | Some mem =>
              (* remove the prefix attribute *)
              Some (MkEH mem hs true (<[i := zeroAttr]> (eh_attrs st)))
          | None => None
          end
      | None => Some st
      end
  | None => None
  end.

(** [extractHeaders]: the store, the header slots of the new handler, and the
    caller's slice as the call leaves it. *)
Definition extractHeaders (mem : GoSlice.store Attr) (h : Handler)
    (attrs : list Attr) : option (GoSlice.store Attr * GoSlice.slice * list Attr) :=
  match foldlM (extractHeaders_step h) (seq 0 (length attrs))
               (MkEH mem (headers h) false attrs) with
  | Some st => Some (eh_mem st, eh_headers st, eh_attrs st)
  | None => None
  end.

(** [WithAttrs]: the world, the new handler, and the caller's slice after the
    call. *)
Definition WithAttrs (fuel : nat) (w : world) (h : Handler) (attrs : list Attr)
    : option (world * Handler * list Attr) :=
  match extractHeaders (attrs_mem w) h attrs with
  | Some (mem, headers, attrs) =>
      let w := set_attrs_mem w mem in
      let newCtx := context h in
      let '(w, enc) := newEncoder w h in
      match foldlM (fun eb a => writeAttr fuel (fst eb) (snd eb) a (groupPrefix h))
                   attrs (enc, (bytes_mem w, newCtx)) with
      | Some (_, (bmem, newCtx)) =>
          let newCtx := GoSlice.clip newCtx in
          Some (set_bytes_mem w bmem,
                MkHandler (opts h) (out h) (groupPrefix h) (groups h) newCtx headers,
                attrs)
      | None => None
      end
  | None => None
  end.

(** [WithGroup].  The [groups] of a handler are kept by value. *)
Definition WithGroup (h : Handler) (name : string) : Handler :=
  let name := TrimSpace name in
  let groupPrefix :=
    if String.eqb (groupPrefix h) "" then name
    else String.append (groupPrefix h) (String.append "." name) in
  MkHandler (opts h) (out h) groupPrefix (groups h ++ [name]) (context h) (headers h).

End HandlerCode.

(** *** What the properties are stated with *)

Section Invariants.
Context `{Runtime}.

(** The persistent context a handler replays into every line, and the header
    slots it holds. *)
Definition ctx (w : world) (h : Handler) : list byte :=
  GoSlice.read (bytes_mem w) (context h).

Definition slots (w : world) (h : Handler) : list Attr :=
  GoSlice.read (attrs_mem w) (headers h).

(** A pooled encoder is as [free] and [New] leave it: buffers and groups empty,
    its header scratch slice empty and in the store. *)
Definition encoder_ok (mem : GoSlice.store Attr) (e : encoder) : Prop :=
  e_headerBuf e = [] /\ e_middleBuf e = [] /\ e_trailerBuf e = [] /\
  e_groups e = [] /\
  GoSlice.len (e_headers e) = 0 /\ GoSlice.wf mem (e_headers e) /\
  GoSlice.ptr (e_headers e) < length mem.

Definition world_ok (w : world) : Prop := Forall (encoder_ok (attrs_mem w)) (pool w).

(** What [NewHandler], [WithAttrs] and [WithGroup] establish of a handler: its
    context has no spare capacity, it has one header slot per configured key,
    and the array of its slots is not the scratch array of a pooled encoder. *)
Definition handler_ok (w : world) (h : Handler) : Prop :=
  GoSlice.clipped (bytes_mem w) (context h) /\
  GoSlice.wf (attrs_mem w) (headers h) /\
  GoSlice.ptr (headers h) < length (attrs_mem w) /\
  GoSlice.len (headers h) = length (Headers (opts h)) /\
  Forall (fun e => GoSlice.ptr (e_headers e) <> GoSlice.ptr (headers h)) (pool w).

(** One call into the package by a client that holds handlers the package
    gave it. *)
Inductive step : world -> world -> Prop :=
| step_Handle fuel w h rec w' err :
    handler_ok w h -> Handle fuel w h rec = Some (w', err) -> step w w'
| step_WithAttrs fuel w h attrs w' h' attrs' :
    handler_ok w h -> WithAttrs fuel w h attrs = Some (w', h', attrs') -> step w w'
| step_NewHandler w out o w' h :
    NewHandler w out o = (w', h) -> step w w'.

(** Whether a key is one of the configured header keys. *)
Definition headerIndex (h : Handler) (a : Attr) : option nat :=
  IndexFunc (Headers (opts h)) (fun s => String.eqb s (Key a)).

Definition isHeader (h : Handler) (a : Attr) : bool :=
  match headerIndex h a with Some _ => true | None => false end.

(** The bytes [WithAttrs] renders for the attributes it binds: the run of its
    loop on an empty buffer. *)
Definition WithAttrs_rendered (fuel : nat) (w : world) (h : Handler)
    (attrs : list Attr) : option (list byte) :=
  match extractHeaders (attrs_mem w) h attrs with
  | Some (mem, _, attrs) =>
      let '(w, enc) := newEncoder (set_attrs_mem w mem) h in
      match foldlM (fun eb a => writeAttr fuel (fst eb) (snd eb) a (groupPrefix h))
                   attrs (enc, ([] : buffer)) with
      | Some (_, b) => Some b
      | None => None
      end
  | None => None
  end.

(** The header slots after the attributes [attrs] were laid over [sl]: each
    attribute with a header key takes the slot of its key. *)
Definition overlay (h : Handler) (sl : list Attr) (attrs : list Attr) : list Attr :=
  fold_left (fun sl a => match headerIndex h a with
                         | Some idx => <[idx := a]> sl
                         | None => sl
                         end) attrs sl.

Definition hasNewline (span : list byte) : bool := existsb (Byte.eqb newline) span.

(** The rendered span of each attribute of an event that is not a header, in
    order: every span is the attribute written to an empty buffer. *)
Fixpoint spans (fuel : nat) (h : Handler) (e : encoder) (attrs : list Attr)
    : option (encoder * list (list byte)) :=
  match attrs with
  | [] => Some (e, [])
  | a :: attrs =>
      if isHeader h a then spans fuel h e attrs
      else match writeAttr fuel e ([] : buffer) a (groupPrefix h) with
           | Some (e, span) =>
               match spans fuel h e attrs with
               | Some (e, sps) => Some (e, span :: sps)
               | None => None
               end
           | None => None
           end
  end.

(** The carve-out as the specification words it: the single-line spans stay in
    the body in their order, the multi-line ones go to the trailer in
    theirs. *)
Definition carve (middle trailer : buffer) (sps : list (list byte)) : buffer * buffer :=
  (middle ++ concat (List.filter (fun sp => negb (hasNewline sp)) sps),
   trailer ++ concat (List.filter hasNewline sps)).

(** The three sections of a line as functions of what the handler holds (its
    header slots [sl], its context [cx]) and of the event. *)
Definition sections_spec (fuel : nat) (enc : encoder) (h : Handler)
    (sl : list Attr) (cx : list byte) (rec : Record_)
    : option (encoder * buffer * buffer * buffer) :=
  let '(enc, headerBuf) := writeTimestamp enc (e_headerBuf enc) (RTime rec) in
  let '(enc, headerBuf) := writeLevel enc headerBuf (RLevel rec) in
  let headerLen := length headerBuf in
  let '(enc, headerBuf) :=
    if AddSource (opts h) then writeSource enc headerBuf (RPC rec) cwd
    else (enc, headerBuf) in
  let '(enc, middleBuf) :=
    writeMessage enc (e_middleBuf enc) (RLevel rec) (RMessage rec) in
  let middleBuf := middleBuf ++ cx in
  match spans fuel h enc (RAttrs rec) with
  | Some (enc, sps) =>
      let '(middleBuf, trailerBuf) := carve middleBuf (e_trailerBuf enc) sps in
      let sl := overlay h sl (RAttrs rec) in
      let '(enc, headerBuf) :=
        if (0 <? length sl)%nat then writeHeaders enc headerBuf sl
        else (enc, headerBuf) in
      let headerBuf :=
        if (headerLen <? length headerBuf)%nat then writeHeaderSeparator enc headerBuf
        else headerBuf in
      Some (enc, headerBuf, middleBuf, trailerBuf)
  | None => None
  end.

End Invariants.

(** *** A runtime and inputs to run the code on *)

Definition decimal (z : Z) : string := NilZero.string_of_int (Z.to_int z).

Definition plainTheme : Th.Theme := Th.MkTheme "" "" "" "" "" "" "" "" "" "" "".

(** A theme with a token for every category, distinguishable in the output. *)
Definition markTheme : Th.Theme :=
  Th.MkTheme "<ts>" "<src>" "<msg>" "<dbg>" "<key>" "<val>" "<err>"
             "<E>" "<W>" "<I>" "<D>".

(** The formatters print decimals and plain names; capacity doubles on
    growth. *)
Definition demoRuntime : Runtime := {|
  growcap := fun old needed => 2 * old;
  ResetMod := "<r>";
  NewDefaultTheme := markTheme;
  fmtInt := fun z => bytes_of (decimal z);
  fmtUint := fun z => bytes_of (decimal z);
  fmtFloat := fun f => bytes_of (decimal f);
  fmtBool := fun b => if b then bytes_of "true" else bytes_of "false";
  fmtTime := fun t layout => bytes_of (String.append "T" (decimal t));
  fmtDuration := fun d => bytes_of (String.append (decimal d) "ns");
  fmtSprint := fun v => "<value>";
  callersFrame := fun pc => MkSource "main.f" "main.go" pc;
  filepathRel := fun base target => Some target;
  TrimSpace := fun s => s;
  cwd := ""
|}.

Definition emptyWorld : world := MkWorld [] [] [] [].

(** A sink that takes everything, and one that fails every write. *)
Definition okWriter : Writer := fun b => (length b, None).
Definition failingWriter : Writer := fun b => (0%nat, Some "nope").

Definition noColorOptions (hdrs : list string) : HandlerOptions :=
  MkOptions false None true "" None hdrs None.

End Console.

(** ** What the theorems are stated with *)

Module Props.
Import GoSlice Slog Console.
Local Open Scope string_scope.
Local Open Scope list_scope.

(** Two results of the encoder, on two kinds of buffer related by [R]. *)
Definition res_rel {B1 B2 : Type} (R : B1 -> B2 -> Prop)
    (r1 : option (encoder * B1)) (r2 : option (encoder * B2)) : Prop :=
  match r1, r2 with
  | Some (e1, b1), Some (e2, b2) => e1 = e2 /\ R b1 b2
  | None, None => True
  | _, _ => False
  end.

(** How deep groups nest in a value; a [LogValuer] counts as the value it
    resolves to. *)
Fixpoint depth (v : Value) : nat :=
  match v with
  | VGroup members => S (list_max (map (fun a => depth (Val a)) members))
  | VLogValuer _ v' => depth v'
  | _ => 0
  end.

Section Predicates.
Context `{Runtime}.

(** What holds of the loop state, for an encoder whose scratch slice is
    [hs0] and a store that was [mem0] when the loop began. *)
Definition loop_inv (h : Handler) (hs0 : slice) (mem0 : store Attr)
    (st : attrsState) : Prop :=
  e_headers (as_enc st) = hs0 /\
  grows mem0 (as_mem st) /\
  keeps (fun p => p <> ptr hs0) mem0 (as_mem st) /\
  wf (as_mem st) (as_headers st) /\
  ptr (as_headers st) < length (as_mem st) /\
  len (as_headers st) = length (Headers (opts h)) /\
  (as_localHeaders st = false ->
     as_headers st = headers h /\ read (as_mem st) (headers h) = read mem0 (headers h)) /\
  (as_localHeaders st = true ->
     ptr (as_headers st) = ptr hs0 \/ length mem0 <= ptr (as_headers st)).

(** What [extractHeaders] leaves of an entry of the caller's slice. *)
Definition cleared (h : Handler) (a : Attr) : Attr :=
  if isHeader h a then zeroAttr else a.

(** What holds of the state of the loop of [extractHeaders], for a store
    that was [mem0] when it began. *)
Definition eh_inv (h : Handler) (mem0 : store Attr) (st : ehState) : Prop :=
  grows mem0 (eh_mem st) /\
  keeps (fun _ => True) mem0 (eh_mem st) /\
  wf (eh_mem st) (eh_headers st) /\
  ptr (eh_headers st) < length (eh_mem st) /\
  len (eh_headers st) = length (Headers (opts h)) /\
  (eh_changed st = false -> eh_headers st = headers h /\ eh_mem st = mem0) /\
  (eh_changed st = true -> ptr (eh_headers st) = length mem0).

(** The context under construction, [b], against the bytes [l] the same run
    writes on an empty buffer.  [st0] and [s0] are the byte store and the
    context of the parent when [WithAttrs] begins: either nothing was written
    yet, or the slice has moved to an array allocated since; the arrays of
    [st0] are all as they were. *)
Definition ctx_rel (st0 : store byte) (s0 : slice)
    (b : store byte * slice) (l : buffer) : Prop :=
  ((b.1 = st0 /\ b.2 = s0) \/ length st0 <= ptr b.2) /\
  wf b.1 b.2 /\ grows st0 b.1 /\ keeps (fun _ => True) st0 b.1 /\
  read b.1 b.2 = read st0 s0 ++ l.

(** The encoder as [free] puts it back. *)
Definition freed (e : encoder) : encoder :=
  MkEncoder (e_h e) [] [] [] [] (e_headers e) (hookCalls e).

(** A render of handler [h] in world [w] is the flush of the sections that
    the slots [sl] and the context [cx] determine. *)
Definition renders_from (fuel : nat) (w : world) (h : Handler) (rec : Record_)
    (sl : list Attr) (cx : list byte) : Prop :=
  match sections_spec fuel (newEncoder w h).2 h sl cx rec with
  | Some (e', hb, mb, tb) =>
      exists mem',
        Handle fuel w h rec
        = Some (Handle_flush (set_attrs_mem (newEncoder w h).1 mem') e' h hb
                  (Handle_terminate e' mb tb).1 (Handle_terminate e' mb tb).2)
  | None => Handle fuel w h rec = None
  end.

(** An encoder of a handler without hook and without colours. *)
Definition plain (e : encoder) : Prop :=
  ReplaceAttr (eopts e) = None /\ NoColor (eopts e) = true.

(** The header section before the header values: time, level and, if asked
    for, the source, as [Handle] writes them to the empty header buffer. *)
Definition headerPrefix (enc : encoder) (h : Handler) (rec : Record_) : buffer :=
  let '(e, b) := writeTimestamp enc ([] : buffer) (RTime rec) in
  let '(e, b) := writeLevel e b (RLevel rec) in
  if AddSource (opts h) then (writeSource e b (RPC rec) cwd).2 else b.

End Predicates.

(** Modelled from the spec: the anchor of a level, the nearest one at or
    below it, and the lowest anchor for a level below them all. *)
Definition levelAnchor (l : Slog.Level) : string * Slog.Level :=
  if (LevelError <=? l)%Z then ("ERR", LevelError)
  else if (LevelWarn <=? l)%Z then ("WRN", LevelWarn)
  else if (LevelInfo <=? l)%Z then ("INF", LevelInfo)
  else ("DBG", LevelDebug).

(** Modelled from the spec: the text of a level, the bare code on its
    anchor and the code with the signed distance to the anchor otherwise. *)
Definition levelText (l : Slog.Level) : string :=
  let '(code, anchor) := levelAnchor l in
  if (l =? anchor)%Z then code
  else if (anchor <? l)%Z
  then String.append code (String.append "+" (decimal (l - anchor)))
  else String.append code (String.append "-" (decimal (anchor - l))).

Arguments levelText l%_Z.

(** The style [writeLevel] picks in its [switch]. *)
Definition levelStyle (th : Th.Theme) (l : Slog.Level) : ANSIMod :=
  if (LevelError <=? l)%Z then Th.LevelError th
  else if (LevelWarn <=? l)%Z then Th.LevelWarn th
  else if (LevelInfo <=? l)%Z then Th.LevelInfo th
  else Th.LevelDebug th.

(** *** Handlers and events to run the code on *)

(** A parent, two children and a render between their derivations. *)
Module Family.

Definition w0 : world :=
  (NewHandler (H := demoRuntime) emptyWorld okWriter (Some (noColorOptions []))).1.
Definition parent : Handler :=
  (NewHandler (H := demoRuntime) emptyWorld okWriter (Some (noColorOptions []))).2.

Definition attrs1 : list Attr := [String_ "a" "1"].
Definition attrs2 : list Attr := [String_ "b" "2"].

Definition derived (w : world) (h : Handler) (attrs : list Attr)
    : world * Handler * list Attr :=
  default (w, h, attrs) (WithAttrs (H := demoRuntime) 3 w h attrs).

Definition rec0 : Record_ := MkRecord 0%Z "hello" 0%Z 0%Z [String_ "k" "v"].

Definition rendered (w : world) (h : Handler) : world :=
  (default (w, None) (Handle (H := demoRuntime) 3 w h rec0)).1.

Definition w1 : world := (derived w0 parent attrs1).1.1.
Definition child1 : Handler := (derived w0 parent attrs1).1.2.
Definition w2 : world := rendered w1 child1.
Definition w3 : world := (derived w2 parent attrs2).1.1.
Definition child2 : Handler := (derived w2 parent attrs2).1.2.
Definition w4 : world := rendered (rendered w3 child2) child1.

End Family.

(** An event with a multi-line attribute between two single-line ones, for a
    handler without header keys. *)
Module Multiline.

Definition w0 : world :=
  (NewHandler (H := demoRuntime) emptyWorld okWriter (Some (noColorOptions []))).1.
Definition h0 : Handler :=
  (NewHandler (H := demoRuntime) emptyWorld okWriter (Some (noColorOptions []))).2.

Definition twoLines : string := String "x" (String "010" (String "y" EmptyString)).

Definition attrs : list Attr :=
  [String_ "a" "1"; String_ "m" twoLines; String_ "b" "2"].

Definition st0 : attrsState :=
  MkAS (attrs_mem (newEncoder w0 h0).1) (headers h0) false
       (newEncoder w0 h0).2 [] [].

End Multiline.

(** A handler whose hook answers every attribute as it is; what the hook was
    called on during a render is read off the encoder once it is back in the
    pool. *)
Module Hooked.

Definition options : HandlerOptions :=
  MkOptions false None true "" None [] (Some (fun _ a => a)).

Definition w0 : world :=
  (NewHandler (H := demoRuntime) emptyWorld okWriter (Some options)).1.
Definition h0 : Handler :=
  (NewHandler (H := demoRuntime) emptyWorld okWriter (Some options)).2.

Definition event (t : Time) : Record_ := MkRecord t "foobar" 0 0 [Int "size" 12].

Definition after (t : Time) : world :=
  (default (w0, None) (Handle (H := demoRuntime) 3 w0 h0 (event t))).1.

Definition output (t : Time) : string := text_of (sink (after t)).

Definition hookedKeys (t : Time) : list string :=
  match pool (after t) with
  | e :: _ => map (fun c => Key c.2) (hookCalls e)
  | [] => []
  end.

Arguments event t%_Z.
Arguments after t%_Z.
Arguments output t%_Z.
Arguments hookedKeys t%_Z.

End Hooked.

(** A handler with the header keys [foo] and [bar]. *)
Module Headers.

Definition w0 : world :=
  (NewHandler (H := demoRuntime) emptyWorld okWriter
     (Some (noColorOptions ["foo"; "bar"]))).1.
Definition h0 : Handler :=
  (NewHandler (H := demoRuntime) emptyWorld okWriter
     (Some (noColorOptions ["foo"; "bar"]))).2.

Definition derive (w : world) (h : Handler) (attrs : list Attr) : world * Handler :=
  (default (w, h, attrs) (WithAttrs (H := demoRuntime) 3 w h attrs)).1.

Definition render (w : world) (h : Handler) (attrs : list Attr) : world :=
  (default (w, None)
     (Handle (H := demoRuntime) 3 (set_sink w []) h
        (MkRecord 0 "with headers" 0 0 attrs))).1.

Definition line (w : world) (h : Handler) (attrs : list Attr) : string :=
  text_of (sink (render w h attrs)).

End Headers.

(** The handler [h0] with the keys [foo] and [bar]; [h2] binds [foo=baz];
    [h3], derived from [h2], binds [foo=buz]. *)
Module Rebinding.

Definition w2 : world := (Headers.derive Headers.w0 Headers.h0 [String_ "foo" "baz"]).1.
Definition h2 : Handler := (Headers.derive Headers.w0 Headers.h0 [String_ "foo" "baz"]).2.
Definition w3 : world := (Headers.derive w2 h2 [String_ "foo" "buz"]).1.
Definition h3 : Handler := (Headers.derive w2 h2 [String_ "foo" "buz"]).2.

End Rebinding.

(** *** What the further properties are stated with *)

(** What a call of the hook made while an attribute is written looks like,
    for an encoder whose group chain is [gs0]: the attribute is no group and
    no unresolved [LogValuer], and the chain it is given extends [gs0]. *)
Definition hookCall_ok (gs0 : list string) (c : list string * Attr) : Prop :=
  isGroup (Val c.2) = false /\ kind (Val c.2) <> KindLogValuer /\ gs0 `prefix_of` c.1.

(** An attribute that comes to nothing: the empty key with the nil value, or
    a group all of whose members come to nothing. *)
Inductive elides : Attr -> Prop :=
| elides_empty a :
    Key a = "" -> Resolve (Val a) = zeroValue -> elides a
| elides_group a members :
    Resolve (Val a) = VGroup members -> Forall elides members -> elides a.

(** The prefix for the members of a group with key [key] under the prefix
    [group], as [writeAttr] and [WithGroup] compute it. *)
Definition joinKey (group key : string) : string :=
  if String.eqb group "" then key else String.append group (String.append "." key).

(** The attribute [a] inside groups with the keys [ks], outermost first. *)
Fixpoint nest (ks : list string) (a : Attr) : Attr :=
  match ks with
  | [] => a
  | k :: ks' => Group k [nest ks' a]
  end.

Section GroupsField.
Context `{Runtime}.

(** [WithGroup], its [groups] field on the store of string arrays:
    [append(h.groups, name)], with the name trimmed.  [newEncoder] copies the
    elements of this slice into the encoder, so a render hands the hook what
    the slice reads at that time. *)
Definition WithGroup_groups (mem : GoSlice.store string) (gs : GoSlice.slice)
    (name : string) : GoSlice.store string * GoSlice.slice :=
  GoSlice.append "" growcap mem gs [TrimSpace name].

End GroupsField.


(** Handlers derived one from another with [WithGroup], their [groups] on
    the store: a chain of three names, then two siblings. *)
Module GroupChain.

Definition derive (st : GoSlice.store string * GoSlice.slice) (name : string)
    : GoSlice.store string * GoSlice.slice :=
  WithGroup_groups (H := demoRuntime) st.1 st.2 name.

Definition abc : GoSlice.store string * GoSlice.slice :=
  derive (derive (derive ([], GoSlice.nil_slice) "a") "b") "c".

End GroupChain.

Section HeaderZone.
Context `{Runtime}.

(** The bytes of one header slot that holds a value: the value in the style
    of the source, and a space. *)
Definition headerValue (e : encoder) (a : Attr) : buffer :=
  AppendByte (writeColoredValue e ([] : buffer) (Val a) (Th.Source (etheme e))) space.

(** The slots that hold a value. *)
Definition shownSlots (sl : list Attr) : list Attr :=
  List.filter (fun a => negb (isZeroValue (Val a))) sl.

End HeaderZone.

(** A handler whose hook answers the level with [WARN] and the time with the
    zero value. *)
Module Rewriting.

Definition hook (gs : list string) (a : Attr) : Attr :=
  if String.eqb (Key a) LevelKey then Any LevelKey (ALevel LevelWarn)
  else if String.eqb (Key a) TimeKey then MkAttr TimeKey zeroValue
  else a.

Definition options : HandlerOptions :=
  MkOptions false None true "" None [] (Some hook).

Definition w0 : world :=
  (NewHandler (H := demoRuntime) emptyWorld okWriter (Some options)).1.
Definition h0 : Handler :=
  (NewHandler (H := demoRuntime) emptyWorld okWriter (Some options)).2.
Definition enc : encoder := (newEncoder w0 h0).2.

End Rewriting.

(** The three sections of a line, without the encoder. *)
Definition sections_of (r : encoder * buffer * buffer * buffer)
    : buffer * buffer * buffer :=
  (r.1.1.2, r.1.2, r.2).

(** The event [rec] with the attributes [attrs] in front of its own. *)
Definition withAttrsInFront (attrs : list Attr) (rec : Record_) : Record_ :=
  MkRecord (RTime rec) (RMessage rec) (RLevel rec) (RPC rec) (attrs ++ RAttrs rec).

(** Two encoders without hook and without colours, with the same time
    format: their options may differ in the theme. *)
Definition uncoloured (e1 e2 : encoder) : Prop :=
  ReplaceAttr (eopts e1) = None /\ ReplaceAttr (eopts e2) = None /\
  NoColor (eopts e1) = true /\ NoColor (eopts e2) = true /\
  TimeFormat (eopts e1) = TimeFormat (eopts e2).

(** The handler [Headers.h0] with another theme. *)
Module Themed.

Definition options : HandlerOptions :=
  MkOptions false None true "" (Some plainTheme) ["foo"; "bar"] None.
Definition w0 : world :=
  (NewHandler (H := demoRuntime) emptyWorld okWriter (Some options)).1.
Definition h0 : Handler :=
  (NewHandler (H := demoRuntime) emptyWorld okWriter (Some options)).2.
Definition rec0 : Record_ :=
  MkRecord 5 "hello" 0 0 [String_ "bar" "baz"; String_ "k" "v"].

End Themed.

End Props.

(** ** Facts about the memory model *)

Module GoSliceFacts.
Import GoSlice.
Section Facts.
Context {T : Type} (zero : T) (growcap : nat -> nat -> nat).
Implicit Types (st : store T) (s t : slice) (d : list T).

Lemma array_app_l st ext p : p < length st -> array (st ++ ext) p = array st p.
Proof. intros Hp. unfold array. by rewrite lookup_app_l. Qed.

Lemma array_app_new st a : array (st ++ [a]) (length st) = a.
Proof. unfold array. by rewrite list_lookup_middle. Qed.

Lemma array_out st p : length st <= p -> array st p = [].
Proof. intros Hp. unfold array. by rewrite lookup_ge_None_2. Qed.

Lemma array_insert_eq st p a : p < length st -> array (<[p := a]> st) p = a.
Proof. intros Hp. unfold array. by rewrite list_lookup_insert_eq. Qed.

Lemma array_insert_ne st p q a : p <> q -> array (<[q := a]> st) p = array st p.
Proof. intros Hp. unfold array. by rewrite list_lookup_insert_ne. Qed.

Lemma insert_array_id st p : <[p := array st p]> st = st.
Proof.
  unfold array. destruct (st !! p) as [a|] eqn:E; simpl.
  - by apply list_insert_id.
  - apply list_insert_ge. by apply lookup_ge_None_1.
Qed.

(** A well-formed slice with room left has its array in the store. *)
Lemma wf_in_range st s : wf st s -> 0 < cap s -> ptr s < length st.
Proof.
  intros [_ Hc] Hpos. destruct (decide (ptr s < length st)); [done|].
  rewrite array_out in Hc by lia. simpl in Hc. lia.
Qed.

(** What an in-place [append] shows. *)
Lemma read_append st s d :
  wf st s ->
  read (fst (append zero growcap st s d)) (snd (append zero growcap st s d))
  = read st s ++ d.
Proof.
  intros [Hl Hc]. unfold append, read.
  assert (Hlen : length (take (len s) (array st (ptr s)) ++ d) = len s + length d).
  { rewrite length_app, length_take. lia. }
  destruct (decide (len s + length d <= cap s)) as [Hfit|Hgrow]; simpl.
  - destruct (decide (ptr s < length st)) as [Hp|Hp].
    + rewrite array_insert_eq by done.
      rewrite app_assoc, <- Hlen. apply take_app_length.
    + rewrite array_out in Hc by lia. simpl in Hc.
      assert (len s = 0) by lia. assert (d = []) by (destruct d; simpl in *; [done|lia]).
      subst d. rewrite list_insert_ge by lia. rewrite array_out by lia.
      by rewrite !take_nil.
  - rewrite array_app_new. unfold read.
    rewrite app_assoc, <- Hlen. apply take_app_length.
Qed.

Lemma wf_append st s d :
  wf st s -> wf (fst (append zero growcap st s d)) (snd (append zero growcap st s d)).
Proof.
  intros [Hl Hc]. unfold append, wf.
  destruct (decide (len s + length d <= cap s)) as [Hfit|Hgrow]; simpl.
  - split; [done|]. destruct (decide (ptr s < length st)) as [Hp|Hp].
    + rewrite array_insert_eq by done.
      rewrite !length_app, length_take, length_drop. lia.
    + rewrite list_insert_ge by lia. done.
  - split; [lia|]. rewrite array_app_new. unfold read.
    rewrite !length_app, length_take, length_replicate. lia.
Qed.

(** Appending nothing changes nothing. *)
Lemma append_nil st s : wf st s -> append zero growcap st s [] = (st, s).
Proof.
  intros [Hl Hc]. unfold append. simpl.
  rewrite decide_True by lia. rewrite Nat.add_0_r, take_drop, insert_array_id.
  by destruct s.
Qed.

(** With no spare capacity, appending anything allocates: the store gains one
    array and is otherwise the same. *)
Lemma append_clipped st s d :
  clipped st s -> d <> [] ->
  exists a, append zero growcap st s d = (st ++ [a], Slice (length st) (len s + length d)
                                   ((len s + length d) `max` growcap (cap s) (len s + length d))).
Proof.
  intros [Hwf Hc] Hd. unfold append.
  rewrite decide_False; [by eexists|].
  destruct d; [done|]. simpl. lia.
Qed.

Lemma keeps_refl P st : keeps P st st.
Proof. by split. Qed.

Lemma keeps_trans (P Q K : nat -> Prop) st1 st2 st3 :
  keeps P st1 st2 -> keeps Q st2 st3 ->
  (forall p, p < length st1 -> K p -> P p /\ Q p) ->
  keeps K st1 st3.
Proof.
  intros [Hl1 H1] [Hl2 H2] HK. split; [lia|].
  intros p Hp Hk. destruct (HK p Hp Hk). rewrite H2, H1; auto with lia.
Qed.

Lemma keeps_weaken (P Q : nat -> Prop) st st' :
  keeps P st st' -> (forall p, p < length st -> Q p -> P p) -> keeps Q st st'.
Proof. intros [Hl Hk] HQ. split; [done|]. auto. Qed.

(** A slice of the old store reads the same in the new one when its array
    is kept. *)
Lemma read_keeps P st st' t :
  keeps P st st' -> wf st t -> (ptr t < length st -> P (ptr t)) ->
  read st' t = read st t /\ wf st' t.
Proof.
  intros [Hlen Hk] [Hl Hc] HP. unfold read, wf.
  destruct (decide (ptr t < length st)) as [Hp|Hp].
  - assert (array st' (ptr t) = array st (ptr t)) as ->; [|done].
    unfold array. by rewrite Hk by auto.
  - rewrite array_out in Hc by lia. simpl in Hc.
    assert (len t = 0) as -> by lia. rewrite !take_0. split; [done|]. lia.
Qed.

Lemma keeps_app P st ext : keeps P st (st ++ ext).
Proof.
  split; [rewrite length_app; lia|]. intros p Hp _. by rewrite lookup_app_l.
Qed.

Lemma keeps_insert st q a : keeps (fun p => p <> q) st (<[q := a]> st).
Proof.
  split; [by rewrite length_insert|]. intros p Hp Hq. by rewrite list_lookup_insert_ne.
Qed.

(** [append] writes to the array of its slice or to a new one. *)
Lemma append_keeps st s d :
  keeps (fun p => p <> ptr s) st (fst (append zero growcap st s d)).
Proof.
  unfold append. destruct (decide (len s + length d <= cap s)); simpl.
  - apply keeps_insert.
  - apply keeps_app.
Qed.

(** The slice [append] returns is the old array or a new one. *)
Lemma append_ptr st s d :
  ptr (snd (append zero growcap st s d)) = ptr s
  \/ ptr (snd (append zero growcap st s d)) = length st.
Proof. unfold append. destruct (decide _); simpl; auto. Qed.

Lemma append_len st s d :
  len (snd (append zero growcap st s d)) = len s + length d.
Proof. unfold append. by destruct (decide _). Qed.

Lemma set_index_keeps st s i v st' :
  set_index st s i v = Some st' -> keeps (fun p => p <> ptr s) st st'.
Proof.
  unfold set_index. destruct (decide _); [|done]. intros [= <-]. apply keeps_insert.
Qed.

Lemma set_index_length st s i v st' :
  set_index st s i v = Some st' -> length st' = length st.
Proof.
  unfold set_index. destruct (decide _); [|done]. intros [= <-]. by rewrite length_insert.
Qed.

(** Reading back after [s[i] = v]. *)
Lemma read_set_index st s i v st' :
  ptr s < length st -> set_index st s i v = Some st' ->
  read st' s = <[i := v]> (read st s) /\ (wf st s -> wf st' s).
Proof.
  intros Hp. unfold set_index. destruct (decide _) as [Hi|]; [|done]. intros [= <-].
  unfold read, wf. rewrite array_insert_eq by done. split.
  - by rewrite take_insert_lt.
  - by rewrite length_insert.
Qed.

Lemma set_index_is_Some st s i v : i < len s -> is_Some (set_index st s i v).
Proof. intros Hi. unfold set_index. rewrite decide_True by done. by eexists. Qed.

(** [make] allocates, and the new slice shows zeros. *)
Lemma make_spec st n :
  let r := make zero st n n in
  fst r = st ++ [replicate n zero] /\ snd r = Slice (length st) n n
  /\ wf (fst r) (snd r) /\ read (fst r) (snd r) = replicate n zero.
Proof.
  unfold make, wf, read. rewrite Nat.max_id. simpl. rewrite array_app_new.
  rewrite length_replicate. split_and!; try done.
  apply take_ge. by rewrite length_replicate.
Qed.

(** [copy] into a slice of the same length shows the source. *)
Lemma read_copy st dst src :
  ptr dst < length st -> wf st dst -> wf st src -> len dst = len src ->
  read (copy st dst src) dst = read st src.
Proof.
  intros Hp [Hl Hc] [Hl' Hc'] Hlen. unfold copy, read.
  rewrite array_insert_eq by done. rewrite <- Hlen.
  rewrite take_take, Nat.min_id.
  set (data := take (len dst) (array st (ptr src))).
  assert (length data = len dst) as Hd.
  { unfold data. rewrite length_take. lia. }
  rewrite <- Hd at 1. apply take_app_length.
Qed.

Lemma copy_keeps st dst src : keeps (fun p => p <> ptr dst) st (copy st dst src).
Proof. apply keeps_insert. Qed.

Lemma wf_copy st dst src :
  ptr dst < length st -> wf st dst -> wf (copy st dst src) dst.
Proof.
  intros Hp [Hl Hc]. unfold copy, wf. rewrite array_insert_eq by done.
  split; [done|]. rewrite length_app, length_drop. lia.
Qed.

End Facts.
(** ** Stores that grow

    [grows st st']: [st'] has the arrays of [st], at their addresses and of
    their lengths, whatever they hold now; slice headers stay well formed. *)

Section Grows.
Context {T : Type} (zero : T) (growcap : nat -> nat -> nat).
Implicit Types (st : store T) (s t : slice) (d : list T).

Lemma grows_refl st : grows st st.
Proof. by split. Qed.

Lemma grows_trans st1 st2 st3 : grows st1 st2 -> grows st2 st3 -> grows st1 st3.
Proof.
  intros [Hl1 H1] [Hl2 H2]. split; [lia|]. intros p Hp. rewrite H2, H1; auto with lia.
Qed.

Lemma wf_grows st st' t : grows st st' -> wf st t -> wf st' t.
Proof.
  intros [Hl Hg] [H1 H2]. split; [done|].
  destruct (decide (ptr t < length st)) as [Hp|Hp].
  - by rewrite Hg.
  - rewrite array_out in H2 by lia. simpl in H2. lia.
Qed.

Lemma grows_app st ext : grows st (st ++ ext).
Proof.
  split; [rewrite length_app; lia|]. intros p Hp. by rewrite array_app_l.
Qed.

Lemma grows_insert st q a :
  length a = length (array st q) -> grows st (<[q := a]> st).
Proof.
  intros Ha. split; [by rewrite length_insert|]. intros p Hp.
  destruct (decide (p = q)) as [->|Hne].
  - by rewrite array_insert_eq.
  - by rewrite array_insert_ne.
Qed.

Lemma append_grows st s d :
  wf st s -> grows st (fst (append zero growcap st s d)).
Proof.
  intros [Hl Hc]. unfold append.
  destruct (decide (len s + length d <= cap s)); simpl.
  - apply grows_insert.
    rewrite !length_app, length_take, length_drop. lia.
  - apply grows_app.
Qed.

Lemma append_ptr_lt st s d :
  ptr s < length st ->
  ptr (snd (append zero growcap st s d)) < length (fst (append zero growcap st s d)).
Proof.
  intros Hp. unfold append. destruct (decide _); simpl.
  - by rewrite length_insert.
  - rewrite length_app. simpl. lia.
Qed.

Lemma set_index_grows st s i v st' :
  set_index st s i v = Some st' -> grows st st'.
Proof.
  unfold set_index. destruct (decide _); [|done]. intros [= <-].
  apply grows_insert. by rewrite length_insert.
Qed.

Lemma copy_grows st dst src : wf st dst -> grows st (copy st dst src).
Proof.
  intros [Hl Hc]. unfold copy. apply grows_insert.
  rewrite length_app, length_drop, length_take. unfold read. rewrite length_take. lia.
Qed.

Lemma make_grows st n c : grows st (fst (make zero st n c)).
Proof. apply grows_app. Qed.

Lemma make_keeps P st n c : keeps P st (fst (make zero st n c)).
Proof. apply keeps_app. Qed.

(** A slice of length zero shows nothing. *)
Lemma read_len0 st s : len s = 0 -> read st s = [].
Proof. intros Hs. unfold read. by rewrite Hs. Qed.

Lemma length_read st s : wf st s -> length (read st s) = len s.
Proof. intros [Hl Hc]. unfold read. rewrite length_take. lia. Qed.

Lemma clipped_grows st st' t : grows st st' -> clipped st t -> clipped st' t.
Proof. intros Hg [Hwf Hc]. split; [by eapply wf_grows|done]. Qed.

Lemma wf_clip st s : wf st s -> clipped st (clip s) /\ read st (clip s) = read st s.
Proof. intros [Hl Hc]. unfold clipped, wf, clip, read. simpl. split_and!; auto with lia. Qed.

End Grows.

End GoSliceFacts.

(** ** The properties of the handler *)

Module Verified.
Import GoSlice GoSliceFacts Slog Console Props.
Local Open Scope string_scope.
Local Open Scope list_scope.

(** *** The encoder only appends

    Two runs of the encoder on buffers related by a relation that [Append]
    preserves end in related buffers, with the same encoder state. *)

Section Rel.
Context `{Runtime}.
Context {B1 B2 : Type} `{Buffer B1} `{Buffer B2}.
Variable R : B1 -> B2 -> Prop.
Hypothesis R_Append : forall b1 b2 d, R b1 b2 -> R (Append b1 d) (Append b2 d).

Lemma AppendByte_rel b1 b2 c : R b1 b2 -> R (AppendByte b1 c) (AppendByte b2 c).
Proof. apply R_Append. Qed.

Lemma AppendString_rel b1 b2 s : R b1 b2 -> R (AppendString b1 s) (AppendString b2 s).
Proof. apply R_Append. Qed.

Lemma withColor_rel e b1 b2 c (f1 : B1 -> B1) (f2 : B2 -> B2) :
  (forall x1 x2, R x1 x2 -> R (f1 x1) (f2 x2)) ->
  R b1 b2 -> R (withColor e b1 c f1) (withColor e b2 c f2).
Proof.
  intros Hf Hb. unfold withColor.
  destruct (_ || _); auto using AppendString_rel.
Qed.

Lemma writeColoredString_rel e b1 b2 s c :
  R b1 b2 -> R (writeColoredString e b1 s c) (writeColoredString e b2 s c).
Proof. intros. apply withColor_rel; auto using AppendString_rel. Qed.

Lemma writeColoredValue_rel e b1 b2 v c :
  R b1 b2 -> R (writeColoredValue e b1 v c) (writeColoredValue e b2 v c).
Proof.
  intros Hb. unfold writeColoredValue.
  repeat case_match;
    first [ by apply writeColoredString_rel
          | apply withColor_rel; auto using AppendString_rel, R_Append ].
Qed.

Lemma foldlM_rel {A} (f1 : encoder * B1 -> A -> option (encoder * B1))
    (f2 : encoder * B2 -> A -> option (encoder * B2)) l :
  (forall e b1 b2 x, R b1 b2 -> res_rel R (f1 (e, b1) x) (f2 (e, b2) x)) ->
  forall e b1 b2, R b1 b2 -> res_rel R (foldlM f1 l (e, b1)) (foldlM f2 l (e, b2)).
Proof.
  intros Hf. induction l as [|x l IH]; intros e b1 b2 Hb; simpl; [done|].
  specialize (Hf e b1 b2 x Hb). unfold res_rel in Hf.
  destruct (f1 (e, b1) x) as [[e1 c1]|], (f2 (e, b2) x) as [[e2 c2]|]; try done.
  destruct Hf as [-> Hc]. by apply IH.
Qed.

Lemma writeAttr_rel fuel : forall e b1 b2 a g,
  R b1 b2 -> res_rel R (writeAttr fuel e b1 a g) (writeAttr fuel e b2 a g).
Proof.
  induction fuel as [|fuel IH]; intros e b1 b2 a g Hb; cbn [writeAttr]; [done|].
  destruct (match ReplaceAttr (eopts e) with
            | Some f => _
            | None => _
            end) as [e' a'].
  destruct (isZeroAttr a'); [done|].
  destruct (Val a') eqn:Ev;
    try (split; [done|]; apply writeColoredValue_rel, withColor_rel;
         [intros; destruct (String.eqb g ""); auto using AppendByte_rel, AppendString_rel
         | by apply AppendByte_rel]).
  set (G := if String.eqb g "" then Key a' else _).
  set (E := if hasHook e' then _ else e').
  pose proof (foldlM_rel
    (fun (eb : encoder * B1) attr => writeAttr fuel eb.1 eb.2 attr G)
    (fun (eb : encoder * B2) attr => writeAttr fuel eb.1 eb.2 attr G)
    attrs (fun e b1 b2 x Hx => IH e b1 b2 x G Hx) E b1 b2 Hb) as Hfold.
  unfold res_rel in Hfold |- *.
  revert Hfold.
  generalize (foldlM (fun (eb : encoder * B1) (attr : Attr) =>
                        writeAttr fuel eb.1 eb.2 attr G) attrs (E, b1)).
  generalize (foldlM (fun (eb : encoder * B2) (attr : Attr) =>
                        writeAttr fuel eb.1 eb.2 attr G) attrs (E, b2)).
  intros [[e2 c2]|] [[e1 c1]|]; try done. by intros [-> ?].
Qed.

End Rel.

(** *** The encoder state *)

Section EncoderState.
Context `{Runtime}.

Lemma addCalls_nil e : addCalls e [] = e.
Proof. destruct e. unfold addCalls. simpl. by rewrite app_nil_r. Qed.

Lemma addCalls_app e c1 c2 : addCalls (addCalls e c1) c2 = addCalls e (c1 ++ c2).
Proof. unfold addCalls. simpl. by rewrite app_assoc. Qed.

Lemma hasHook_addCalls e c : hasHook (addCalls e c) = hasHook e.
Proof. done. Qed.

Lemma replaceAndResolve_enc f e gs a :
  fst (replaceAndResolve f e gs a) = addCalls e [(gs, a)].
Proof. done. Qed.

Lemma foldlM_enc {B A} (f : encoder * B -> A -> option (encoder * B)) l :
  (forall e b x e' b', f (e, b) x = Some (e', b') -> exists c, e' = addCalls e c) ->
  forall e b e' b', foldlM f l (e, b) = Some (e', b') -> exists c, e' = addCalls e c.
Proof.
  intros Hf. induction l as [|x l IH]; intros e b e' b' Hl; simpl in Hl.
  - simplify_eq. exists []. by rewrite addCalls_nil.
  - destruct (f (e, b) x) as [[e1 b1]|] eqn:E; [|done].
    apply Hf in E as [c1 ->]. apply IH in Hl as [c2 ->].
    exists (c1 ++ c2). by rewrite addCalls_app.
Qed.

(** Whatever it writes, [writeAttr] leaves the encoder as it found it, up to
    the record of the hook calls: the groups it pushes, it pops. *)
Lemma writeAttr_enc {B} `{Buffer B} fuel : forall e (b : B) a g e' b',
  writeAttr fuel e b a g = Some (e', b') -> exists c, e' = addCalls e c.
Proof.
  induction fuel as [|fuel IH]; intros e b a g e' b'; cbn [writeAttr]; [done|].
  set (pre := match ReplaceAttr (eopts e) with Some f => _ | None => _ end).
  assert (exists c, fst pre = addCalls e c) as [c0 Hc0].
  { unfold pre. destruct (ReplaceAttr (eopts e)); [destruct (negb _)|].
    - eexists. apply replaceAndResolve_enc.
    - exists []. by rewrite addCalls_nil.
    - exists []. by rewrite addCalls_nil. }
  destruct pre as [e1 a1]. simpl in Hc0. subst e1.
  destruct (isZeroAttr a1); [intros; simplify_eq; by eexists|].
  destruct (Val a1) eqn:Ev; try (intros; simplify_eq; by eexists).
  rewrite hasHook_addCalls.
  set (G := if String.eqb g "" then Key a1 else _).
  match goal with
  | |- context [foldlM ?f attrs ?s] => destruct (foldlM f attrs s) as [[e2 b2]|] eqn:Ef
  end; [|done].
  intros [= <- <-].
  apply (foldlM_enc (fun eb attr => writeAttr fuel eb.1 eb.2 attr G)) in Ef as [c ->].
  2: { intros ? ? ? ? ? Hw. by eapply IH. }
  destruct (hasHook e) eqn:Eh.
  - match goal with
    | |- context [hasHook ?x] => change (hasHook x) with (hasHook e)
    end.
    rewrite Eh.
    exists (c0 ++ c). unfold set_groups, addCalls. simpl.
    rewrite length_app. simpl.
    replace (length (e_groups e) + 1 - 1) with (length (e_groups e)) by lia.
    rewrite take_app_length. by rewrite app_assoc.
  - match goal with
    | |- context [hasHook ?x] => change (hasHook x) with (hasHook e)
    end.
    rewrite Eh.
    exists (c0 ++ c). by rewrite addCalls_app.
Qed.

(** On a buffer held by value, [writeAttr] appends to what is there the span
    it writes on an empty buffer. *)
Lemma writeAttr_span fuel e (pre : buffer) a g :
  writeAttr fuel e pre a g
  = match writeAttr fuel e ([] : buffer) a g with
    | Some (e', sp) => Some (e', pre ++ sp)
    | None => None
    end.
Proof.
  pose proof (writeAttr_rel (fun b1 b2 : buffer => b1 = pre ++ b2)) as Hrel.
  specialize (Hrel (fun b1 b2 d Hb => eq_trans (f_equal (fun x => x ++ d) Hb)
                                        (eq_sym (app_assoc pre b2 d)))).
  specialize (Hrel fuel e pre [] a g (eq_sym (app_nil_r pre))).
  unfold res_rel in Hrel. revert Hrel.
  generalize (writeAttr fuel e pre a g) (writeAttr fuel e ([] : buffer) a g).
  intros [[e1 b1]|] [[e2 b2]|]; try done. by intros [-> ->].
Qed.

End EncoderState.

(** *** The loop of [Handle] over the attributes of an event *)

Section HandleLoop.
Context `{Runtime}.

Lemma IndexFunc_lt {A} (l : list A) f i : IndexFunc l f = Some i -> i < length l.
Proof.
  revert i. induction l as [|x l IH]; simpl; intros i; [done|].
  destruct (f x); [intros [= <-]; lia|].
  destruct (IndexFunc l f) as [j|]; simpl; [|done].
  intros [= <-]. specialize (IH _ eq_refl). lia.
Qed.

Lemma carve_cons mb tb sp sps :
  carve mb tb (sp :: sps)
  = if hasNewline sp then carve mb (tb ++ sp) sps else carve (mb ++ sp) tb sps.
Proof.
  unfold carve. simpl. destruct (hasNewline sp); simpl; by rewrite <- app_assoc.
Qed.

Lemma Handle_attr_spec fuel h hs0 mem0 st a :
  wf mem0 hs0 -> len hs0 = 0 -> ptr hs0 < length mem0 ->
  wf mem0 (headers h) -> ptr (headers h) < length mem0 ->
  loop_inv h hs0 mem0 st ->
  match headerIndex h a with
  | Some idx =>
      exists st', Handle_attr fuel h st a = Some st' /\
        loop_inv h hs0 mem0 st' /\
        as_enc st' = as_enc st /\
        as_middleBuf st' = as_middleBuf st /\ as_trailerBuf st' = as_trailerBuf st /\
        read (as_mem st') (as_headers st')
        = <[idx := a]> (read (as_mem st) (as_headers st))
  | None =>
      match writeAttr fuel (as_enc st) ([] : buffer) a (groupPrefix h) with
      | Some (e', sp) =>
          exists st', Handle_attr fuel h st a = Some st' /\
            loop_inv h hs0 mem0 st' /\
            as_enc st' = e' /\
            (as_middleBuf st', as_trailerBuf st')
            = (if hasNewline sp
               then (as_middleBuf st, as_trailerBuf st ++ sp)
               else (as_middleBuf st ++ sp, as_trailerBuf st)) /\
            read (as_mem st') (as_headers st') = read (as_mem st) (as_headers st)
      | None => Handle_attr fuel h st a = None
      end
  end.
Proof.
  intros Hwf0 Hlen0 Hp0 Hwfh Hph (He & Hg & Hk & Hwf & Hp & Hlen & Hloc0 & Hloc1).
  unfold Handle_attr, headerIndex.
  destruct (IndexFunc _ _) as [idx|] eqn:Eidx.
  - apply IndexFunc_lt in Eidx.
    destruct (as_localHeaders st) eqn:Eloc.
    + destruct (set_index_is_Some (as_mem st) (as_headers st) idx a) as [mem' Hset];
        [lia|].
      rewrite Hset. eexists. split; [done|].
      destruct (read_set_index _ _ _ _ _ Hp Hset) as [Hread Hwf'].
      pose proof (set_index_grows _ _ _ _ _ Hset) as Hg'.
      pose proof (set_index_keeps _ _ _ _ _ Hset) as Hk'.
      unfold loop_inv. simpl. split_and!; try done.
      * by eapply grows_trans.
      * eapply keeps_trans; [exact Hk|exact Hk'|].
        intros p Hlt Hne. split; [done|]. destruct (Hloc1 eq_refl); lia.
      * auto.
      * by rewrite (set_index_length _ _ _ _ _ Hset).
    + destruct (Hloc0 eq_refl) as [Hhs Hrd].
      pose proof (wf_grows _ _ _ Hg Hwf0) as Hwf0'.
      rewrite He.
      set (r := append zeroAttr growcap (as_mem st) hs0 (read (as_mem st) (headers h))).
      pose proof (read_append zeroAttr growcap (as_mem st) hs0
                    (read (as_mem st) (headers h)) Hwf0') as Hr.
      pose proof (wf_append zeroAttr growcap (as_mem st) hs0
                    (read (as_mem st) (headers h)) Hwf0') as Hwfr.
      pose proof (append_len zeroAttr growcap (as_mem st) hs0
                    (read (as_mem st) (headers h))) as Hlenr.
      pose proof (append_ptr zeroAttr growcap (as_mem st) hs0
                    (read (as_mem st) (headers h))) as Hptr.
      pose proof (append_keeps zeroAttr growcap (as_mem st) hs0
                    (read (as_mem st) (headers h))) as Hkr.
      pose proof (append_grows zeroAttr growcap (as_mem st) hs0
                    (read (as_mem st) (headers h)) Hwf0') as Hgr.
      assert (ptr hs0 < length (as_mem st)) as Hp0' by (destruct Hg; lia).
      pose proof (append_ptr_lt zeroAttr growcap (as_mem st) hs0
                    (read (as_mem st) (headers h)) Hp0') as Hpr.
      fold r in Hr, Hwfr, Hlenr, Hptr, Hkr, Hgr, Hpr.
      destruct r as [mem1 hs1]. simpl in *.
      rewrite (read_len0 _ _ Hlen0) in Hr. simpl in Hr.
      assert (len hs1 = length (Headers (opts h))) as Hlen1.
      { rewrite Hlenr, Hlen0. simpl. rewrite <- Hhs, length_read by done. done. }
      destruct (set_index_is_Some mem1 hs1 idx a) as [mem' Hset]; [lia|].
      rewrite Hset. eexists. split; [done|].
      destruct (read_set_index _ _ _ _ _ Hpr Hset) as [Hread Hwf'].
      pose proof (set_index_grows _ _ _ _ _ Hset) as Hg'.
      pose proof (set_index_keeps _ _ _ _ _ Hset) as Hk'.
      unfold loop_inv. simpl. split_and!; try done.
      * eapply grows_trans; [exact Hg|]. by eapply grows_trans.
      * eapply keeps_trans; [exact Hk| |].
        -- eapply keeps_trans; [exact Hkr|exact Hk'|].
           instantiate (1 := fun p => p <> ptr hs0 /\ p < length (as_mem st)).
           intros p Hlt [Hne _]. split; [done|]. destruct Hptr as [->| ->]; lia.
        -- intros p Hlt Hne. destruct Hg. split; [done|]. split; [done|lia].
      * auto.
      * by rewrite (set_index_length _ _ _ _ _ Hset).
      * intros _. destruct Hptr as [->| ->]; [by left|right]. destruct Hg. lia.
      * rewrite Hread, Hr, Hhs. done.
  - rewrite (writeAttr_span fuel (as_enc st) (as_middleBuf st)).
    match goal with
    | |- match ?x with _ => _ end => destruct x as [[e' sp]|] eqn:Ew
    end; [|done].
    apply writeAttr_enc in Ew as [c ->].
    unfold Append, buffer_Buffer.
    rewrite drop_app_length, take_app_length.
    fold (hasNewline sp).
    destruct (hasNewline sp); eexists; (split; [done|]); unfold loop_inv; simpl; split_and!; done.
Qed.

End HandleLoop.

Section HandleSections.
Context `{Runtime}.

Lemma length_overlay h attrs : forall sl, length (overlay h sl attrs) = length sl.
Proof.
  unfold overlay. induction attrs as [|a attrs IH]; intros sl; simpl; [done|].
  rewrite IH. destruct (headerIndex h a); [apply length_insert|done].
Qed.

Lemma overlay_cons h sl a attrs :
  overlay h sl (a :: attrs)
  = overlay h (match headerIndex h a with
               | Some idx => <[idx := a]> sl
               | None => sl
               end) attrs.
Proof. done. Qed.

Lemma Handle_loop_spec fuel h hs0 mem0 :
  wf mem0 hs0 -> len hs0 = 0 -> ptr hs0 < length mem0 ->
  wf mem0 (headers h) -> ptr (headers h) < length mem0 ->
  forall attrs st, loop_inv h hs0 mem0 st ->
  match spans fuel h (as_enc st) attrs with
  | Some (e', sps) =>
      exists st', foldlM (Handle_attr fuel h) attrs st = Some st' /\
        loop_inv h hs0 mem0 st' /\
        as_enc st' = e' /\
        (as_middleBuf st', as_trailerBuf st')
        = carve (as_middleBuf st) (as_trailerBuf st) sps /\
        read (as_mem st') (as_headers st')
        = overlay h (read (as_mem st) (as_headers st)) attrs
  | None => foldlM (Handle_attr fuel h) attrs st = None
  end.
Proof.
  intros Hwf0 Hlen0 Hp0 Hwfh Hph.
  induction attrs as [|a attrs IH]; intros st Hinv; cbn [spans foldlM].
  - exists st. unfold carve. simpl. by rewrite !app_nil_r.
  - pose proof (Handle_attr_spec fuel h hs0 mem0 st a Hwf0 Hlen0 Hp0 Hwfh Hph Hinv)
      as Hstep.
    unfold isHeader. destruct (headerIndex h a) as [idx|] eqn:Eidx.
    + destruct Hstep as (st1 & -> & Hinv1 & He1 & Hm1 & Ht1 & Hr1).
      specialize (IH st1 Hinv1). rewrite He1 in IH.
      destruct (spans fuel h (as_enc st) attrs) as [[e' sps]|]; [|done].
      destruct IH as (st' & -> & ? & ? & Hc & Hr).
      exists st'. split_and!; try done.
      * by rewrite Hc, Hm1, Ht1.
      * by rewrite Hr, Hr1, overlay_cons, Eidx.
    + destruct (writeAttr fuel (as_enc st) ([] : buffer) a (groupPrefix h))
        as [[e1 sp]|]; [|by rewrite Hstep].
      destruct Hstep as (st1 & -> & Hinv1 & He1 & Hmt1 & Hr1).
      specialize (IH st1 Hinv1). rewrite He1 in IH.
      destruct (spans fuel h e1 attrs) as [[e' sps]|]; [|done].
      destruct IH as (st' & -> & ? & ? & Hc & Hr).
      exists st'. split_and!; try done.
      * rewrite Hc, carve_cons.
        destruct (hasNewline sp); by injection Hmt1 as -> ->.
      * by rewrite Hr, Hr1, overlay_cons, Eidx.
Qed.

Lemma buffer_copy_app (b : buffer) src : buffer_copy b src = b ++ src.
Proof.
  unfold buffer_copy. destruct src; simpl; [by rewrite app_nil_r|done].
Qed.

Ltac enc_solver :=
  repeat case_match; unfold replaceAndResolve, callHook in *; simpl in *;
  simplify_eq;
  first [ by exists []; rewrite addCalls_nil | by eexists ].

(** The built-in fields leave the encoder as it is, up to the record of the
    hook calls. *)
Lemma writeTimestamp_enc {B} `{Buffer B} e (b : B) t :
  exists c, fst (writeTimestamp e b t) = addCalls e c.
Proof.
  unfold writeTimestamp.
  enc_solver.
Qed.

Lemma writeLevel_enc {B} `{Buffer B} e (b : B) l :
  exists c, fst (writeLevel e b l) = addCalls e c.
Proof.
  unfold writeLevel.
  enc_solver.
Qed.

Lemma writeSource_enc {B} `{Buffer B} e (b : B) pc d :
  exists c, fst (writeSource e b pc d) = addCalls e c.
Proof.
  unfold writeSource.
  enc_solver.
Qed.

Lemma writeMessage_enc {B} `{Buffer B} e (b : B) l m :
  exists c, fst (writeMessage e b l m) = addCalls e c.
Proof.
  unfold writeMessage.
  enc_solver.
Qed.

Lemma writeHeader_enc {B} `{Buffer B} e (b : B) a :
  exists c, fst (writeHeader (e, b) a) = addCalls e c.
Proof.
  unfold writeHeader.
  enc_solver.
Qed.

Lemma writeHeaders_enc {B} `{Buffer B} l : forall e (b : B),
  exists c, fst (writeHeaders e b l) = addCalls e c.
Proof.
  unfold writeHeaders. induction l as [|a l IH]; intros e b; cbn [fold_left].
  - exists []. by rewrite addCalls_nil.
  - destruct (writeHeader_enc e b a) as [c1 Hc1].
    destruct (writeHeader (e, b) a) as [e1 b1]. simpl in Hc1. subst e1.
    destruct (IH (addCalls e c1) b1) as [c2 Hc2]. rewrite Hc2.
    exists (c1 ++ c2). by rewrite addCalls_app.
Qed.

End HandleSections.

Section HandleRefinement.
Context `{Runtime}.

(** [Handle] computes the sections that [sections_spec] describes from the
    handler's slots and context, and in the attribute store writes at most to
    the encoder's scratch array and to arrays it allocates. *)
Lemma Handle_sections_spec fuel mem bmem enc h rec :
  wf mem (e_headers enc) -> len (e_headers enc) = 0 ->
  ptr (e_headers enc) < length mem ->
  wf mem (headers h) -> ptr (headers h) < length mem ->
  len (headers h) = length (Headers (opts h)) ->
  match sections_spec fuel enc h (read mem (headers h)) (read bmem (context h)) rec with
  | Some (e', hb, mb, tb) =>
      exists mem',
        Handle_sections fuel mem bmem enc h rec = Some (mem', e', hb, mb, tb) /\
        grows mem mem' /\
        keeps (fun p => p <> ptr (e_headers enc)) mem mem' /\
        exists c, e' = addCalls enc c
  | None => Handle_sections fuel mem bmem enc h rec = None
  end.
Proof.
  intros Hwf0 Hlen0 Hp0 Hwfh Hph Hlenh.
  unfold sections_spec, Handle_sections.
  destruct (writeTimestamp_enc enc (e_headerBuf enc) (RTime rec)) as [c1 E1].
  destruct (writeTimestamp enc (e_headerBuf enc) (RTime rec)) as [e1 hb1].
  simpl in E1. subst e1.
  destruct (writeLevel_enc (addCalls enc c1) hb1 (RLevel rec)) as [c2 E2].
  destruct (writeLevel (addCalls enc c1) hb1 (RLevel rec)) as [e2 hb2].
  simpl in E2. subst e2. rewrite addCalls_app.
  set (src := if AddSource (opts h) then _ else _).
  assert (exists c, fst src = addCalls enc c) as [c3 E3].
  { unfold src. destruct (AddSource (opts h)).
    - destruct (writeSource_enc (addCalls enc (c1 ++ c2)) hb2 (RPC rec) cwd) as [c E].
      rewrite E, addCalls_app. by eexists.
    - by eexists. }
  destruct src as [e3 hb3]. simpl in E3. subst e3.
  cbn [addCalls e_middleBuf e_trailerBuf].
  change (MkEncoder (e_h enc) (e_headerBuf enc) (e_middleBuf enc) (e_trailerBuf enc)
            (e_groups enc) (e_headers enc) (hookCalls enc ++ c3))
    with (addCalls enc c3).
  destruct (writeMessage_enc (addCalls enc c3) (e_middleBuf enc) (RLevel rec)
              (RMessage rec)) as [c4 E4].
  destruct (writeMessage (addCalls enc c3) (e_middleBuf enc) (RLevel rec)
              (RMessage rec)) as [e4 mb1].
  simpl in E4. subst e4. rewrite addCalls_app, buffer_copy_app.
  set (st0 := MkAS mem (headers h) false (addCalls enc (c3 ++ c4))
                (mb1 ++ read bmem (context h)) (e_trailerBuf enc)).
  assert (loop_inv h (e_headers enc) mem st0) as Hinv.
  { unfold loop_inv, st0. simpl.
    split_and!; first [done | apply grows_refl | apply keeps_refl]. }
  pose proof (Handle_loop_spec fuel h (e_headers enc) mem Hwf0 Hlen0 Hp0 Hwfh Hph
                (RAttrs rec) st0 Hinv) as Hloop.
  change (as_enc st0) with (addCalls enc (c3 ++ c4)) in Hloop.
  destruct (spans fuel h (addCalls enc (c3 ++ c4)) (RAttrs rec)) as [[e5 sps]|] eqn:Es.
  - destruct Hloop as (st' & -> & Hinv' & He5 & Hc & Hr).
    assert (exists c, e5 = addCalls enc c) as [c5 ->].
    { clear -Es. revert Es. generalize (c3 ++ c4). generalize (RAttrs rec).
      intros l. revert e5 sps. induction l as [|a l IH]; intros e5 sps c; simpl.
      - intros [= <- <-]. by eexists.
      - destruct (isHeader h a); [by apply IH|].
        destruct (writeAttr fuel (addCalls enc c) ([] : buffer) a (groupPrefix h))
          as [[e1 sp]|] eqn:Ew; [|done].
        apply writeAttr_enc in Ew as [c' ->]. rewrite addCalls_app.
        destruct (spans fuel h (addCalls enc (c ++ c')) l) as [[e2 sps2]|] eqn:E2;
          [|done].
        intros [= <- <-]. by eapply IH. }
    cbn [addCalls e_trailerBuf].
    change (as_middleBuf st0) with (mb1 ++ read bmem (context h)) in Hc.
    change (as_trailerBuf st0) with (e_trailerBuf enc) in Hc.
    destruct (carve (mb1 ++ read bmem (context h)) (e_trailerBuf enc) sps)
      as [mb tb] eqn:Ec.
    injection Hc as Hmb Htb.
    destruct Hinv' as (_ & Hg & Hk & Hwf' & Hp' & Hlen' & _ & _).
    rewrite He5, Hr, Hlen'.
    change (as_mem st0) with mem. change (as_headers st0) with (headers h).
    rewrite length_overlay, length_read, Hlenh by done.
    set (hdr := if (0 <? length (Headers (opts h)))%nat then _ else _).
    assert (exists c, fst hdr = addCalls enc c) as [c6 E6].
    { unfold hdr. destruct (0 <? _)%nat.
      - destruct (writeHeaders_enc (overlay h (read mem (headers h)) (RAttrs rec))
                    (addCalls enc c5) hb3) as [c E].
        rewrite E, addCalls_app. by eexists.
      - by eexists. }
    destruct hdr as [e6 hb4]. simpl in E6. subst e6.
    eexists. split; [by rewrite Hmb, Htb|]. split_and!; try done. by eexists.
  - by rewrite Hloop.
Qed.

End HandleRefinement.

(** *** The pool and the invariants of the world *)

Section World.
Context `{Runtime}.

Lemma encoder_ok_grows mem mem' e :
  grows mem mem' -> encoder_ok mem e -> encoder_ok mem' e.
Proof.
  intros Hg (?&?&?&?&?&?&?). unfold encoder_ok. split_and!; try done.
  - by eapply wf_grows.
  - destruct Hg. lia.
Qed.

Lemma world_ok_grows w w' :
  grows (attrs_mem w) (attrs_mem w') -> pool w' = pool w -> world_ok w -> world_ok w'.
Proof.
  unfold world_ok. intros Hg -> Hok. eapply Forall_impl; [exact Hok|].
  intros e. by apply encoder_ok_grows.
Qed.

(** What [newEncoder] hands out. *)
Lemma newEncoder_spec w h :
  let w1 := fst (newEncoder w h) in
  let enc := snd (newEncoder w h) in
  bytes_mem w1 = bytes_mem w /\ sink w1 = sink w /\ pool w1 = tail (pool w) /\
  grows (attrs_mem w) (attrs_mem w1) /\
  keeps (fun _ => True) (attrs_mem w) (attrs_mem w1) /\
  e_h enc = h /\
  ((exists e, head (pool w) = Some e /\ e_headers enc = e_headers e)
   \/ (pool w = [] /\ ptr (e_headers enc) = length (attrs_mem w))) /\
  (world_ok w ->
     e_headerBuf enc = [] /\ e_middleBuf enc = [] /\ e_trailerBuf enc = [] /\
     e_groups enc = (if hasHook enc then groups h else []) /\
     len (e_headers enc) = 0 /\ wf (attrs_mem w1) (e_headers enc) /\
     ptr (e_headers enc) < length (attrs_mem w1)).
Proof.
  unfold newEncoder, encoderPool_Get, encoderPool_New, world_ok, hasHook, eopts.
  destruct (pool w) as [|e rest] eqn:Ep; simpl.
  - unfold make. simpl.
    destruct (ReplaceAttr (opts h)) eqn:Er; simpl; split_and!; try done;
      try apply grows_app; try apply keeps_app; try (by right);
      intros _; rewrite ?Er; split_and!; try done;
      try (unfold wf; simpl; rewrite array_app_new);
      simpl; rewrite ?length_app; simpl; try lia.
  - destruct (ReplaceAttr (opts h)) eqn:Er; simpl; split_and!; try done;
      try apply grows_refl; try apply keeps_refl; try (left; by eexists);
      intros Hok; apply Forall_cons in Hok as [(?&?&?&Hg&?&?&?) _];
      rewrite ?Hg, ?Er; split_and!; done.
Qed.

(** A handler stays as the package made it when the stores keep what it
    refers to and no pooled encoder took its array. *)
Lemma handler_ok_frame (P : nat -> Prop) w w' t :
  handler_ok w t ->
  grows (bytes_mem w) (bytes_mem w') ->
  keeps (fun _ => True) (bytes_mem w) (bytes_mem w') ->
  grows (attrs_mem w) (attrs_mem w') ->
  keeps P (attrs_mem w) (attrs_mem w') -> P (ptr (headers t)) ->
  Forall (fun e => ptr (e_headers e) <> ptr (headers t)) (pool w') ->
  handler_ok w' t /\ ctx w' t = ctx w t /\ slots w' t = slots w t.
Proof.
  intros (Hc & Hwf & Hp & Hlen & Hpool) Hgb Hkb Hga Hka HP Hpool'.
  destruct Hc as [Hcw Hcc].
  destruct (read_keeps _ _ _ _ Hkb Hcw (fun _ => I)) as [Hrb Hwb].
  destruct (read_keeps _ _ _ _ Hka Hwf (fun _ => HP)) as [Hra Hwa].
  unfold handler_ok, ctx, slots, clipped. split_and!; try done.
  destruct Hga. lia.
Qed.

End World.

(** *** [extractHeaders] *)

Section ExtractHeaders.
Context `{Runtime}.

Lemma extractHeaders_step_spec h mem0 st i a :
  wf mem0 (headers h) -> ptr (headers h) < length mem0 ->
  len (headers h) = length (Headers (opts h)) ->
  eh_inv h mem0 st -> eh_attrs st !! i = Some a ->
  exists st', extractHeaders_step h st i = Some st' /\ eh_inv h mem0 st' /\
    eh_attrs st' = <[i := cleared h a]> (eh_attrs st) /\
    read (eh_mem st') (eh_headers st')
    = match headerIndex h a with
      | Some idx => <[idx := a]> (read (eh_mem st) (eh_headers st))
      | None => read (eh_mem st) (eh_headers st)
      end.
Proof.
  intros Hwfh Hph Hlenh (Hg & Hk & Hwf & Hp & Hlen & Hch0 & Hch1) Hi.
  unfold extractHeaders_step, cleared, isHeader, headerIndex. rewrite Hi.
  destruct (IndexFunc _ _) as [idx|] eqn:Eidx.
  - apply IndexFunc_lt in Eidx.
    destruct (eh_changed st) eqn:Ech.
    + destruct (set_index_is_Some (eh_mem st) (eh_headers st) idx a) as [mem' Hset];
        [lia|].
      rewrite Hset. eexists. split; [done|].
      destruct (read_set_index _ _ _ _ _ Hp Hset) as [Hread Hwf'].
      pose proof (set_index_grows _ _ _ _ _ Hset) as Hg'.
      pose proof (set_index_keeps _ _ _ _ _ Hset) as Hk'.
      unfold eh_inv. simpl. split_and!; try done.
      * by eapply grows_trans.
      * eapply keeps_trans; [exact Hk|exact Hk'|].
        intros p Hlt _. split; [done|]. rewrite (Hch1 eq_refl). lia.
      * auto.
      * by rewrite (set_index_length _ _ _ _ _ Hset).
    + destruct (Hch0 eq_refl) as [Hhs Hmem]. rewrite Hmem in *.
      destruct (make_spec zeroAttr mem0 (len (headers h))) as (Hm & Hs & Hwfm & _).
      destruct (make zeroAttr mem0 (len (headers h)) (len (headers h))) as [mem1 hs].
      simpl in Hm, Hs, Hwfm. subst mem1 hs.
      set (mem1 := mem0 ++ [replicate (len (headers h)) zeroAttr]) in *.
      set (hs := Slice (length mem0) (len (headers h)) (len (headers h))) in *.
      assert (grows mem0 mem1) as Hg1 by apply grows_app.
      assert (keeps (fun _ => True) mem0 mem1) as Hk1 by apply keeps_app.
      assert (ptr hs < length mem1) as Hp1.
      { unfold mem1, hs. rewrite length_app. simpl. lia. }
      destruct (read_keeps _ _ _ _ Hk1 Hwfh (fun _ => I)) as [Hrh Hwfh1].
      pose proof (read_copy mem1 hs (headers h) Hp1 Hwfm Hwfh1 eq_refl) as Hrc.
      pose proof (wf_copy mem1 hs (headers h) Hp1 Hwfm) as Hwfc.
      pose proof (copy_grows mem1 hs (headers h) Hwfm) as Hgc.
      pose proof (copy_keeps mem1 hs (headers h)) as Hkc.
      assert (ptr hs < length (copy mem1 hs (headers h))) as Hpc
        by (destruct Hgc; lia).
      destruct (set_index_is_Some (copy mem1 hs (headers h)) hs idx a) as [mem' Hset];
        [simpl; lia|].
      rewrite Hset. eexists. split; [done|].
      destruct (read_set_index _ _ _ _ _ Hpc Hset) as [Hread Hwf'].
      pose proof (set_index_grows _ _ _ _ _ Hset) as Hg'.
      pose proof (set_index_keeps _ _ _ _ _ Hset) as Hk'.
      unfold eh_inv. simpl. split_and!; try done.
      * eapply grows_trans; [exact Hg1|]. by eapply grows_trans.
      * eapply keeps_trans; [exact Hk1| |].
        -- eapply keeps_trans; [exact Hkc|exact Hk'|].
           instantiate (1 := fun p => p < length mem0).
           intros p Hlt Hlt0. simpl in Hlt0. unfold hs. simpl. lia.
        -- intros p Hlt _. simpl. auto.
      * auto.
      * by rewrite (set_index_length _ _ _ _ _ Hset).
      * by rewrite Hread, Hrc, Hrh, Hhs.
  - exists st. split; [done|]. split; [done|].
    split; [|done]. symmetry. by apply list_insert_id.
Qed.

Lemma extractHeaders_loop h mem0 :
  wf mem0 (headers h) -> ptr (headers h) < length mem0 ->
  len (headers h) = length (Headers (opts h)) ->
  forall rest done st, eh_inv h mem0 st -> eh_attrs st = done ++ rest ->
  exists st',
    foldlM (extractHeaders_step h) (seq (length done) (length rest)) st = Some st' /\
    eh_inv h mem0 st' /\
    eh_attrs st' = done ++ map (cleared h) rest /\
    read (eh_mem st') (eh_headers st')
    = overlay h (read (eh_mem st) (eh_headers st)) rest.
Proof.
  intros Hwfh Hph Hlenh.
  induction rest as [|a rest IH]; intros pre st Hinv Hattrs; cbn [length seq foldlM map].
  - by exists st.
  - assert (eh_attrs st !! length pre = Some a) as Hi.
    { rewrite Hattrs. by apply list_lookup_middle. }
    destruct (extractHeaders_step_spec h mem0 st (length pre) a Hwfh Hph Hlenh Hinv Hi)
      as (st1 & -> & Hinv1 & Hattrs1 & Hread1).
    destruct (IH (pre ++ [cleared h a]) st1 Hinv1) as (st' & Hf & Hinv' & Hattrs' & Hread').
    { rewrite Hattrs1, Hattrs. rewrite <- app_assoc. simpl.
      rewrite insert_app_r_alt by lia. by rewrite Nat.sub_diag. }
    rewrite length_app in Hf. simpl in Hf. rewrite Nat.add_1_r in Hf.
    exists st'. split_and!; try done.
    + rewrite Hattrs', <- app_assoc. done.
    + by rewrite Hread', Hread1, overlay_cons.
Qed.

Lemma extractHeaders_spec mem h attrs :
  wf mem (headers h) -> ptr (headers h) < length mem ->
  len (headers h) = length (Headers (opts h)) ->
  exists mem' hs,
    extractHeaders mem h attrs = Some (mem', hs, map (cleared h) attrs) /\
    grows mem mem' /\ keeps (fun _ => True) mem mem' /\
    wf mem' hs /\ ptr hs < length mem' /\ len hs = length (Headers (opts h)) /\
    (ptr hs = ptr (headers h) \/ ptr hs = length mem) /\
    read mem' hs = overlay h (read mem (headers h)) attrs.
Proof.
  intros Hwfh Hph Hlenh. unfold extractHeaders.
  destruct (extractHeaders_loop h mem Hwfh Hph Hlenh attrs [] (MkEH mem (headers h) false attrs))
    as (st' & Hf & (Hg & Hk & Hwf & Hp & Hlen & Hch0 & Hch1) & Hattrs & Hread).
  { unfold eh_inv. simpl.
    split_and!; first [done | apply grows_refl | apply keeps_refl]. }
  { done. }
  simpl in Hf. rewrite Hf. simpl in Hattrs. rewrite Hattrs.
  eexists _, _. split; [done|]. split_and!; try done.
  destruct (eh_changed st').
  - right. auto.
  - left. destruct (Hch0 eq_refl) as [-> _]. done.
Qed.

End ExtractHeaders.

(** *** [WithAttrs]: building the context of a derived handler *)

Section WithAttrsFacts.
Context `{Runtime}.

Lemma ctx_rel_Append st0 s0 b l d :
  clipped st0 s0 -> ctx_rel st0 s0 b l -> ctx_rel st0 s0 (Append b d) (Append l d).
Proof.
  intros Hclip (Hcase & Hwf & Hg & Hk & Hr). destruct b as [st s]. simpl in *.
  unfold Append, slice_Buffer, buffer_Buffer, ctx_rel. simpl.
  pose proof (read_append x00 growcap st s d Hwf) as Hr'.
  pose proof (wf_append x00 growcap st s d Hwf) as Hwf'.
  pose proof (append_grows x00 growcap st s d Hwf) as Hg'.
  rewrite Hr', Hr, <- app_assoc.
  destruct Hcase as [[-> ->]|Hfresh].
  - destruct d as [|c d].
    + rewrite (append_nil x00 growcap st0 s0) by apply Hclip. simpl.
      split_and!; try done. by left.
    + destruct (append_clipped x00 growcap st0 s0 (c :: d) Hclip) as [a Ha]; [done|].
      rewrite Ha in *. simpl in *.
      split_and!; try done; [by right|apply keeps_app].
  - split_and!; try done.
    + right. destruct (append_ptr x00 growcap st s d) as [->| ->]; [done|].
      destruct Hg. lia.
    + by eapply grows_trans.
    + eapply keeps_trans; [exact Hk|apply (append_keeps x00 growcap st s d)|].
      intros p Hp _. split; [done|]. lia.
Qed.

(** [WithAttrs]: what it returns and what it leaves in the world. *)
Lemma WithAttrs_spec fuel w h attrs :
  world_ok w -> handler_ok w h ->
  match WithAttrs_rendered fuel w h attrs with
  | Some b =>
      exists w' h',
        WithAttrs fuel w h attrs = Some (w', h', map (cleared h) attrs) /\
        world_ok w' /\ handler_ok w' h' /\
        grows (bytes_mem w) (bytes_mem w') /\
        keeps (fun _ => True) (bytes_mem w) (bytes_mem w') /\
        grows (attrs_mem w) (attrs_mem w') /\
        keeps (fun _ => True) (attrs_mem w) (attrs_mem w') /\
        pool w' = tail (pool w) /\ sink w' = sink w /\
        ctx w' h' = ctx w h ++ b /\
        slots w' h' = overlay h (slots w h) attrs /\
        opts h' = opts h /\ out h' = out h /\
        groupPrefix h' = groupPrefix h /\ groups h' = groups h
  | None => WithAttrs fuel w h attrs = None
  end.
Proof.
  intros Hw (Hclip & Hwfh & Hph & Hlenh & Hpool).
  unfold WithAttrs, WithAttrs_rendered.
  destruct (extractHeaders_spec (attrs_mem w) h attrs Hwfh Hph Hlenh)
    as (mem1 & hs & -> & Hg1 & Hk1 & Hwf1 & Hp1 & Hlen1 & Hptr1 & Hread1).
  pose proof (newEncoder_spec (set_attrs_mem w mem1) h) as Hnew.
  destruct (newEncoder (set_attrs_mem w mem1) h) as [w2 enc]. simpl in Hnew.
  destruct Hnew as (Hb2 & Hs2 & Hpool2 & Hg2 & Hk2 & _ & _ & _).
  pose proof (foldlM_rel (ctx_rel (bytes_mem w2) (context h))
    (fun (eb : encoder * (store byte * slice)) a =>
       writeAttr fuel eb.1 eb.2 a (groupPrefix h))
    (fun (eb : encoder * buffer) a => writeAttr fuel eb.1 eb.2 a (groupPrefix h))
    (map (cleared h) attrs)) as Hfold.
  rewrite Hb2 in *.
  specialize (Hfold (fun e b1 b2 x Hx =>
    writeAttr_rel _ (fun b1 b2 d => ctx_rel_Append _ _ b1 b2 d Hclip)
      fuel e b1 b2 x (groupPrefix h) Hx) enc (bytes_mem w, context h) []).
  unfold res_rel in Hfold. revert Hfold.
  match goal with
  | |- context [foldlM ?f ?l (enc, ([] : buffer))] =>
      generalize (foldlM f l (enc, ([] : buffer)))
  end.
  match goal with
  | |- context [foldlM ?f ?l (enc, (bytes_mem w, context h))] =>
      generalize (foldlM f l (enc, (bytes_mem w, context h)))
  end.
  intros r1 r2 Hfold.
  destruct r1 as [[e1 [bmem newCtx]]|], r2 as [[e2 b]|];
    try (exfalso; apply Hfold; unfold ctx_rel; simpl; split_and!;
         [by left|apply Hclip|apply grows_refl|apply keeps_refl|by rewrite app_nil_r]).
  2: done.
  destruct Hfold as [_ (Hcase & Hwfc & Hgc & Hkc & Hrc)].
  { unfold ctx_rel; simpl; split_and!;
      [by left|apply Hclip|apply grows_refl|apply keeps_refl|by rewrite app_nil_r]. }
  simpl in *.
  destruct (wf_clip bmem newCtx Hwfc) as [Hclip' Hrclip].
  destruct (read_keeps _ _ _ _ Hk2 Hwf1 (fun _ => I)) as [Hr2 Hwf2].
  eexists _, _. split; [done|].
  unfold world_ok, handler_ok, ctx, slots. simpl.
  rewrite Hpool2. simpl.
  split_and!; try done.
  - apply Forall_tail. eapply Forall_impl; [exact Hw|].
    intros e He. eapply encoder_ok_grows; [|exact He]. by eapply grows_trans.
  - destruct Hg2. lia.
  - apply Forall_tail. destruct Hptr1 as [->| ->]; [done|].
    eapply Forall_impl; [exact Hw|]. intros e (_&_&_&_&_&_&He). lia.
  - by eapply grows_trans.
  - eapply keeps_trans; [exact Hk1|exact Hk2|]. done.
  - by rewrite Hr2.
Qed.

End WithAttrsFacts.

(** *** [Handle] in the world *)

Section HandleWorld.
Context `{Runtime}.

(** The flush touches the sink and the pool only; the encoder is back in the
    pool exactly when no write failed. *)
Lemma Handle_flush_spec w enc h hb mb tb :
  let r := Handle_flush w enc h hb mb tb in
  bytes_mem r.1 = bytes_mem w /\ attrs_mem r.1 = attrs_mem w /\
  (r.2 = None -> pool r.1 = freed enc :: pool w) /\
  (r.2 <> None -> pool r.1 = pool w).
Proof.
  unfold Handle_flush, WriteTo, free, freed.
  destruct (out h hb) as [n1 [err1|]]; simpl; [done|].
  destruct (out h mb) as [n2 [err2|]]; simpl; [done|].
  destruct (out h tb) as [n3 [err3|]]; simpl; done.
Qed.

(** [Handle] renders the sections [sections_spec] describes from the slots and
    the context the handler holds, and flushes them. *)
Lemma Handle_spec fuel w h rec :
  world_ok w -> handler_ok w h ->
  let w1 := (newEncoder w h).1 in
  let enc := (newEncoder w h).2 in
  match sections_spec fuel enc h (slots w h) (ctx w h) rec with
  | Some (e', hb, mb, tb) =>
      exists mem',
        Handle fuel w h rec
        = Some (Handle_flush (set_attrs_mem w1 mem') e' h hb
                  (Handle_terminate e' mb tb).1 (Handle_terminate e' mb tb).2) /\
        grows (attrs_mem w) mem' /\
        keeps (fun p => p <> ptr (e_headers enc)) (attrs_mem w) mem' /\
        e_headers e' = e_headers enc /\
        encoder_ok mem' (freed e')
  | None => Handle fuel w h rec = None
  end.
Proof.
  intros Hw (Hclip & Hwfh & Hph & Hlenh & Hpool).
  pose proof (newEncoder_spec w h) as Hnew. unfold Handle.
  destruct (newEncoder w h) as [w1 enc]. simpl in *.
  destruct Hnew as (Hb1 & Hs1 & Hp1 & Hg1 & Hk1 & _ & _ & Henc).
  destruct (Henc Hw) as (_ & _ & _ & _ & Hlen0 & Hwf0 & Hp0).
  destruct (read_keeps _ _ _ _ Hk1 Hwfh (fun _ => I)) as [Hr1 Hwfh1].
  assert (ptr (headers h) < length (attrs_mem w1)) as Hph1 by (destruct Hg1; lia).
  pose proof (Handle_sections_spec fuel (attrs_mem w1) (bytes_mem w1) enc h rec
                Hwf0 Hlen0 Hp0 Hwfh1 Hph1 Hlenh) as Hsec.
  unfold slots, ctx. rewrite <- Hr1, <- Hb1.
  destruct (sections_spec fuel enc h _ _ rec) as [[[[e' hb] mb] tb]|]; [|by rewrite Hsec].
  destruct Hsec as (mem' & -> & Hg' & Hk' & c & ->).
  destruct (Handle_terminate _ mb tb) as [mb' tb'] eqn:Et. simpl.
  exists mem'. split; [done|]. split_and!; try done.
  - by eapply grows_trans.
  - eapply keeps_trans; [exact Hk1|exact Hk'|]. done.
  - unfold encoder_ok, freed. simpl. split_and!; try done.
    + by eapply wf_grows.
    + destruct Hg'. lia.
Qed.

(** What a run of [Handle] leaves in the world. *)
Lemma Handle_frame fuel w h rec w' err :
  world_ok w -> handler_ok w h -> Handle fuel w h rec = Some (w', err) ->
  world_ok w' /\ bytes_mem w' = bytes_mem w /\
  grows (attrs_mem w) (attrs_mem w') /\
  forall t, handler_ok w t ->
    handler_ok w' t /\ ctx w' t = ctx w t /\ slots w' t = slots w t.
Proof.
  intros Hw Hh Hrun.
  pose proof (Handle_spec fuel w h rec Hw Hh) as Hspec.
  pose proof (newEncoder_spec w h) as Hnew. simpl in *.
  destruct (newEncoder w h) as [w1 enc]. simpl in *.
  destruct Hnew as (Hb1 & Hs1 & Hp1 & Hg1 & Hk1 & _ & Hsrc & _).
  destruct (sections_spec fuel enc h _ _ rec) as [[[[e' hb] mb] tb]|];
    [|by rewrite Hspec in Hrun].
  destruct Hspec as (mem' & Hrun' & Hg' & Hk' & He' & Hok').
  rewrite Hrun' in Hrun. clear Hrun'.
  pose proof (Handle_flush_spec (set_attrs_mem w1 mem') e' h hb
                (Handle_terminate e' mb tb).1 (Handle_terminate e' mb tb).2) as Hfl.
  simpl in Hfl. injection Hrun as Hrun. rewrite Hrun in Hfl. simpl in Hfl.
  destruct Hfl as (Hfb & Hfa & Hfree & Hkeep). rewrite Hp1 in *.
  assert (pool w' = tail (pool w) \/ pool w' = freed e' :: tail (pool w)) as Hpool'.
  { destruct err; [left; by apply Hkeep|right; by apply Hfree]. }
  assert (Forall (encoder_ok mem') (tail (pool w))) as Htail.
  { apply Forall_tail. eapply Forall_impl; [exact Hw|].
    intros e. by apply encoder_ok_grows. }
  split_and!.
  - unfold world_ok. rewrite Hfa.
    destruct Hpool' as [-> | ->]; [done|]. by apply Forall_cons.
  - by rewrite Hfb.
  - by rewrite Hfa.
  - intros t Ht.
    apply (handler_ok_frame (fun p => p <> ptr (e_headers enc)) w w' t Ht).
    + rewrite Hfb, Hb1. apply grows_refl.
    + rewrite Hfb, Hb1. apply keeps_refl.
    + by rewrite Hfa.
    + by rewrite Hfa.
    + destruct Ht as (_ & _ & Hpt & _ & Hpoolt).
      destruct Hsrc as [(e & Hhead & ->)|[_ ->]]; [|lia].
      destruct (pool w) as [|e0 rest]; [done|]. simpl in Hhead. simplify_eq.
      apply Forall_cons in Hpoolt as [Hne _]. auto.
    + destruct Ht as (_ & _ & Hpt & _ & Hpoolt).
      assert (ptr (e_headers enc) <> ptr (headers t)) as Hne.
      { destruct Hsrc as [(e & Hhead & ->)|[_ ->]]; [|lia].
        destruct (pool w) as [|e0 rest]; [done|]. simpl in Hhead. simplify_eq.
        by apply Forall_cons in Hpoolt as [Hne _]. }
      destruct Hpool' as [-> | ->].
      * by apply Forall_tail.
      * apply Forall_cons. split; [|by apply Forall_tail].
        unfold freed. simpl. by rewrite He'.
Qed.

(** What [NewHandler] makes and leaves. *)
Lemma NewHandler_spec w o out :
  world_ok w ->
  let w' := (NewHandler w out o).1 in
  let h := (NewHandler w out o).2 in
  world_ok w' /\ handler_ok w' h /\
  bytes_mem w' = bytes_mem w /\ pool w' = pool w /\ sink w' = sink w /\
  grows (attrs_mem w) (attrs_mem w') /\
  keeps (fun _ => True) (attrs_mem w) (attrs_mem w') /\
  ctx w' h = [] /\
  slots w' h = replicate (length (Headers (default zeroOptions o))) zeroAttr /\
  Headers (opts h) = Headers (default zeroOptions o) /\
  ReplaceAttr (opts h) = ReplaceAttr (default zeroOptions o) /\
  NoColor (opts h) = NoColor (default zeroOptions o) /\
  AddSource (opts h) = AddSource (default zeroOptions o) /\
  groupPrefix h = ""%string /\ groups h = [] /\ Console.out h = out.
Proof.
  intros Hw. unfold NewHandler. cbn zeta.
  set (n := length (Headers _)).
  destruct (make_spec zeroAttr (attrs_mem w) n) as (Hm & Hs & Hwf & Hr).
  destruct (make zeroAttr (attrs_mem w) n n) as [mem hs]. simpl in Hm, Hs, Hwf, Hr.
  subst mem hs. simpl.
  assert (grows (attrs_mem w) (attrs_mem w ++ [replicate n zeroAttr])) as Hg
    by apply grows_app.
  unfold world_ok, handler_ok, ctx, slots, clipped, wf. simpl.
  split_and!; try done; try lia.
  - eapply Forall_impl; [exact Hw|]. intros e. by apply encoder_ok_grows.
  - by rewrite array_app_new, length_replicate.
  - rewrite length_app. simpl. lia.
  - eapply Forall_impl; [exact Hw|]. intros e (_&_&_&_&_&_&He). simpl. lia.
  - apply keeps_app.
Qed.

(** Every call keeps the pool in order, and leaves every handler the client
    holds as it was: same context, same header slots. *)
Lemma step_frame w w' :
  world_ok w -> step w w' ->
  world_ok w' /\
  forall t, handler_ok w t ->
    handler_ok w' t /\ ctx w' t = ctx w t /\ slots w' t = slots w t.
Proof.
  intros Hw Hstep. destruct Hstep as [fuel w h rec w' err Hh Hrun
                                     |fuel w h attrs w' h' attrs' Hh Hrun
                                     |w out o w' h Hnew].
  - destruct (Handle_frame fuel w h rec w' err Hw Hh Hrun) as (? & _ & _ & ?). done.
  - pose proof (WithAttrs_spec fuel w h attrs Hw Hh) as Hspec.
    destruct (WithAttrs_rendered fuel w h attrs) as [b|]; [|by rewrite Hspec in Hrun].
    destruct Hspec as (w2 & h2 & Hrun' & Hw2 & _ & Hgb & Hkb & Hga & Hka & Hp & _).
    rewrite Hrun' in Hrun. simplify_eq. split; [done|].
    intros t Ht. apply (handler_ok_frame (fun _ => True) w w' t Ht); try done.
    rewrite Hp. apply Forall_tail. apply Ht.
  - pose proof (NewHandler_spec w o out Hw) as Hspec. rewrite Hnew in Hspec.
    simpl in Hspec. destruct Hspec as (Hw' & _ & Hb & Hp & _ & Hg & Hk & _).
    split; [done|].
    intros t Ht. apply (handler_ok_frame (fun _ => True) w w' t Ht); try done.
    + rewrite Hb. apply grows_refl.
    + rewrite Hb. apply keeps_refl.
    + rewrite Hp. apply Ht.
Qed.

Lemma steps_frame w w' :
  world_ok w -> rtc step w w' ->
  world_ok w' /\
  forall t, handler_ok w t ->
    handler_ok w' t /\ ctx w' t = ctx w t /\ slots w' t = slots w t.
Proof.
  intros Hw Hsteps. induction Hsteps as [w|w w1 w2 Hstep Hsteps IH].
  - done.
  - destruct (step_frame w w1 Hw Hstep) as [Hw1 Hf1].
    destruct (IH Hw1) as [Hw2 Hf2]. split; [done|].
    intros t Ht. destruct (Hf1 t Ht) as (Ht1 & Hc1 & Hs1).
    destruct (Hf2 t Ht1) as (Ht2 & Hc2 & Hs2).
    split_and!; [done|congruence|congruence].
Qed.

End HandleWorld.

(** *** Sibling handlers never share context memory *)

Section Siblings.
Context `{Runtime}.

Lemma renders_from_held fuel w h rec :
  world_ok w -> handler_ok w h -> renders_from fuel w h rec (slots w h) (ctx w h).
Proof.
  intros Hw Hh. pose proof (Handle_spec fuel w h rec Hw Hh) as Hspec.
  unfold renders_from. simpl in Hspec.
  destruct (sections_spec _ _ _ _ _ _) as [[[[e' hb] mb] tb]|]; [|done].
  destruct Hspec as (mem' & Hrun & _). by exists mem'.
Qed.

(** C1.  Two children derived from one parent by [WithAttrs], with any calls
    into the package between and after the two derivations (renders and
    further derivations, by any handler the package made): the context each
    child replays is, in every later world, the context of the parent followed
    by the bytes rendered for the child's own attributes, the parent's context
    is what it was, and every later render of a child is computed from that
    context.  No append of a sibling or of the parent ever lands in memory a
    context shows. *)
Theorem C1_siblings_keep_their_context
    fuel1 fuel2 w0 p attrs1 attrs2 w1 c1 r1 w2 w3 c2 r2 w4 :
  world_ok w0 -> handler_ok w0 p ->
  WithAttrs fuel1 w0 p attrs1 = Some (w1, c1, r1) ->
  rtc step w1 w2 ->
  WithAttrs fuel2 w2 p attrs2 = Some (w3, c2, r2) ->
  rtc step w3 w4 ->
  exists b1 b2,
    WithAttrs_rendered fuel1 w0 p attrs1 = Some b1 /\
    WithAttrs_rendered fuel2 w2 p attrs2 = Some b2 /\
    ctx w4 c1 = ctx w0 p ++ b1 /\
    ctx w4 c2 = ctx w0 p ++ b2 /\
    ctx w4 p = ctx w0 p /\
    handler_ok w4 c1 /\ handler_ok w4 c2 /\
    (forall fuel rec, renders_from fuel w4 c1 rec (slots w4 c1) (ctx w0 p ++ b1)) /\
    (forall fuel rec, renders_from fuel w4 c2 rec (slots w4 c2) (ctx w0 p ++ b2)).
Proof.
  intros Hw0 Hp0 Hd1 Hs12 Hd2 Hs34.
  pose proof (WithAttrs_spec fuel1 w0 p attrs1 Hw0 Hp0) as Hspec1.
  destruct (WithAttrs_rendered fuel1 w0 p attrs1) as [b1|]; [|congruence].
  destruct Hspec1 as (w1' & c1' & Hd1' & Hw1 & Hc1 & Hgb1 & Hkb1 & Hga1 & Hka1 & Hp1
                      & _ & Hctx1 & _).
  rewrite Hd1' in Hd1. injection Hd1 as -> -> _.
  assert (handler_ok w1 p) as Hp1'.
  { apply (handler_ok_frame (fun _ => True) w0 w1 p Hp0); try done.
    rewrite Hp1. apply Forall_tail. apply Hp0. }
  assert (ctx w1 p = ctx w0 p) as Hpc1.
  { apply (handler_ok_frame (fun _ => True) w0 w1 p Hp0); try done.
    rewrite Hp1. apply Forall_tail. apply Hp0. }
  destruct (steps_frame w1 w2 Hw1 Hs12) as [Hw2 Hf2].
  destruct (Hf2 c1 Hc1) as (Hc1_2 & Hctx1_2 & _).
  destruct (Hf2 p Hp1') as (Hp2 & Hpc2 & _).
  pose proof (WithAttrs_spec fuel2 w2 p attrs2 Hw2 Hp2) as Hspec2.
  destruct (WithAttrs_rendered fuel2 w2 p attrs2) as [b2|]; [|congruence].
  destruct Hspec2 as (w3' & c2' & Hd2' & Hw3 & Hc2 & Hgb3 & Hkb3 & Hga3 & Hka3 & Hp3
                      & _ & Hctx2 & _).
  rewrite Hd2' in Hd2. injection Hd2 as -> -> _.
  assert (forall t, handler_ok w2 t -> handler_ok w3 t /\ ctx w3 t = ctx w2 t) as Hf3.
  { intros t Ht.
    destruct (handler_ok_frame (fun _ => True) w2 w3 t Ht) as (? & ? & _); try done.
    rewrite Hp3. apply Forall_tail. apply Ht. }
  destruct (Hf3 c1 Hc1_2) as [Hc1_3 Hctx1_3].
  destruct (Hf3 p Hp2) as [Hp3' Hpc3].
  destruct (steps_frame w3 w4 Hw3 Hs34) as [Hw4 Hf4].
  destruct (Hf4 c1 Hc1_3) as (Hc1_4 & Hctx1_4 & _).
  destruct (Hf4 c2 Hc2) as (Hc2_4 & Hctx2_4 & _).
  destruct (Hf4 p Hp3') as (_ & Hpc4 & _).
  assert (ctx w4 c1 = ctx w0 p ++ b1) as E1 by congruence.
  assert (ctx w4 c2 = ctx w0 p ++ b2) as E2 by congruence.
  exists b1, b2. split_and!; try done.
  - congruence.
  - intros fuel rec. rewrite <- E1. by apply renders_from_held.
  - intros fuel rec. rewrite <- E2. by apply renders_from_held.
Qed.

End Siblings.

Ltac handler_ok_by_computation :=
  vm_compute; repeat split; try lia; repeat constructor; try lia.

Lemma C1_witness :
  exists b1 b2,
    WithAttrs_rendered (H := demoRuntime) 3 Family.w0 Family.parent Family.attrs1
    = Some b1 /\
    WithAttrs_rendered (H := demoRuntime) 3 Family.w2 Family.parent Family.attrs2
    = Some b2 /\
    ctx Family.w4 Family.child1 = ctx Family.w0 Family.parent ++ b1 /\
    ctx Family.w4 Family.child2 = ctx Family.w0 Family.parent ++ b2 /\
    ctx Family.w4 Family.parent = ctx Family.w0 Family.parent /\
    handler_ok Family.w4 Family.child1 /\ handler_ok Family.w4 Family.child2 /\
    (forall fuel rec,
       renders_from (H := demoRuntime) fuel Family.w4 Family.child1 rec
         (slots Family.w4 Family.child1) (ctx Family.w0 Family.parent ++ b1)) /\
    (forall fuel rec,
       renders_from (H := demoRuntime) fuel Family.w4 Family.child2 rec
         (slots Family.w4 Family.child2) (ctx Family.w0 Family.parent ++ b2)).
Proof.
  apply (C1_siblings_keep_their_context (H := demoRuntime) 3 3
           Family.w0 Family.parent Family.attrs1 Family.attrs2
           Family.w1 Family.child1 (Family.derived Family.w0 Family.parent Family.attrs1).2
           Family.w2
           Family.w3 Family.child2 (Family.derived Family.w2 Family.parent Family.attrs2).2
           Family.w4).
  - handler_ok_by_computation.
  - handler_ok_by_computation.
  - vm_compute. reflexivity.
  - eapply rtc_l; [|apply rtc_refl].
    apply (step_Handle 3 Family.w1 Family.child1 Family.rec0 Family.w2 None).
    + handler_ok_by_computation.
    + vm_compute. reflexivity.
  - vm_compute. reflexivity.
  - eapply rtc_l; [|eapply rtc_l; [|apply rtc_refl]].
    + apply (step_Handle 3 Family.w3 Family.child2 Family.rec0
               (Family.rendered Family.w3 Family.child2) None).
      * handler_ok_by_computation.
      * vm_compute. reflexivity.
    + apply (step_Handle 3 (Family.rendered Family.w3 Family.child2) Family.child1
               Family.rec0 Family.w4 None).
      * handler_ok_by_computation.
      * vm_compute. reflexivity.
Defined.

(** *** Without a hook the encoder ends

    The recursion of [writeAttr] follows the groups of the attribute when no
    hook rewrites it: fuel beyond the depth of the attribute is enough. *)

Section Totality.
Context `{Runtime}.

Lemma depth_resolveLoop n orig v : depth (resolveLoop n orig v) <= depth v.
Proof.
  revert v. induction n as [|n IH]; intros v; simpl; [lia|].
  destruct v; simpl; try lia. apply IH.
Qed.

Lemma depth_Resolve v : depth (Resolve v) <= depth v.
Proof. apply depth_resolveLoop. Qed.

Lemma depth_member (members : list Attr) a :
  a ∈ members -> depth (Val a) < depth (VGroup members).
Proof.
  intros Hin. simpl. apply Nat.lt_succ_r.
  induction Hin as [a l|a b l _ IH]; simpl; lia.
Qed.

Lemma foldlM_total {B A} (f : encoder * B -> A -> option (encoder * B)) l :
  (forall e b x, x ∈ l -> ReplaceAttr (eopts e) = None ->
     exists e' b', f (e, b) x = Some (e', b') /\ ReplaceAttr (eopts e') = None) ->
  forall e b, ReplaceAttr (eopts e) = None ->
    exists e' b', foldlM f l (e, b) = Some (e', b') /\ ReplaceAttr (eopts e') = None.
Proof.
  induction l as [|x l IH]; intros Hf e b He; simpl.
  - by exists e, b.
  - destruct (Hf e b x ltac:(by left) He) as (e1 & b1 & -> & He1). simpl.
    apply IH; [|done]. intros e0 b0 y Hy. apply Hf. by right.
Qed.

Lemma writeAttr_total {B} `{Buffer B} fuel : forall e (b : B) a g,
  ReplaceAttr (eopts e) = None -> depth (Val a) < fuel ->
  exists e' b', writeAttr fuel e b a g = Some (e', b') /\
                ReplaceAttr (eopts e') = None.
Proof.
  induction fuel as [|fuel IH]; intros e b a g He Hd; [lia|].
  cbn [writeAttr]. rewrite He. cbn [Key Val].
  destruct (isZeroAttr _); [by exists e, b|].
  pose proof (depth_Resolve (Val a)) as Hres.
  destruct (Resolve (Val a)) as [| | | | | | | |members|] eqn:Ev;
    try (by eexists _, _).
  unfold hasHook. rewrite He.
  match goal with
  | |- context [foldlM ?f members ?eb] =>
      destruct (foldlM_total f members) with (e := e) (b := b)
        as (e' & b' & Hrun & He'); [|done|]
  end.
  - intros e0 b0 x Hx He0. apply IH; [done|].
    apply depth_member in Hx. lia.
  - rewrite Hrun, He'. by exists e', b'.
Qed.

Lemma spans_total fuel h attrs : forall e,
  ReplaceAttr (eopts e) = None -> Forall (fun a => depth (Val a) < fuel) attrs ->
  exists e' sps, spans fuel h e attrs = Some (e', sps) /\
                 ReplaceAttr (eopts e') = None.
Proof.
  induction attrs as [|a attrs IH]; intros e He Hd; simpl.
  - by exists e, [].
  - apply Forall_cons in Hd as [Ha Hd].
    destruct (isHeader h a); [by apply IH|].
    destruct (writeAttr_total fuel e ([] : buffer) a (groupPrefix h) He Ha)
      as (e1 & sp & -> & He1).
    destruct (IH e1 He1 Hd) as (e2 & sps & -> & He2). by eexists _, _.
Qed.


End Totality.

(** *** The multi-line carve-out *)

Section CarveOut.
Context `{Runtime}.

Lemma spans_enc fuel h attrs : forall e e' sps,
  spans fuel h e attrs = Some (e', sps) -> exists c, e' = addCalls e c.
Proof.
  induction attrs as [|a attrs IH]; intros e e' sps; simpl.
  - intros [= <- <-]. exists []. by rewrite addCalls_nil.
  - destruct (isHeader h a); [by apply IH|].
    destruct (writeAttr fuel e ([] : buffer) a (groupPrefix h)) as [[e1 sp]|] eqn:Ew;
      [|done].
    apply writeAttr_enc in Ew as [c1 ->].
    destruct (spans fuel h (addCalls e c1) attrs) as [[e2 sps2]|] eqn:E2; [|done].
    intros [= <- <-]. apply IH in E2 as [c2 ->].
    exists (c1 ++ c2). by rewrite addCalls_app.
Qed.

(** The body and the trailer the sections end with: the body is the message,
    then the context as it is, then the single-line spans. *)
Lemma sections_spec_buffers fuel enc h sl cx rec e' hb mb tb :
  sections_spec fuel enc h sl cx rec = Some (e', hb, mb, tb) ->
  exists msg sps e1 e2,
    spans fuel h e1 (RAttrs rec) = Some (e2, sps) /\
    mb = msg ++ cx ++ concat (List.filter (fun sp => negb (hasNewline sp)) sps) /\
    tb = e_trailerBuf enc ++ concat (List.filter hasNewline sps).
Proof.
  unfold sections_spec.
  destruct (writeTimestamp_enc enc (e_headerBuf enc) (RTime rec)) as [c1 E1].
  destruct (writeTimestamp _ _ _) as [e1 hb1]. simpl in E1. subst e1.
  destruct (writeLevel_enc (addCalls enc c1) hb1 (RLevel rec)) as [c2 E2].
  destruct (writeLevel _ _ _) as [e2 hb2]. simpl in E2. subst e2.
  set (src := if AddSource (opts h) then _ else _).
  assert (exists c, fst src = addCalls enc c) as [c3 E3].
  { unfold src. destruct (AddSource (opts h)).
    - destruct (writeSource_enc (addCalls (addCalls enc c1) c2) hb2 (RPC rec) cwd)
        as [c E].
      rewrite E, !addCalls_app. by eexists.
    - rewrite addCalls_app. by eexists. }
  destruct src as [e3 hb3]. simpl in E3. subst e3.
  destruct (writeMessage_enc (addCalls enc c3) (e_middleBuf (addCalls enc c3))
              (RLevel rec) (RMessage rec)) as [c4 E4].
  destruct (writeMessage _ _ _ _) as [e4 mb1]. simpl in E4. subst e4.
  destruct (spans fuel h _ (RAttrs rec)) as [[e5 sps]|] eqn:Es; [|done].
  destruct (spans_enc _ _ _ _ _ _ Es) as [c5 ->].
  unfold carve.
  destruct (if (0 <? _)%nat then _ else _) as [e6 hb4].
  intros [= <- <- <- <-].
  eexists mb1, sps, _, _. split_and!; try done. by rewrite <- app_assoc.
Qed.

(** C2.  The loop of [Handle] over the attributes of an event, from any body
    and trailer: every attribute that is not a header is rendered to a span
    (the bytes [writeAttr] writes for it); the spans with a line break leave
    the body and are appended, byte for byte and in their order, to the
    trailer, the others stay in the body in their order, and what the body
    held before the loop stays in front.  In [Handle] that is the message
    and the persistent context, which is copied in whole: the body of a line
    is the message, the context as the handler holds it, then the single-line
    spans.  Without a hook the loop ends once the fuel is beyond the depth of
    the attributes. *)
Theorem C2_multiline_spans_move_to_trailer fuel w h e middle trailer attrs :
  world_ok w -> handler_ok w h ->
  e_headers e = e_headers (newEncoder w h).2 ->
  match spans fuel h e attrs with
  | Some (e', sps) =>
      exists st',
        foldlM (Handle_attr fuel h) attrs
          (MkAS (attrs_mem (newEncoder w h).1) (headers h) false e middle trailer)
        = Some st' /\
        as_enc st' = e' /\
        as_middleBuf st'
        = middle ++ concat (List.filter (fun sp => negb (hasNewline sp)) sps) /\
        as_trailerBuf st' = trailer ++ concat (List.filter hasNewline sps)
  | None =>
      foldlM (Handle_attr fuel h) attrs
        (MkAS (attrs_mem (newEncoder w h).1) (headers h) false e middle trailer)
      = None
  end
  /\ (ReplaceAttr (eopts e) = None ->
      Forall (fun a => depth (Val a) < fuel) attrs ->
      is_Some (spans fuel h e attrs))
  /\ forall rec,
       renders_from fuel w h rec (slots w h) (ctx w h) /\
       forall e' hb mb tb,
         sections_spec fuel (newEncoder w h).2 h (slots w h) (ctx w h) rec
         = Some (e', hb, mb, tb) ->
         exists msg sps e1 e2,
           spans fuel h e1 (RAttrs rec) = Some (e2, sps) /\
           mb = msg ++ ctx w h
                ++ concat (List.filter (fun sp => negb (hasNewline sp)) sps) /\
           tb = concat (List.filter hasNewline sps).
Proof.
  intros Hw Hh He. split_and!.
  - destruct Hh as (Hclip & Hwfh & Hph & Hlenh & Hpool).
    pose proof (newEncoder_spec w h) as Hnew.
    destruct (newEncoder w h) as [w1 enc]. simpl in *.
    destruct Hnew as (_ & _ & _ & Hg1 & Hk1 & _ & _ & Henc).
    destruct (Henc Hw) as (_ & _ & _ & _ & Hlen0 & Hwf0 & Hp0).
    destruct (read_keeps _ _ _ _ Hk1 Hwfh (fun _ => I)) as [Hr1 Hwfh1].
    assert (ptr (headers h) < length (attrs_mem w1)) as Hph1 by (destruct Hg1; lia).
    set (st0 := MkAS (attrs_mem w1) (headers h) false e middle trailer).
    assert (loop_inv h (e_headers enc) (attrs_mem w1) st0) as Hinv.
    { unfold loop_inv, st0. simpl.
      split_and!; first [done | apply grows_refl | apply keeps_refl]. }
    pose proof (Handle_loop_spec fuel h (e_headers enc) (attrs_mem w1)
                  Hwf0 Hlen0 Hp0 Hwfh1 Hph1 attrs st0 Hinv) as Hloop.
    change (as_enc st0) with e in Hloop.
    destruct (spans fuel h e attrs) as [[e' sps]|]; [|done].
    destruct Hloop as (st' & Hrun & _ & He' & Hc & _).
    exists st'. unfold carve in Hc. simpl in Hc. injection Hc as Hm Ht.
    by split_and!.
  - intros Hhook Hdepth.
    destruct (spans_total fuel h attrs e Hhook Hdepth) as (e' & sps & -> & _).
    by eexists.
  - intros rec. split; [by apply renders_from_held|].
    intros e' hb mb tb Hsec.
    destruct (sections_spec_buffers _ _ _ _ _ _ _ _ _ _ Hsec)
      as (msg & sps & e1 & e2 & Hsp & Hmb & Htb).
    exists msg, sps, e1, e2. split_and!; try done.
    rewrite Htb.
    pose proof (newEncoder_spec w h) as Hnew. simpl in Hnew.
    destruct Hnew as (_ & _ & _ & _ & _ & _ & _ & Henc).
    destruct (Henc Hw) as (_ & _ & -> & _). done.
Qed.

End CarveOut.

Lemma C2_witness :
  exists st',
    foldlM (Handle_attr (H := demoRuntime) 3 Multiline.h0) Multiline.attrs Multiline.st0
    = Some st' /\
    as_middleBuf st' = bytes_of " a=1 b=2" /\
    as_trailerBuf st' = bytes_of (String.append " m=" Multiline.twoLines).
Proof.
  destruct (C2_multiline_spans_move_to_trailer (H := demoRuntime) 3
              Multiline.w0 Multiline.h0 (newEncoder Multiline.w0 Multiline.h0).2
              [] [] Multiline.attrs
              ltac:(handler_ok_by_computation) ltac:(handler_ok_by_computation)
              eq_refl) as [Hloop _].
  vm_compute in Hloop. destruct Hloop as (st' & Hrun & _ & Hm & Ht).
  exists st'. split; [exact Hrun|]. split; [exact Hm|exact Ht].
Defined.

(** *** The terminator *)

Section Terminator.
Context `{Runtime}.

Lemma WriteTo_ok (b : buffer) (dst : Writer) w :
  (forall b, dst b = (length b, None)) ->
  WriteTo b dst w = (set_sink w (sink w ++ b), None).
Proof. intros Hd. unfold WriteTo. by rewrite Hd, firstn_all. Qed.

Lemma Handle_flush_ok w enc h hb mb tb :
  (forall b, out h b = (length b, None)) ->
  Handle_flush w enc h hb mb tb
  = (free (set_sink w (((sink w ++ hb) ++ mb) ++ tb)) enc, None).
Proof. intros Hd. unfold Handle_flush. by rewrite !WriteTo_ok. Qed.


End Terminator.


(** *** The level field *)

Lemma wrap64_small z : (- 2 ^ 63 <= z < 2 ^ 63)%Z -> wrap64 z = z.
Proof. intros Hz. unfold wrap64. rewrite Z.mod_small; lia. Qed.

Lemma fmt_plus_d_pos z : (0 < z)%Z -> fmt_plus_d z = String.append "+" (decimal z).
Proof. destruct z; try lia. intros _. reflexivity. Qed.

Lemma fmt_plus_d_neg z : (z < 0)%Z -> fmt_plus_d z = String.append "-" (decimal (- z)).
Proof. destruct z; try lia. intros _. reflexivity. Qed.

Lemma level_delta_text (code : string) (anchor l : Z) :
  (if (wrap64 (l - anchor) =? 0)%Z then code
   else String.append code (fmt_plus_d (wrap64 (l - anchor))))
  = (if (l =? anchor)%Z then code
     else if (anchor <? l)%Z
     then String.append code (String.append "+" (decimal (l - anchor)))
     else String.append code (String.append "-" (decimal (anchor - l))))
  \/ ~ (- 2 ^ 63 <= l - anchor < 2 ^ 63)%Z.
Proof.
  destruct (decide (- 2 ^ 63 <= l - anchor < 2 ^ 63)%Z) as [Hr|Hr]; [left|by right].
  rewrite wrap64_small by done.
  destruct (Z.eqb_spec (l - anchor) 0), (Z.eqb_spec l anchor); try lia; [done|].
  destruct (Z.ltb_spec anchor l).
  - by rewrite fmt_plus_d_pos by lia.
  - rewrite fmt_plus_d_neg by lia. do 3 f_equal. lia.
Qed.

(** C5.  With no rewrite hook, the level field of every level (a Go int) is
    the text the specification words, in the style of its anchor, and a
    space: the bare code on an anchor, the code of the nearest anchor at or
    below and the positive offset between anchors and above the highest,
    [DBG] and the negative offset below the lowest. *)
Theorem C5_level_text `{Runtime} {B} `{Buffer B} (e : encoder) (buf : B)
    (l : Slog.Level) :
  ReplaceAttr (eopts e) = None ->
  (- 2 ^ 63 <= l < 2 ^ 63)%Z ->
  writeLevel e buf l
  = (e, AppendByte (writeColoredString e buf (levelText l) (levelStyle (etheme e) l))
          space)
  /\ levelText LevelDebug = "DBG" /\ levelText LevelInfo = "INF"
  /\ levelText LevelWarn = "WRN" /\ levelText LevelError = "ERR"
  /\ levelText (LevelDebug + 1) = "DBG+1" /\ levelText (LevelInfo + 1) = "INF+1"
  /\ levelText (LevelWarn + 1) = "WRN+1" /\ levelText (LevelError + 1) = "ERR+1"
  /\ levelText (LevelDebug - 1) = "DBG-1".
Proof.
  intros Hhook Hl. split; [|by vm_compute].
  unfold writeLevel. rewrite Hhook.
  unfold levelText, levelAnchor, levelStyle, LevelError, LevelWarn, LevelInfo,
    LevelDebug.
  destruct (8 <=? l)%Z eqn:E8; [|destruct (4 <=? l)%Z eqn:E4;
    [|destruct (0 <=? l)%Z eqn:E0; [|destruct (-4 <=? l)%Z eqn:Em4]]];
    match goal with
    | |- context [wrap64 (l - ?a)] =>
        destruct (level_delta_text
                    (match a with
                     | 8 => "ERR" | 4 => "WRN" | 0 => "INF" | _ => "DBG"
                     end)%Z a l) as [->|Hbad]; [done|]
    end;
    exfalso; apply Hbad; lia.
Qed.

Lemma C5_witness :
  writeLevel (H := demoRuntime) (newEncoder Multiline.w0 Multiline.h0).2 ([] : buffer) 1%Z
  = ((newEncoder Multiline.w0 Multiline.h0).2, bytes_of "INF+1 ").
Proof.
  destruct (C5_level_text (H := demoRuntime)
              (newEncoder Multiline.w0 Multiline.h0).2 ([] : buffer) 1%Z
              eq_refl ltac:(lia)) as [Hrun _].
  rewrite Hrun. vm_compute. reflexivity.
Defined.

(** *** The timestamp field *)

(** C7.  A zero timestamp: [writeTimestamp] returns at once, the buffer and
    the encoder (with its record of hook calls) as they were, whatever the
    hook; so the line begins with the level, and in a render with a hook the
    hook is first called on the level, where for another timestamp it is
    first called on the time. *)
Theorem C7_zero_timestamp_is_skipped `{Runtime} {B} `{Buffer B}
    (e : encoder) (buf : B) :
  writeTimestamp e buf 0%Z = (e, buf)
  /\ hookCalls (writeTimestamp e buf 0%Z).1 = hookCalls e
  /\ Hooked.output 0 = String.append "INF foobar size=12" (String "010" "")
  /\ Hooked.hookedKeys 0 = ["level"; "msg"; "size"]
  /\ Hooked.output 5 = String.append "T5 INF foobar size=12" (String "010" "")
  /\ Hooked.hookedKeys 5 = ["time"; "level"; "msg"; "size"].
Proof. split_and!; by vm_compute. Qed.

(** *** Groups with an empty key *)

(** With no hook and no prefix in effect, a group with an empty key is
    rendered as its members are. *)
Lemma empty_key_group_no_prefix `{Runtime} {B} `{Buffer B} fuel (e : encoder)
    (buf : B) (members : list Attr) :
  ReplaceAttr (eopts e) = None ->
  writeAttr (S fuel) e buf (Group "" members) ""
  = foldlM (fun eb a => writeAttr fuel eb.1 eb.2 a "") members (e, buf).
Proof.
  intros Hhook. cbn [writeAttr]. unfold hasHook. rewrite Hhook. simpl.
  rewrite Hhook.
  destruct (foldlM _ members (e, buf)) as [[e' b']|] eqn:Ef; [|done].
  apply (foldlM_enc (fun eb a => writeAttr fuel eb.1 eb.2 a "")) in Ef as [c ->].
  - change (eopts (addCalls e c)) with (eopts e). by rewrite Hhook.
  - intros ? ? ? ? ? Hw. by eapply writeAttr_enc.
Qed.

(** C4, on the code.  Under the prefix [g], the group with the empty key and
    the member [foo=bar] is rendered with the key [g..foo]; the member alone
    is rendered with the key [g.foo]. *)
Theorem C4_empty_key_group_under_prefix :
  let e := (newEncoder Multiline.w0 Multiline.h0).2 in
  snd <$> writeAttr (H := demoRuntime) 3 e ([] : buffer)
            (Group "" [String_ "foo" "bar"]) "g"
  = Some (bytes_of " g..foo=bar")
  /\ snd <$> foldlM (fun eb a => writeAttr (H := demoRuntime) 3 eb.1 eb.2 a "g")
               [String_ "foo" "bar"] (e, ([] : buffer))
     = Some (bytes_of " g.foo=bar").
Proof. split; by vm_compute. Qed.

(** *** The encoder and the pool *)

(** C6, on the code.  A flush in which a write fails leaves the pool as it
    was: the encoder [Handle] took is not put back.  With a sink that fails
    every write, [Handle] returns the error of the sink and the pool stays
    empty; with a sink that takes the bytes, the encoder is in the pool after
    the call. *)
Theorem C6_failed_flush_keeps_the_encoder :
  (forall w enc h hb mb tb,
     (Handle_flush w enc h hb mb tb).2 <> None ->
     pool (Handle_flush w enc h hb mb tb).1 = pool w)
  /\ (let w := (NewHandler (H := demoRuntime) emptyWorld failingWriter None).1 in
      let h := (NewHandler (H := demoRuntime) emptyWorld failingWriter None).2 in
      exists w', Handle (H := demoRuntime) 3 w h (MkRecord 5 "foobar" 0 0 [])
                 = Some (w', Some "nope")
                 /\ pool w = [] /\ pool w' = [])
  /\ (let w := (NewHandler (H := demoRuntime) emptyWorld okWriter None).1 in
      let h := (NewHandler (H := demoRuntime) emptyWorld okWriter None).2 in
      exists w', Handle (H := demoRuntime) 3 w h (MkRecord 5 "foobar" 0 0 [])
                 = Some (w', None)
                 /\ pool w = [] /\ length (pool w') = 1).
Proof.
  split_and!.
  - intros w enc h hb mb tb. apply Handle_flush_spec.
  - eexists. split_and!; by vm_compute.
  - eexists. split_and!; by vm_compute.
Qed.

(** *** Header slots *)

Section HeaderSlots.
Context `{Runtime}.

Lemma IndexFunc_Some_iff {A} (l : list A) (f : A -> bool) :
  is_Some (IndexFunc l f) <-> exists x, x ∈ l /\ f x = true.
Proof.
  induction l as [|y l IH]; simpl.
  - split; [by intros []|]. intros (x & Hx & _). by apply elem_of_nil in Hx.
  - destruct (f y) eqn:Ey.
    + split; [|by eexists]. intros _. exists y. split; [by left|done].
    + rewrite fmap_is_Some, IH. split.
      * intros (x & Hx & Hf). exists x. split; [by right|done].
      * intros (x & Hx & Hf). apply elem_of_cons in Hx as [->|Hx]; [congruence|].
        by exists x.
Qed.

(** An attribute is a header when its key is one of the configured keys. *)
Lemma isHeader_spec h a : isHeader h a = true <-> Key a ∈ Headers (opts h).
Proof.
  unfold isHeader, headerIndex.
  destruct (IndexFunc _ _) as [i|] eqn:Ei.
  - split; [intros _|done].
    destruct (proj1 (IndexFunc_Some_iff _ _) (mk_is_Some _ _ Ei)) as (x & Hx & Hf).
    apply String.eqb_eq in Hf. by subst.
  - split; [done|]. intros Hin. exfalso.
    assert (is_Some (IndexFunc (Headers (opts h)) (fun s => String.eqb s (Key a))))
      as [? ?]; [|congruence].
    apply IndexFunc_Some_iff. exists (Key a). split; [done|apply String.eqb_refl].
Qed.

(** C10.  [WithAttrs] on a handler of the package: [extractHeaders] returns,
    and the caller's slice is then, entry by entry, what it was, except that
    each entry whose key is a configured header key is the zero [Attr]. *)
Theorem C10_callers_slice_is_cleared fuel w h attrs :
  handler_ok w h ->
  (exists mem' hs,
     extractHeaders (attrs_mem w) h attrs = Some (mem', hs, map (cleared h) attrs)) /\
  (forall w' h' attrs',
     WithAttrs fuel w h attrs = Some (w', h', attrs') -> attrs' = map (cleared h) attrs) /\
  length (map (cleared h) attrs) = length attrs /\
  (forall i a, attrs !! i = Some a ->
     map (cleared h) attrs !! i = Some (if isHeader h a then zeroAttr else a)) /\
  (forall a, isHeader h a = true <-> Key a ∈ Headers (opts h)).
Proof.
  intros (_ & Hwfh & Hph & Hlenh & _).
  destruct (extractHeaders_spec (attrs_mem w) h attrs Hwfh Hph Hlenh)
    as (mem' & hs & Hex & _).
  split_and!.
  - by exists mem', hs.
  - intros w' h' attrs' Hrun. unfold WithAttrs in Hrun. rewrite Hex in Hrun.
    destruct (newEncoder _ _) as [w2 enc].
    destruct (foldlM _ _ _) as [[e1 [bmem c]]|]; [|done]. by injection Hrun as _ _ <-.
  - apply length_map.
  - intros i a Hi. by rewrite list_lookup_fmap, Hi.
  - intros a. apply isHeader_spec.
Qed.

End HeaderSlots.

Lemma C10_witness :
  map (cleared Headers.h0) [String_ "foo" "hdr"; String_ "a" "b"] !! 0
  = Some zeroAttr.
Proof.
  destruct (C10_callers_slice_is_cleared (H := demoRuntime) 3 Headers.w0 Headers.h0
              [String_ "foo" "hdr"; String_ "a" "b"]
              ltac:(handler_ok_by_computation)) as (_ & _ & _ & Hentry & _).
  exact (Hentry 0 (String_ "foo" "hdr") eq_refl).
Defined.

Section HeaderValues.
Context `{Runtime}.

(** A slot no attribute of the list is for is as it was. *)
Lemma overlay_untouched h attrs idx : forall sl,
  (forall a, a ∈ attrs -> headerIndex h a <> Some idx) ->
  overlay h sl attrs !! idx = sl !! idx.
Proof.
  induction attrs as [|a attrs IH]; intros sl Hno; [done|].
  rewrite overlay_cons, IH.
  - destruct (headerIndex h a) as [j|] eqn:Ej; [|done].
    apply list_lookup_insert_ne. intros ->. eapply Hno; [by left|done].
  - intros a' Ha'. apply Hno. by right.
Qed.

(** The last attribute for a slot is the one the slot holds. *)
Lemma overlay_last h before a after idx sl :
  headerIndex h a = Some idx -> idx < length sl ->
  (forall a', a' ∈ after -> headerIndex h a' <> Some idx) ->
  overlay h sl (before ++ a :: after) !! idx = Some a.
Proof.
  intros Ha Hidx Hno. unfold overlay. rewrite fold_left_app. simpl.
  fold (overlay h sl before). rewrite Ha.
  fold (overlay h (<[idx := a]> (overlay h sl before)) after).
  rewrite overlay_untouched by done.
  apply list_lookup_insert_eq. by rewrite length_overlay.
Qed.

(** The header zone of a line is [writeHeaders] on the slots with the event's
    own header attributes laid over them, and the divider if anything was
    written after the level. *)
Lemma sections_spec_header fuel enc h sl cx rec e' hb mb tb :
  sections_spec fuel enc h sl cx rec = Some (e', hb, mb, tb) ->
  exists e0 hb0,
    hb = (writeHeaders e0 hb0 (overlay h sl (RAttrs rec))).2
    \/ hb = writeHeaderSeparator (writeHeaders e0 hb0 (overlay h sl (RAttrs rec))).1
              (writeHeaders e0 hb0 (overlay h sl (RAttrs rec))).2.
Proof.
  unfold sections_spec.
  destruct (writeTimestamp _ _ _) as [e1 hb1].
  destruct (writeLevel _ _ _) as [e2 hb2].
  destruct (if AddSource (opts h) then _ else _) as [e3 hb3].
  destruct (writeMessage _ _ _ _) as [e4 mb1].
  destruct (spans fuel h e4 (RAttrs rec)) as [[e5 sps]|]; [|done].
  destruct (carve _ _ _) as [mb' tb'].
  assert (Hhd : (if (0 <? length (overlay h sl (RAttrs rec)))%nat
                 then writeHeaders e5 hb3 (overlay h sl (RAttrs rec))
                 else (e5, hb3))
                = writeHeaders e5 hb3 (overlay h sl (RAttrs rec))).
  { destruct (overlay h sl (RAttrs rec)); done. }
  rewrite Hhd.
  destruct (writeHeaders e5 hb3 _) as [e6 hb4] eqn:Ewh.
  intros [= <- <- <- <-]. exists e5, hb3. rewrite Ewh. simpl.
  destruct (length hb2 <? length hb4)%nat; auto.
Qed.

(** C3, as the code has it.  A header value in the attributes of an event is
    laid over the slots for the header zone of that render, and the slots of
    the handler are what they were after it, in every later world.  A header
    value bound by [WithAttrs] is in the slots of the derived handler in every
    later world, and in those of a handler derived from it by [WithGroup];
    a further [WithAttrs] lays its own attributes over these slots, so the
    value stays unless that derivation binds the same key.  Of several
    attributes for one slot the last is the value, and a slot none is for is
    untouched. *)
Theorem C3_header_values fuel w h :
  world_ok w -> handler_ok w h ->
  (forall rec,
     renders_from fuel w h rec (slots w h) (ctx w h) /\
     (forall e' hb mb tb,
        sections_spec fuel (newEncoder w h).2 h (slots w h) (ctx w h) rec
        = Some (e', hb, mb, tb) ->
        exists e0 hb0,
          hb = (writeHeaders e0 hb0 (overlay h (slots w h) (RAttrs rec))).2
          \/ hb = writeHeaderSeparator
                    (writeHeaders e0 hb0 (overlay h (slots w h) (RAttrs rec))).1
                    (writeHeaders e0 hb0 (overlay h (slots w h) (RAttrs rec))).2) /\
     (forall w1 err w2,
        Handle fuel w h rec = Some (w1, err) -> rtc step w1 w2 ->
        world_ok w2 /\ handler_ok w2 h /\ slots w2 h = slots w h)) /\
  (forall attrs w1 h1 r w2,
     WithAttrs fuel w h attrs = Some (w1, h1, r) -> rtc step w1 w2 ->
     world_ok w2 /\ handler_ok w2 h1 /\
     slots w2 h1 = overlay h (slots w h) attrs /\
     (forall name,
        handler_ok w2 (WithGroup h1 name) /\
        slots w2 (WithGroup h1 name) = slots w2 h1) /\
     (forall fuel2 attrs2 w3 h2 r2,
        WithAttrs fuel2 w2 h1 attrs2 = Some (w3, h2, r2) ->
        slots w3 h2 = overlay h1 (slots w2 h1) attrs2)) /\
  (forall sl attrs idx,
     (forall a, a ∈ attrs -> headerIndex h a <> Some idx) ->
     overlay h sl attrs !! idx = sl !! idx) /\
  (forall sl before a after idx,
     headerIndex h a = Some idx -> idx < length sl ->
     (forall a', a' ∈ after -> headerIndex h a' <> Some idx) ->
     overlay h sl (before ++ a :: after) !! idx = Some a).
Proof.
  intros Hw Hh. split_and!.
  - intros rec. split_and!.
    + by apply renders_from_held.
    + intros e' hb mb tb Hsec. by eapply sections_spec_header.
    + intros w1 err w2 Hrun Hsteps.
      destruct (Handle_frame fuel w h rec w1 err Hw Hh Hrun) as (Hw1 & _ & _ & Hf1).
      destruct (Hf1 h Hh) as (Hh1 & _ & Hs1).
      destruct (steps_frame w1 w2 Hw1 Hsteps) as [Hw2 Hf2].
      destruct (Hf2 h Hh1) as (Hh2 & _ & Hs2).
      split_and!; [done|done|congruence].
  - intros attrs w1 h1 r w2 Hrun Hsteps.
    pose proof (WithAttrs_spec fuel w h attrs Hw Hh) as Hspec.
    destruct (WithAttrs_rendered fuel w h attrs) as [b|]; [|congruence].
    destruct Hspec as (w1' & h1' & Hrun' & Hw1 & Hh1 & _ & _ & _ & _ & _ & _ & _
                       & Hs1 & _).
    rewrite Hrun' in Hrun. injection Hrun as -> -> _.
    destruct (steps_frame w1 w2 Hw1 Hsteps) as [Hw2 Hf2].
    destruct (Hf2 h1 Hh1) as (Hh2 & _ & Hs2).
    split_and!; [done|done|congruence|done|].
    intros fuel2 attrs2 w3 h2 r2 Hrun2.
    pose proof (WithAttrs_spec fuel2 w2 h1 attrs2 Hw2 Hh2) as Hspec2.
    destruct (WithAttrs_rendered fuel2 w2 h1 attrs2) as [b2|]; [|congruence].
    destruct Hspec2 as (w3' & h2' & Hrun2' & _ & _ & _ & _ & _ & _ & _ & _ & _
                        & Hs3 & _).
    rewrite Hrun2' in Hrun2. by injection Hrun2 as -> -> _.
  - intros sl attrs idx. apply overlay_untouched.
  - intros sl before a after idx. apply overlay_last.
Qed.

End HeaderValues.

(** C3 as the specification states it fails: [h3] is a descendant of [h2],
    and its lines show [buz], the value it bound itself; the value [baz] that
    [h2] bound is in no slot of [h3].  A line of [h2] itself shows [biz] and
    not [baz] when the event brings [foo=biz]. *)
Lemma C3_counterexample :
  slots Rebinding.w3 Rebinding.h2 = [String_ "foo" "baz"; zeroAttr]
  /\ Headers.line Rebinding.w3 Rebinding.h2 []
     = String.append "INF baz > with headers" (String "010" "")
  /\ slots Rebinding.w3 Rebinding.h3 = [String_ "foo" "buz"; zeroAttr]
  /\ Headers.line Rebinding.w3 Rebinding.h3 []
     = String.append "INF buz > with headers" (String "010" "")
  /\ ~ (String_ "foo" "baz" ∈ slots Rebinding.w3 Rebinding.h3)
  /\ Headers.line Rebinding.w3 Rebinding.h2 [String_ "foo" "biz"]
     = String.append "INF biz > with headers" (String "010" "").
Proof.
  split_and!; try (vm_compute; reflexivity).
  vm_compute. intros Hin. repeat (apply elem_of_cons in Hin as [Hin|Hin]; [done|]).
  by apply elem_of_nil in Hin.
Qed.

Lemma C3_witness :
  slots (Headers.render Rebinding.w2 Rebinding.h2 [String_ "foo" "biz"]) Rebinding.h2
  = slots Rebinding.w2 Rebinding.h2.
Proof.
  destruct (C3_header_values (H := demoRuntime) 3
              (set_sink Rebinding.w2 []) Rebinding.h2
              ltac:(handler_ok_by_computation) ltac:(handler_ok_by_computation))
    as (Hevent & _).
  destruct (Hevent (MkRecord 0 "with headers" 0 0 [String_ "foo" "biz"]))
    as (_ & _ & Hlater).
  exact (proj2 (proj2 (Hlater (Headers.render Rebinding.w2 Rebinding.h2
                                 [String_ "foo" "biz"])
                         None _ ltac:(vm_compute; reflexivity) (rtc_refl _ _)))).
Defined.

Section Plain.
Context `{Runtime}.

Lemma withColor_plain e (b : buffer) c f :
  NoColor (eopts e) = true -> withColor e b c f = f b.
Proof. intros Hn. unfold withColor. by rewrite Hn, orb_true_r. Qed.

Lemma writeTimestamp_plain e (b : buffer) t :
  plain e -> exists x, writeTimestamp e b t = (e, b ++ x).
Proof.
  intros [Hh Hn]. unfold writeTimestamp. rewrite Hh.
  destruct (IsZero t).
  - exists []. by rewrite app_nil_r.
  - unfold writeColoredTime. rewrite withColor_plain by done.
    unfold AppendByte, Append, buffer_Buffer. rewrite <- app_assoc. by eexists.
Qed.

Lemma writeLevel_plain e (b : buffer) l :
  plain e -> exists x, writeLevel e b l = (e, b ++ x).
Proof.
  intros [Hh Hn]. unfold writeLevel. rewrite Hh.
  repeat destruct (_ <=? _)%Z; unfold writeColoredString;
    rewrite withColor_plain by done;
    unfold AppendString, AppendByte, Append, buffer_Buffer;
    rewrite <- app_assoc; by eexists.
Qed.

Lemma writeSource_plain e (b : buffer) pc d :
  plain e -> exists x, writeSource e b pc d = (e, b ++ x).
Proof.
  intros [Hh Hn]. unfold writeSource. rewrite Hh. unfold writeSourceFields.
  destruct (_ && _).
  - exists []. by rewrite app_nil_r.
  - rewrite withColor_plain by done.
    unfold AppendString, AppendByte, Append, buffer_Buffer.
    rewrite <- !app_assoc. by eexists.
Qed.

Lemma writeMessage_plain e (b : buffer) l m :
  plain e -> writeMessage e b l m = (e, b ++ bytes_of m).
Proof.
  intros [Hh Hn]. unfold writeMessage. rewrite Hh. unfold writeColoredString.
  by rewrite withColor_plain.
Qed.

(** A string attribute, outside any group, is [ key=value]. *)
Lemma writeAttr_plain_string fuel e (b : buffer) k v :
  plain e -> k <> "" ->
  writeAttr (S fuel) e b (String_ k v) ""
  = Some (e, b ++ bytes_of " " ++ bytes_of k ++ bytes_of "=" ++ bytes_of v).
Proof.
  intros [Hh Hn] Hk. cbn [writeAttr]. rewrite Hh. simpl.
  destruct k as [|c k]; [done|]. simpl.
  unfold writeColoredValue, writeColoredString. rewrite !withColor_plain by done.
  unfold AppendString, AppendByte, Append, buffer_Buffer. simpl.
  by rewrite <- !app_assoc.
Qed.

Lemma writeHeaderSeparator_plain e (b : buffer) :
  plain e -> writeHeaderSeparator e b = b ++ bytes_of "> ".
Proof.
  intros [Hh Hn]. unfold writeHeaderSeparator, writeColoredString.
  by rewrite withColor_plain.
Qed.

(** The slots of the example: nothing for the empty one, the value and a
    space for the other. *)
Lemma writeHeaders_example e (b : buffer) k v :
  plain e ->
  writeHeaders e b [zeroAttr; String_ k v] = (e, b ++ bytes_of v ++ bytes_of " ").
Proof.
  intros [Hh Hn]. unfold writeHeaders. cbn [fold_left]. unfold writeHeader.
  rewrite Hh. cbn -[withColor]. rewrite Hh. cbn -[withColor].
  unfold writeColoredString. rewrite withColor_plain by done.
  unfold AppendString, AppendByte, Append, buffer_Buffer.
  by rewrite <- app_assoc.
Qed.

(** C8.  A handler with the header keys [foo] and [bar], no value held for
    [foo], no hook, no colours and no group; an event with [bar=baz] and
    [baz=foo].  The header section is the prefix (time, level, source), then
    [baz] and a space for the slot of [bar], nothing for the slot of [foo],
    then the divider; the body is the message, the context and [ baz=foo]
    with no [bar] in it; the trailer is empty, and a sink that takes what it
    is given receives these followed by the line break. *)
Theorem C8_header_example fuel w h rec held :
  world_ok w -> handler_ok w h ->
  Headers (opts h) = ["foo"; "bar"] -> slots w h = [zeroAttr; held] ->
  ReplaceAttr (opts h) = None -> NoColor (opts h) = true -> groupPrefix h = "" ->
  RAttrs rec = [String_ "bar" "baz"; String_ "baz" "foo"] ->
  (forall b, out h b = (length b, None)) ->
  let enc := (newEncoder w h).2 in
  let pre := headerPrefix enc h rec in
  overlay h (slots w h) (RAttrs rec) = [zeroAttr; String_ "bar" "baz"] /\
  spans (S fuel) h enc (RAttrs rec) = Some (enc, [bytes_of " baz=foo"]) /\
  sections_spec (S fuel) enc h (slots w h) (ctx w h) rec
  = Some (enc, pre ++ bytes_of "baz " ++ bytes_of "> ",
          bytes_of (RMessage rec) ++ ctx w h ++ bytes_of " baz=foo", []) /\
  exists w',
    Handle (S fuel) w h rec = Some (w', None) /\
    sink w' = sink w ++ pre ++ bytes_of "baz > " ++ bytes_of (RMessage rec)
                ++ ctx w h ++ bytes_of " baz=foo" ++ [newline].
Proof.
  intros Hw Hh Hkeys Hsl Hhook Hnc Hgp Hattrs Hout enc pre.
  pose proof (newEncoder_spec w h) as Hnew. simpl in Hnew.
  destruct Hnew as (_ & Hs1 & _ & _ & _ & Heh & _ & Hfresh).
  destruct (Hfresh Hw) as (Ehb & Emb & Etb & _).
  fold enc in Heh, Ehb, Emb, Etb.
  assert (Hplain : plain enc).
  { unfold plain, eopts. by rewrite Heh. }
  assert (Hov : overlay h (slots w h) (RAttrs rec) = [zeroAttr; String_ "bar" "baz"]).
  { rewrite Hsl, Hattrs. unfold overlay, headerIndex. by rewrite Hkeys. }
  assert (Hsp : spans (S fuel) h enc (RAttrs rec) = Some (enc, [bytes_of " baz=foo"])).
  { rewrite Hattrs. cbn [spans]. unfold isHeader, headerIndex. rewrite Hkeys, Hgp.
    simpl IndexFunc. cbv iota beta.
    by rewrite (writeAttr_plain_string fuel enc [] "baz" "foo" Hplain). }
  assert (Hsec : sections_spec (S fuel) enc h (slots w h) (ctx w h) rec
                 = Some (enc, pre ++ bytes_of "baz " ++ bytes_of "> ",
                         bytes_of (RMessage rec) ++ ctx w h ++ bytes_of " baz=foo", [])).
  { unfold sections_spec, pre, headerPrefix. rewrite Ehb.
    destruct (writeTimestamp_plain enc [] (RTime rec) Hplain) as [x1 ->].
    destruct (writeLevel_plain enc ([] ++ x1) (RLevel rec) Hplain) as [x2 ->].
    destruct (AddSource (opts h)).
    1: destruct (writeSource_plain enc (([] ++ x1) ++ x2) (RPC rec) cwd Hplain)
         as [x3 Hx3]; rewrite !Hx3; cbn [snd].
    all: rewrite Emb, writeMessage_plain by done.
    all: rewrite Hsp, Hov, Etb; unfold carve; simpl List.filter.
    all: rewrite writeHeaders_example by done.
    all: repeat match goal with
         | |- context [(?a <? ?b)%nat] =>
             replace (a <? b)%nat with true
               by (symmetry; apply Nat.ltb_lt; rewrite ?length_app; simpl; lia)
         end.
    all: rewrite writeHeaderSeparator_plain by done.
    all: simpl; by rewrite ?app_nil_r, <- ?app_assoc.
  }
  split_and!; [done..|].
  pose proof (Handle_spec (S fuel) w h rec Hw Hh) as Hspec. simpl in Hspec.
  fold enc in Hspec. rewrite Hsec in Hspec. destruct Hspec as (mem' & -> & _).
  unfold Handle_terminate, NewLine, AppendByte, Append, buffer_Buffer.
  cbn [length Nat.eqb fst snd]. rewrite Handle_flush_ok by done.
  eexists. split; [done|]. unfold free. simpl. rewrite Hs1.
  by rewrite <- !app_assoc.
Qed.
End Plain.

Lemma C8_witness :
  exists w',
    Handle (H := demoRuntime) 3 Headers.w0 Headers.h0
      (MkRecord 0 "with headers" 0 0 [String_ "bar" "baz"; String_ "baz" "foo"])
    = Some (w', None) /\
    sink w' = bytes_of (String.append "INF baz > with headers baz=foo"
                          (String "010" "")).
Proof.
  destruct (C8_header_example (H := demoRuntime) 2 Headers.w0 Headers.h0
              (MkRecord 0 "with headers" 0 0
                 [String_ "bar" "baz"; String_ "baz" "foo"]) zeroAttr
              ltac:(handler_ok_by_computation) ltac:(handler_ok_by_computation)
              ltac:(vm_compute; reflexivity) ltac:(vm_compute; reflexivity)
              ltac:(vm_compute; reflexivity) ltac:(vm_compute; reflexivity)
              ltac:(vm_compute; reflexivity) ltac:(vm_compute; reflexivity)
              (fun b => eq_refl))
    as (_ & _ & _ & w' & Hrun & Hsink).
  exists w'. split; [exact Hrun|]. vm_compute in Hsink. exact Hsink.
Defined.

(** ** Further properties of the encoder and the handler *)

Section AttrWriter.
Context `{Runtime}.

(** X1.  [writeAttr] only appends: whatever the hook, the buffer after the
    call is the buffer before it followed by the span the same call writes on
    an empty buffer, and the encoder is as before (handler, buffers, group
    chain) but for the record of the hook calls. *)
Theorem X1_writeAttr_only_appends fuel e (pre : buffer) a g e' b' :
  writeAttr fuel e pre a g = Some (e', b') ->
  exists span calls,
    b' = pre ++ span /\
    writeAttr fuel e ([] : buffer) a g = Some (e', span) /\
    e' = addCalls e calls /\
    e_groups e' = e_groups e /\ e_h e' = e_h e.
Proof.
  intros Hrun. destruct (writeAttr_enc _ _ _ _ _ _ _ Hrun) as [calls ->].
  rewrite writeAttr_span in Hrun.
  destruct (writeAttr fuel e ([] : buffer) a g) as [[e1 span]|]; [|done].
  injection Hrun as He <-. exists span, calls. by rewrite He.
Qed.

Lemma resolveLoop_kind n orig v :
  kind (resolveLoop n orig v) <> KindLogValuer.
Proof.
  revert v. induction n as [|n IH]; intros v; simpl; [done|].
  destruct v; simpl; done.
Qed.

Lemma Resolve_kind v : kind (Resolve v) <> KindLogValuer.
Proof. apply resolveLoop_kind. Qed.

Lemma hookCall_ok_weaken gs k c : hookCall_ok (gs ++ [k]) c -> hookCall_ok gs c.
Proof.
  intros (Hg & Hk & Hp). split_and!; [done..|].
  etrans; [|exact Hp]. by apply prefix_app_r.
Qed.

Lemma foldlM_calls {B A} (gs : list string)
    (f : encoder * B -> A -> option (encoder * B)) l :
  (forall e b x e' b', e_groups e = gs -> f (e, b) x = Some (e', b') ->
     exists c, e' = addCalls e c /\ Forall (hookCall_ok gs) c) ->
  forall e b e' b', e_groups e = gs -> foldlM f l (e, b) = Some (e', b') ->
    exists c, e' = addCalls e c /\ Forall (hookCall_ok gs) c.
Proof.
  intros Hf. induction l as [|x l IH]; intros e b e' b' He Hl; simpl in Hl.
  - simplify_eq. exists []. by rewrite addCalls_nil.
  - destruct (f (e, b) x) as [[e1 b1]|] eqn:E; [|done].
    apply Hf in E as (c1 & -> & Hc1); [|done].
    apply IH in Hl as (c2 & -> & Hc2); [|done].
    exists (c1 ++ c2). rewrite addCalls_app. split; [done|]. by apply Forall_app.
Qed.

Lemma writeAttr_calls {B} `{Buffer B} fuel : forall e (b : B) a g e' b',
  writeAttr fuel e b a g = Some (e', b') ->
  exists c, e' = addCalls e c /\ Forall (hookCall_ok (e_groups e)) c.
Proof.
  induction fuel as [|fuel IH]; intros e b a g e' b'; cbn [writeAttr]; [done|].
  set (a0 := MkAttr (Key a) (Resolve (Val a))).
  set (pre := match ReplaceAttr (eopts e) with Some f => _ | None => _ end).
  assert (exists c, fst pre = addCalls e c /\ Forall (hookCall_ok (e_groups e)) c)
    as (c0 & Hc0 & Hok0).
  { unfold pre. destruct (ReplaceAttr (eopts e)) as [f|];
      [destruct (negb (isGroup (Val a0))) eqn:Eg|].
    - exists [(e_groups e, a0)]. split; [apply replaceAndResolve_enc|].
      constructor; [|done]. split_and!; simpl.
      + by apply negb_true_iff.
      + apply Resolve_kind.
      + done.
    - exists []. by rewrite addCalls_nil.
    - exists []. by rewrite addCalls_nil. }
  destruct pre as [e1 a1]. simpl in Hc0. subst e1.
  destruct (isZeroAttr a1); [intros; simplify_eq; by eexists|].
  destruct (Val a1) eqn:Ev; try (intros; simplify_eq; by eexists).
  rewrite hasHook_addCalls.
  set (G := if String.eqb g "" then Key a1 else _).
  match goal with
  | |- context [foldlM ?f attrs ?s] => destruct (foldlM f attrs s) as [[e2 b2]|] eqn:Ef
  end; [|done].
  intros [= <- <-].
  destruct (hasHook e) eqn:Eh.
  - apply (foldlM_calls (e_groups e ++ [Key a1])
             (fun eb attr => writeAttr fuel eb.1 eb.2 attr G)) in Ef as (c & -> & Hc);
      [| |done].
    2: { intros e3 b3 x e4 b4 He3 Hw. destruct (IH _ _ _ _ _ _ Hw) as (c & -> & Hc).
         exists c. split; [done|]. by rewrite <- He3. }
    match goal with
    | |- context [hasHook ?x] => change (hasHook x) with (hasHook e)
    end.
    rewrite Eh.
    exists (c0 ++ c). unfold set_groups, addCalls. simpl.
    rewrite length_app. simpl.
    replace (length (e_groups e) + 1 - 1) with (length (e_groups e)) by lia.
    rewrite take_app_length. rewrite app_assoc. split; [done|].
    apply Forall_app. split; [done|].
    eapply Forall_impl; [exact Hc|]. intros x. apply hookCall_ok_weaken.
  - apply (foldlM_calls (e_groups e)
             (fun eb attr => writeAttr fuel eb.1 eb.2 attr G)) in Ef as (c & -> & Hc);
      [| |done].
    2: { intros e3 b3 x e4 b4 He3 Hw. destruct (IH _ _ _ _ _ _ Hw) as (c & -> & Hc).
         exists c. split; [done|]. by rewrite <- He3. }
    match goal with
    | |- context [hasHook ?x] => change (hasHook x) with (hasHook e)
    end.
    rewrite Eh.
    exists (c0 ++ c). rewrite addCalls_app. split; [done|]. by apply Forall_app.
Qed.

(** X2.  What [writeAttr] calls the hook on: never a group, never a
    [LogValuer] that was not resolved, and always with a group chain that
    begins with the chain of the encoder; the calls are all the encoder has
    recorded beyond those it had. *)
Theorem X2_hook_arguments fuel e (b : buffer) a g e' b' :
  writeAttr fuel e b a g = Some (e', b') ->
  exists calls,
    hookCalls e' = hookCalls e ++ calls /\
    Forall (hookCall_ok (e_groups e)) calls.
Proof.
  intros Hrun. destruct (writeAttr_calls _ _ _ _ _ _ _ Hrun) as (c & -> & Hc).
  by exists c.
Qed.

End AttrWriter.

Lemma X1_witness :
  exists span calls,
    bytes_of "x a=1" = bytes_of "x" ++ span /\
    writeAttr (H := demoRuntime) 3 (newEncoder Multiline.w0 Multiline.h0).2
      ([] : buffer) (String_ "a" "1") ""
    = Some ((newEncoder Multiline.w0 Multiline.h0).2, span) /\
    (newEncoder Multiline.w0 Multiline.h0).2
    = addCalls (newEncoder Multiline.w0 Multiline.h0).2 calls /\
    e_groups (newEncoder Multiline.w0 Multiline.h0).2
    = e_groups (newEncoder Multiline.w0 Multiline.h0).2 /\
    e_h (newEncoder Multiline.w0 Multiline.h0).2
    = e_h (newEncoder Multiline.w0 Multiline.h0).2.
Proof.
  apply (X1_writeAttr_only_appends (H := demoRuntime) 3
           (newEncoder Multiline.w0 Multiline.h0).2 (bytes_of "x")
           (String_ "a" "1") "").
  vm_compute. reflexivity.
Defined.

Lemma X2_witness :
  exists calls,
    [(["l1"], String_ "flavor" "vanilla")]
    = hookCalls (newEncoder Hooked.w0 Hooked.h0).2 ++ calls /\
    Forall (hookCall_ok (e_groups (newEncoder Hooked.w0 Hooked.h0).2)) calls.
Proof.
  apply (X2_hook_arguments (H := demoRuntime) 3
           (newEncoder Hooked.w0 Hooked.h0).2 []
           (Group "l1" [String_ "flavor" "vanilla"]) ""
           (addCalls (newEncoder Hooked.w0 Hooked.h0).2
              [(["l1"], String_ "flavor" "vanilla")])
           (bytes_of " l1.flavor=vanilla")).
  vm_compute. reflexivity.
Defined.

Section Groups.
Context `{Runtime}.

Lemma writeAttr_nohook {B} `{Buffer B} fuel e (b : B) a g e' b' :
  ReplaceAttr (eopts e) = None ->
  writeAttr fuel e b a g = Some (e', b') -> e' = e.
Proof.
  revert e b a g e' b'.
  induction fuel as [|fuel IH]; intros e b a g e' b' He; cbn [writeAttr]; [done|].
  rewrite He. unfold hasHook. rewrite He.
  destruct (isZeroAttr _); [by intros [= <- <-]|].
  destruct (Val _) eqn:Ev; try (by intros [= <- <-]).
  match goal with
  | |- context [foldlM ?f attrs ?s] => destruct (foldlM f attrs s) as [[e2 b2]|] eqn:Ef
  end; [|done].
  assert (e2 = e) as ->.
  { clear Ev. revert b Ef. induction attrs as [|x l IHl]; intros b Ef; simpl in Ef.
    - by injection Ef as <- <-.
    - destruct (writeAttr fuel e b x _) as [[e1 b1]|] eqn:E1; [|done].
      simpl in Ef. apply IH in E1 as ->; [|done]. by eapply IHl. }
  rewrite He. by intros [= <- <-].
Qed.

(** What a leaf writes begins with the separating space. *)
Lemma leaf_written e (b : buffer) (f : buffer -> buffer) v c style :
  (forall x d, f (x ++ d) = x ++ f d) ->
  exists t,
    writeColoredValue e (withColor e (AppendByte b space) c f) v style
    = b ++ space :: t.
Proof.
  intros Hf.
  set (R := fun (b1 b2 : buffer) => exists t, b1 = b ++ space :: t).
  assert (R_Append : forall b1 b2 d, R b1 b2 -> R (Append b1 d) (Append b2 d)).
  { intros b1 b2 d [t ->]. exists (t ++ d).
    unfold Append, buffer_Buffer. by rewrite <- app_assoc. }
  apply (writeColoredValue_rel R R_Append e _ ([] : buffer)).
  apply (withColor_rel R R_Append e _ ([] : buffer) c f f).
  - intros x1 x2 [t ->]. exists (f t).
    replace (b ++ space :: t) with ((b ++ [space]) ++ t) by by rewrite <- app_assoc.
    rewrite Hf. by rewrite <- app_assoc.
  - exists []. done.
Qed.

Lemma writeAttr_elides fuel : forall e (b : buffer) a g e' b',
  ReplaceAttr (eopts e) = None ->
  writeAttr fuel e b a g = Some (e', b') ->
  exists span, b' = b ++ span /\ (span = [] <-> elides a).
Proof.
  induction fuel as [|fuel IH]; intros e b a g e' b' He; cbn [writeAttr]; [done|].
  rewrite He. unfold hasHook. rewrite He. cbn [Key Val].
  destruct (isZeroAttr _) eqn:Ez.
  { intros [= <- <-]. exists []. rewrite app_nil_r. split; [done|].
    split; [|done]. intros _. unfold isZeroAttr in Ez. simpl in Ez.
    apply andb_true_iff in Ez as [Ek Ev]. apply String.eqb_eq in Ek.
    apply elides_empty; [done|].
    destruct (Resolve (Val a)) as [[]| | | | | | | | |]; done. }
  assert (Hnz : ~ (Key a = "" /\ Resolve (Val a) = zeroValue)).
  { intros [Hk Hv]. unfold isZeroAttr in Ez. simpl in Ez.
    by rewrite Hk, Hv in Ez. }
  assert (Hleaf : forall (f : buffer -> buffer) c style out,
            (forall x d, f (x ++ d) = x ++ f d) ->
            isGroup (Resolve (Val a)) = false ->
            Some (e, writeColoredValue e (withColor e (AppendByte b space) c f)
                       (Resolve (Val a)) style) = Some (e', out) ->
            exists span, out = b ++ span /\ (span = [] <-> elides a)).
  { intros f c style out Hf Hg [= <- <-].
    destruct (leaf_written e b f (Resolve (Val a)) c style Hf) as [t ->].
    exists (space :: t). split; [done|]. split; [done|].
    intros Hel. inversion Hel as [a' Hk Hv|a' ms Hv Hall]; subst a'.
    - by destruct Hnz.
    - by rewrite Hv in Hg. }
  assert (Hf : forall x d : buffer,
            (fun buf : buffer =>
               AppendByte (AppendString (if String.eqb g "" then buf
                                         else AppendByte (AppendString buf g) "."%byte)
                             (Key a)) "="%byte) (x ++ d)
            = x ++ (fun buf : buffer =>
               AppendByte (AppendString (if String.eqb g "" then buf
                                         else AppendByte (AppendString buf g) "."%byte)
                             (Key a)) "="%byte) d).
  { intros x d. unfold AppendByte, AppendString, Append, buffer_Buffer.
    destruct (String.eqb g ""); by rewrite <- ?app_assoc. }
  destruct (Resolve (Val a)) as [any| | | | | | | |members|] eqn:Ev;
    try (by apply Hleaf).
  match goal with
  | |- context [foldlM ?f members ?s] =>
      destruct (foldlM f members s) as [[e2 b2]|] eqn:Ef
  end; [|done].
  intros [= <- <-].
  assert (exists span, b2 = b ++ span /\ (span = [] <-> Forall elides members))
    as (span & -> & Hspan).
  { clear Ev Ez Hnz Hleaf. revert b Ef.
    induction members as [|x l IHl]; intros b Ef; simpl in Ef.
    - injection Ef as <- <-. exists []. by rewrite app_nil_r.
    - destruct (writeAttr fuel e b x _) as [[e1 b1]|] eqn:E1; [|done].
      simpl in Ef. pose proof (writeAttr_nohook _ _ _ _ _ _ _ He E1) as ->.
      apply IH in E1 as (s1 & -> & Hs1); [|done].
      apply IHl in Ef as (s2 & -> & Hs2).
      exists (s1 ++ s2). rewrite app_assoc. split; [done|].
      rewrite Forall_cons, <- Hs1, <- Hs2. split.
      + by intros [-> ->]%app_eq_nil.
      + by intros [-> ->]. }
  exists span. split; [done|]. rewrite Hspan. split.
  - intros Hall. by eapply elides_group.
  - intros Hel. inversion Hel as [a' Hk Hv|a' ms Hv Hall]; subst a'.
    + by rewrite Ev in Hv.
    + rewrite Ev in Hv. by injection Hv as ->.
Qed.

(** X3.  Without a hook, with fuel beyond its depth: an attribute is written
    to the end of the buffer, and it adds no byte exactly when it comes to
    nothing, that is when it has the empty key and the nil value or is a
    group whose members all come to nothing (a group without members among
    them), whatever its key and the prefix in effect. *)
Theorem X3_elided_attributes fuel e (b : buffer) a g :
  ReplaceAttr (eopts e) = None -> depth (Val a) < fuel ->
  exists span,
    writeAttr fuel e b a g = Some (e, b ++ span) /\
    (span = [] <-> elides a).
Proof.
  intros He Hd.
  destruct (writeAttr_total fuel e b a g He Hd) as (e' & b' & Hrun & _).
  pose proof (writeAttr_nohook _ _ _ _ _ _ _ He Hrun) as ->.
  destruct (writeAttr_elides _ _ _ _ _ _ _ He Hrun) as (span & -> & Hspan).
  by exists span.
Qed.

(** X4.  Without a hook, an attribute inside nested groups is written as the
    attribute itself under the prefix the keys of the groups join to, with the
    fuel the groups use up: [Group k1 (Group k2 a)] under [g] is [a] under
    [g.k1.k2]. *)
Theorem X4_nested_groups_join fuel e (b : buffer) ks a g :
  ReplaceAttr (eopts e) = None ->
  writeAttr (length ks + fuel) e b (nest ks a) g
  = writeAttr fuel e b a (fold_left joinKey ks g).
Proof.
  intros He. revert g. induction ks as [|k ks IH]; intros g; [done|].
  cbn [length Nat.add nest writeAttr fold_left]. rewrite He.
  unfold hasHook. rewrite He. cbn [Key Val Group].
  change (Resolve (VGroup [nest ks a])) with (VGroup [nest ks a]).
  replace (isZeroAttr {| Key := k; Val := VGroup [nest ks a] |}) with false
    by (unfold isZeroAttr; simpl; by rewrite andb_false_r).
  fold (joinKey g k). cbn [foldlM fst snd]. rewrite IH.
  destruct (writeAttr fuel e b a _) as [[e' b']|] eqn:Erun; [|done].
  pose proof (writeAttr_nohook _ _ _ _ _ _ _ He Erun) as ->. by rewrite He.
Qed.

End Groups.

Lemma X3_witness :
  exists span,
    writeAttr (H := demoRuntime) 3 (newEncoder Multiline.w0 Multiline.h0).2
      (bytes_of "x") (Group "g" [Group "empty" []; zeroAttr]) "p"
    = Some ((newEncoder Multiline.w0 Multiline.h0).2, bytes_of "x" ++ span) /\
    (span = [] <-> elides (Group "g" [Group "empty" []; zeroAttr])).
Proof.
  apply (X3_elided_attributes (H := demoRuntime) 3
           (newEncoder Multiline.w0 Multiline.h0).2 (bytes_of "x")
           (Group "g" [Group "empty" []; zeroAttr]) "p").
  - reflexivity.
  - vm_compute. lia.
Defined.

Lemma X4_witness :
  writeAttr (H := demoRuntime) (length ["k1"; "k2"] + 1)
    (newEncoder Multiline.w0 Multiline.h0).2 ([] : buffer)
    (nest ["k1"; "k2"] (String_ "a" "1")) "g"
  = writeAttr (H := demoRuntime) 1 (newEncoder Multiline.w0 Multiline.h0).2
      ([] : buffer) (String_ "a" "1") "g.k1.k2".
Proof.
  exact (X4_nested_groups_join (H := demoRuntime) 1
           (newEncoder Multiline.w0 Multiline.h0).2 ([] : buffer)
           ["k1"; "k2"] (String_ "a" "1") "g" eq_refl).
Defined.

Section Derivation.
Context `{Runtime}.

Lemma withColor_eopts {B} `{Buffer B} e1 e2 (b : B) c f :
  eopts e1 = eopts e2 -> withColor e1 b c f = withColor e2 b c f.
Proof. intros He. unfold withColor. by rewrite He. Qed.

Lemma writeColoredValue_eopts {B} `{Buffer B} e1 e2 (b : B) v c :
  eopts e1 = eopts e2 -> writeColoredValue e1 b v c = writeColoredValue e2 b v c.
Proof.
  intros He.
  unfold writeColoredValue, writeColoredString, writeColoredInt, writeColoredUint,
    writeColoredFloat, writeColoredBool, writeColoredDuration, writeColoredTime.
  rewrite He.
  destruct v as [[| ? []| | | |]| | | | | | | | |];
    by apply withColor_eopts.
Qed.




End Derivation.

Section HeaderFastPath.
Context `{Runtime}.

Lemma extractHeaders_none_loop h st : forall rest seen,
  eh_attrs st = seen ++ rest ->
  Forall (fun a => isHeader h a = false) rest ->
  foldlM (extractHeaders_step h) (seq (length seen) (length rest)) st = Some st.
Proof.
  induction rest as [|a rest IH]; intros seen Hst Hno; [done|].
  apply Forall_cons in Hno as [Ha Hno]. cbn [length seq foldlM].
  unfold extractHeaders_step at 1.
  rewrite Hst, list_lookup_middle by done.
  unfold isHeader, headerIndex in Ha.
  destruct (IndexFunc _ _); [done|].
  replace (S (length seen)) with (length (seen ++ [a])) by (rewrite length_app; simpl; lia).
  apply IH; [|done]. by rewrite <- app_assoc.
Qed.

(** X6.  When no attribute has one of the header keys, [extractHeaders]
    allocates nothing and writes nothing: it returns the header slice of the
    handler itself and leaves the caller's slice as it is; the handler
    [WithAttrs] then returns shares the header slots of its parent. *)
Theorem X6_no_header_attribute fuel w h attrs :
  Forall (fun a => isHeader h a = false) attrs ->
  extractHeaders (attrs_mem w) h attrs = Some (attrs_mem w, headers h, attrs) /\
  forall w' h' attrs',
    WithAttrs fuel w h attrs = Some (w', h', attrs') ->
    headers h' = headers h /\ attrs' = attrs /\
    attrs_mem w' = attrs_mem (newEncoder w h).1.
Proof.
  intros Hno.
  assert (Hx : extractHeaders (attrs_mem w) h attrs
               = Some (attrs_mem w, headers h, attrs)).
  { unfold extractHeaders.
    pose proof (extractHeaders_none_loop h (MkEH (attrs_mem w) (headers h) false attrs)
                  attrs [] eq_refl Hno) as Hloop.
    simpl in Hloop. by rewrite Hloop. }
  split; [done|]. intros w' h' attrs'. unfold WithAttrs. rewrite Hx.
  replace (set_attrs_mem w (attrs_mem w)) with w by by destruct w.
  destruct (newEncoder w h) as [w1 enc]. simpl.
  destruct (foldlM _ attrs _) as [[e1 [bmem newCtx]]|]; [|done].
  by intros [= <- <- <-].
Qed.

End HeaderFastPath.

Lemma X6_witness :
  extractHeaders (attrs_mem Headers.w0) Headers.h0 [String_ "a" "b"]
  = Some (attrs_mem Headers.w0, headers Headers.h0, [String_ "a" "b"]).
Proof.
  refine (proj1 (X6_no_header_attribute (H := demoRuntime) 3 Headers.w0 Headers.h0
                   [String_ "a" "b"] _)).
  repeat constructor.
Defined.

Section GroupsAliasing.
Context `{Runtime}.

Lemma take_read {T} (st : store T) (s : slice) (rest : list T) :
  wf st s -> take (len s) (take (len s) (array st (ptr s)) ++ rest) = read st s.
Proof.
  intros [Hl Hc]. unfold read. rewrite take_app_le by (rewrite length_take; lia).
  by rewrite take_take, Nat.min_id.
Qed.

(** Appending to a slice leaves what the slice itself shows. *)
Lemma append_self {T} (zero : T) (gc : nat -> nat -> nat) (st : store T) s d :
  wf st s ->
  read (GoSlice.append zero gc st s d).1 s = read st s /\
  wf (GoSlice.append zero gc st s d).1 s.
Proof.
  intros Hwf. pose proof Hwf as [Hl Hc]. unfold GoSlice.append.
  destruct (decide (len s + length d <= cap s)) as [Hfit|Hnofit]; simpl.
  - destruct (decide (ptr s < length st)) as [Hp|Hp].
    + unfold read, wf. rewrite array_insert_eq by done. split.
      * rewrite take_app_le by (rewrite length_take; lia).
        by rewrite take_take, Nat.min_id.
      * split; [done|]. rewrite !length_app, length_take, length_drop. lia.
    + rewrite list_insert_ge by lia. done.
  - destruct (decide (ptr s < length st)) as [Hp|Hp].
    + unfold read, wf. by rewrite array_app_l.
    + assert (array st (ptr s) = []) as Harr by (apply array_out; lia).
      unfold wf in *. rewrite Harr in Hc. simpl in Hc.
      assert (len s = 0) as Hlen by lia. assert (cap s = 0) as Hcap by lia.
      unfold read. rewrite Hlen, Hcap. split; [done|lia].
Qed.

(** X7.  The [groups] of handlers derived with [WithGroup].  When the list
    of the parent has spare capacity, the two handlers derived from it get
    the same cell of the same array: after the second derivation the list of
    the first handler ends with the name given to the second.  When it has
    none, each derivation allocates and the lists are independent.  The list
    of the parent reads the same throughout. *)
Theorem X7_WithGroup_groups_share mem gs name1 name2 :
  wf mem gs ->
  let r1 := WithGroup_groups mem gs name1 in
  let r2 := WithGroup_groups r1.1 gs name2 in
  read r1.1 r1.2 = read mem gs ++ [TrimSpace name1] /\
  read r2.1 r2.2 = read mem gs ++ [TrimSpace name2] /\
  read r2.1 gs = read mem gs /\
  (len gs < cap gs -> read r2.1 r1.2 = read mem gs ++ [TrimSpace name2]) /\
  (len gs = cap gs -> read r2.1 r1.2 = read mem gs ++ [TrimSpace name1]).
Proof.
  intros Hwf r1 r2. unfold WithGroup_groups in r1, r2.
  destruct (append_self "" growcap mem gs [TrimSpace name1] Hwf) as [Hr1 Hwf1].
  fold r1 in Hr1, Hwf1.
  destruct (append_self "" growcap r1.1 gs [TrimSpace name2] Hwf1) as [Hr2 Hwf2].
  fold r2 in Hr2, Hwf2.
  split_and!.
  - apply read_append. done.
  - unfold r2. rewrite read_append by done. by rewrite Hr1.
  - by rewrite Hr2.
  - intros Hspare. pose proof Hwf as [Hl Hc].
    assert (Hp : ptr gs < length mem) by (apply (wf_in_range _ _ Hwf); lia).
    unfold r2, r1, GoSlice.append. simpl.
    rewrite !decide_True by (simpl; lia). simpl.
    unfold read. simpl.
    rewrite !array_insert_eq by (rewrite ?length_insert; done).
    rewrite (take_app_le _ _ (len gs)) by (rewrite length_take; lia).
    rewrite take_take, Nat.min_id.
    rewrite take_app_ge by (rewrite length_take; lia).
    rewrite length_take. replace (len gs + 1 - len gs `min` _) with 1 by lia.
    done.
  - intros Hfull. pose proof Hwf as [Hl Hc].
    unfold r2, r1, GoSlice.append. simpl.
    rewrite !decide_False by (simpl; lia). simpl.
    unfold read at 1. simpl.
    rewrite array_app_l by (rewrite length_app; simpl; lia).
    rewrite array_app_new.
    rewrite take_app_ge by (rewrite length_read; [lia|done]).
    rewrite length_read by done.
    replace (len gs + 1 - len gs) with 1 by lia. done.
Qed.

End GroupsAliasing.

Lemma X7_witness :
  let r1 := GroupChain.derive GroupChain.abc "d" in
  let r2 := WithGroup_groups (H := demoRuntime) r1.1 GroupChain.abc.2 "e" in
  read r2.1 r1.2 = ["a"; "b"; "c"; "e"] /\ read r2.1 r2.2 = ["a"; "b"; "c"; "e"].
Proof.
  destruct (X7_WithGroup_groups_share (H := demoRuntime) GroupChain.abc.1
              GroupChain.abc.2 "d" "e" ltac:(vm_compute; lia))
    as (_ & Hr2 & _ & Hshare & _).
  split; [exact (Hshare ltac:(vm_compute; lia))|exact Hr2].
Defined.

Section HeaderOrder.
Context `{Runtime}.


(** X10.  [WithAttrs] takes an encoder from the pool and does not put it
    back, and writes nothing to the sink: the pool after the call is the pool
    before it without its first encoder. *)
Theorem X10_WithAttrs_keeps_its_encoder fuel w h attrs w' h' attrs' :
  WithAttrs fuel w h attrs = Some (w', h', attrs') ->
  pool w' = tail (pool w) /\ sink w' = sink w.
Proof.
  unfold WithAttrs.
  destruct (extractHeaders _ _ _) as [[[mem hs] attrs0]|]; [|done].
  pose proof (newEncoder_spec (set_attrs_mem w mem) h) as Hnew. simpl in Hnew.
  destruct Hnew as (_ & Hsink & Hpool & _).
  destruct (newEncoder (set_attrs_mem w mem) h) as [w1 enc]. simpl in *.
  destruct (foldlM _ attrs0 _) as [[e1 [bmem newCtx]]|]; [|done].
  intros [= <- <- <-]. by rewrite <- Hpool, <- Hsink.
Qed.

End HeaderOrder.


Lemma X10_witness :
  pool Family.w1 = tail (pool Family.w0) /\ sink Family.w1 = sink Family.w0.
Proof.
  apply (X10_WithAttrs_keeps_its_encoder (H := demoRuntime) 3 Family.w0 Family.parent
           Family.attrs1 Family.w1 Family.child1 Family.attrs1).
  vm_compute. reflexivity.
Defined.

Section Divider.
Context `{Runtime}.

Lemma writeColoredValue_app e (b : buffer) v c :
  writeColoredValue e b v c = b ++ writeColoredValue e ([] : buffer) v c.
Proof.
  apply (writeColoredValue_rel (fun b1 b2 : buffer => b1 = b ++ b2)).
  - intros b1 b2 d ->. unfold Append, buffer_Buffer. by rewrite app_assoc.
  - by rewrite app_nil_r.
Qed.

Lemma writeColoredString_app e (b : buffer) s c :
  writeColoredString e b s c = b ++ writeColoredString e ([] : buffer) s c.
Proof.
  apply (writeColoredString_rel (fun b1 b2 : buffer => b1 = b ++ b2)).
  - intros b1 b2 d ->. unfold Append, buffer_Buffer. by rewrite app_assoc.
  - by rewrite app_nil_r.
Qed.

Lemma writeHeaders_nohook e (b : buffer) sl :
  ReplaceAttr (eopts e) = None ->
  writeHeaders e b sl = (e, b ++ concat (map (headerValue e) (shownSlots sl))).
Proof.
  intros He. unfold writeHeaders. revert b.
  induction sl as [|a sl IH]; intros b; cbn [fold_left].
  - simpl. by rewrite app_nil_r.
  - unfold writeHeader at 2. rewrite He. unfold shownSlots. cbn [List.filter].
    destruct (isZeroValue (Val a)); cbn [negb]; [apply IH|].
    rewrite IH. cbn [map concat]. unfold headerValue, AppendByte, Append, buffer_Buffer.
    rewrite (writeColoredValue_app e b). by rewrite <- !app_assoc.
Qed.

Lemma writeTimestamp_nohook {B} `{Buffer B} e (b : B) t :
  ReplaceAttr (eopts e) = None -> (writeTimestamp e b t).1 = e.
Proof. intros He. unfold writeTimestamp. rewrite He. by destruct (IsZero t). Qed.

Lemma writeLevel_nohook {B} `{Buffer B} e (b : B) l :
  ReplaceAttr (eopts e) = None -> (writeLevel e b l).1 = e.
Proof.
  intros He. unfold writeLevel. rewrite He.
  by repeat destruct (_ <=? _)%Z.
Qed.

Lemma writeMessage_nohook {B} `{Buffer B} e (b : B) l m :
  ReplaceAttr (eopts e) = None -> (writeMessage e b l m).1 = e.
Proof. intros He. unfold writeMessage. by rewrite He. Qed.

Lemma writeSource_nohook {B} `{Buffer B} e (b : B) pc d :
  ReplaceAttr (eopts e) = None -> (writeSource e b pc d).1 = e.
Proof. intros He. unfold writeSource. by rewrite He. Qed.

Lemma spans_nohook fuel h attrs : forall e e' sps,
  ReplaceAttr (eopts e) = None -> spans fuel h e attrs = Some (e', sps) -> e' = e.
Proof.
  induction attrs as [|a attrs IH]; intros e e' sps He; simpl.
  - by intros [= <- <-].
  - destruct (isHeader h a); [by apply IH|].
    destruct (writeAttr fuel e ([] : buffer) a (groupPrefix h)) as [[e1 sp]|] eqn:Ew;
      [|done].
    apply writeAttr_nohook in Ew as ->; [|done].
    destruct (spans fuel h e attrs) as [[e2 sps2]|] eqn:E2; [|done].
    intros [= <- <-]. by eapply IH.
Qed.

(** X11.  The header section of a line, for a handler without hook that does
    not add the source: the time and the level; then, in the order of the
    header keys, every slot that holds a value, each followed by a space;
    then the divider, which is there exactly when some slot holds a value. *)
Theorem X11_header_section fuel enc h sl cx rec e' hb mb tb :
  ReplaceAttr (eopts enc) = None -> AddSource (opts h) = false ->
  e_headerBuf enc = [] ->
  sections_spec fuel enc h sl cx rec = Some (e', hb, mb, tb) ->
  let shown := shownSlots (overlay h sl (RAttrs rec)) in
  hb = headerPrefix enc h rec ++ concat (map (headerValue enc) shown)
       ++ (if decide (shown = []) then [] else writeHeaderSeparator enc ([] : buffer)).
Proof.
  intros He Hsrc Hbuf. unfold sections_spec, headerPrefix. rewrite Hsrc, Hbuf.
  pose proof (writeTimestamp_nohook enc ([] : buffer) (RTime rec) He) as E1.
  destruct (writeTimestamp enc _ _) as [e1 hb1]. simpl in E1. subst e1.
  pose proof (writeLevel_nohook enc hb1 (RLevel rec) He) as E2.
  destruct (writeLevel enc hb1 _) as [e2 hb2]. simpl in E2. subst e2.
  pose proof (writeMessage_nohook enc (e_middleBuf enc) (RLevel rec) (RMessage rec) He)
    as E3.
  destruct (writeMessage enc _ _ _) as [e3 mb1]. simpl in E3. subst e3.
  destruct (spans fuel h enc (RAttrs rec)) as [[e4 sps]|] eqn:Es; [|done].
  apply spans_nohook in Es as ->; [|done].
  destruct (carve _ _ _) as [mb' tb'].
  set (ov := overlay h sl (RAttrs rec)).
  assert ((if (0 <? length ov)%nat then writeHeaders enc hb2 ov else (enc, hb2))
          = (enc, hb2 ++ concat (map (headerValue enc) (shownSlots ov)))) as ->.
  { rewrite <- writeHeaders_nohook by done. by destruct ov. }
  intros [= <- <- <- <-]. cbv zeta. set (shown := shownSlots ov).
  destruct (decide (shown = [])) as [->|Hne]; simpl.
  - rewrite !app_nil_r. by rewrite Nat.ltb_irrefl.
  - replace (_ <? _)%nat with true.
    + unfold writeHeaderSeparator. rewrite writeColoredString_app.
      by rewrite <- app_assoc.
    + symmetry. apply Nat.ltb_lt. rewrite length_app.
      destruct shown as [|a shown']; [done|]. simpl.
      unfold headerValue at 1, AppendByte, Append, buffer_Buffer.
      rewrite !length_app. simpl. lia.
Qed.

End Divider.

Lemma X11_witness :
  let enc := (newEncoder Headers.w0 Headers.h0).2 in
  let rec := MkRecord 0 "with headers" 0 0 [String_ "bar" "baz"; String_ "baz" "foo"] in
  let shown := shownSlots (overlay Headers.h0 (slots Headers.w0 Headers.h0) (RAttrs rec)) in
  bytes_of "INF baz > "
  = headerPrefix (H := demoRuntime) enc Headers.h0 rec
    ++ concat (map (headerValue (H := demoRuntime) enc) shown)
    ++ (if decide (shown = []) then []
        else writeHeaderSeparator (H := demoRuntime) enc ([] : buffer)).
Proof.
  intros enc rec shown.
  refine (X11_header_section (H := demoRuntime) 3 enc Headers.h0
            (slots Headers.w0 Headers.h0) (ctx Headers.w0 Headers.h0) rec
            _ (bytes_of "INF baz > ") _ _ eq_refl eq_refl eq_refl _).
  vm_compute. reflexivity.
Defined.

Section HookOnBuiltins.
Context `{Runtime}.

(** X12.  A hook that answers the level field with another level: the field
    is written as that level is without a hook, code, offset and style, and
    the hook was called once, with no groups, on the level of the event. *)
Theorem X12_hook_relevels {B} `{Buffer B} e (b : B) f l ll :
  ReplaceAttr (eopts e) = Some f ->
  Resolve (Val (f [] (Any LevelKey (ALevel l)))) = VAny (ALevel ll) ->
  (- 2 ^ 63 <= ll < 2 ^ 63)%Z ->
  writeLevel e b l
  = (addCalls e [([], Any LevelKey (ALevel l))],
     AppendByte (writeColoredString e b (levelText ll) (levelStyle (etheme e) ll))
       space).
Proof.
  intros Hhook Hll Hr. unfold writeLevel. rewrite Hhook.
  unfold replaceAndResolve, callHook. cbn [Val Key]. rewrite Hll.
  cbn [isZeroValue].
  unfold levelText, levelAnchor, levelStyle, LevelError, LevelWarn, LevelInfo,
    LevelDebug.
  change (etheme (addCalls e [([], Any LevelKey (ALevel l))])) with (etheme e).
  destruct (8 <=? ll)%Z eqn:E8; [|destruct (4 <=? ll)%Z eqn:E4;
    [|destruct (0 <=? ll)%Z eqn:E0; [|destruct (-4 <=? ll)%Z eqn:Em4]]];
    match goal with
    | |- context [wrap64 (ll - ?a)] =>
        destruct (level_delta_text
                    (match a with
                     | 8 => "ERR" | 4 => "WRN" | 0 => "INF" | _ => "DBG"
                     end)%Z a ll) as [->|Hbad]; [done|]
    end;
    exfalso; apply Hbad; lia.
Qed.

(** X13.  A hook whose answer for a built-in field resolves to the zero
    value removes the field: nothing is written for it, not even the space
    after it, and the hook was called once, with no groups, on the field
    under its key ([time], [level], [source], [msg]). *)
Theorem X13_hook_removes_builtin {B} `{Buffer B} e (b : B) f :
  ReplaceAttr (eopts e) = Some f ->
  (forall t, IsZero t = false ->
     isZeroValue (Resolve (Val (f [] (TimeAttr TimeKey t)))) = true ->
     writeTimestamp e b t = (addCalls e [([], TimeAttr TimeKey t)], b)) /\
  (forall l,
     isZeroValue (Resolve (Val (f [] (Any LevelKey (ALevel l))))) = true ->
     writeLevel e b l = (addCalls e [([], Any LevelKey (ALevel l))], b)) /\
  (forall pc d,
     let src := if (0 <? pc)%Z then callersFrame pc else MkSource "" "" 0 in
     isZeroValue (Resolve (Val (f [] (Any SourceKey (ASource (Some src)))))) = true ->
     writeSource e b pc d = (addCalls e [([], Any SourceKey (ASource (Some src)))], b)) /\
  (forall l m,
     isZeroValue (Resolve (Val (f [] (String_ MessageKey m)))) = true ->
     writeMessage e b l m = (addCalls e [([], String_ MessageKey m)], b)).
Proof.
  intros Hhook. split_and!.
  - intros t Ht Hz. unfold writeTimestamp. rewrite Ht, Hhook.
    unfold replaceAndResolve, callHook. cbn [Val Key]. by rewrite Hz.
  - intros l Hz. unfold writeLevel. rewrite Hhook.
    unfold replaceAndResolve, callHook. cbn [Val Key]. by rewrite Hz.
  - intros pc d src Hz. unfold writeSource. rewrite Hhook.
    unfold replaceAndResolve, callHook. cbn [Val Key]. fold src. by rewrite Hz.
  - intros l m Hz. unfold writeMessage. rewrite Hhook.
    unfold replaceAndResolve, callHook. cbn [Val Key]. by rewrite Hz.
Qed.

End HookOnBuiltins.

Lemma X12_witness :
  writeLevel (H := demoRuntime) Rewriting.enc ([] : buffer) 0%Z
  = (addCalls Rewriting.enc [([], Any LevelKey (ALevel 0%Z))], bytes_of "WRN ").
Proof.
  rewrite (X12_hook_relevels (H := demoRuntime) Rewriting.enc ([] : buffer)
             Rewriting.hook 0%Z LevelWarn eq_refl eq_refl ltac:(unfold LevelWarn; lia)).
  vm_compute. reflexivity.
Defined.

Lemma X13_witness :
  writeTimestamp (H := demoRuntime) Rewriting.enc ([] : buffer) 5%Z
  = (addCalls Rewriting.enc [([], TimeAttr TimeKey 5%Z)], []).
Proof.
  exact (proj1 (X13_hook_removes_builtin (H := demoRuntime) Rewriting.enc ([] : buffer)
                  Rewriting.hook eq_refl) 5%Z eq_refl eq_refl).
Defined.

Section BoundOrPassed.
Context `{Runtime}.

Lemma etheme_eopts e1 e2 : eopts e1 = eopts e2 -> etheme e1 = etheme e2.
Proof. intros He. unfold etheme. by rewrite He. Qed.

(** Without a hook, what [writeAttr] writes depends on the encoder through
    the options only. *)
Lemma writeAttr_eopts fuel : forall e1 e2 (b : buffer) a g,
  ReplaceAttr (eopts e1) = None -> eopts e1 = eopts e2 ->
  snd <$> writeAttr fuel e1 b a g = snd <$> writeAttr fuel e2 b a g.
Proof.
  induction fuel as [|fuel IH]; intros e1 e2 b a g He Heq; cbn [writeAttr]; [done|].
  assert (He2 : ReplaceAttr (eopts e2) = None) by (by rewrite <- Heq).
  rewrite He, He2. unfold hasHook. rewrite He, He2. cbn [Key Val].
  destruct (isZeroAttr _); [done|].
  pose proof (etheme_eopts _ _ Heq) as Het.
  destruct (Resolve (Val a)) eqn:Ev;
    try (cbn [fmap option_fmap option_map snd]; rewrite <- !Het;
         rewrite (writeColoredValue_eopts e2 e1) by done;
         rewrite (withColor_eopts e2 e1) by done; reflexivity).
  set (G := if String.eqb g "" then Key a else _).
  assert (Hfold : forall b,
            snd <$> foldlM (fun eb attr => writeAttr fuel eb.1 eb.2 attr G) attrs (e1, b)
            = snd <$> foldlM (fun eb attr => writeAttr fuel eb.1 eb.2 attr G) attrs (e2, b)).
  { clear Ev. induction attrs as [|x l IHl]; intros b0; simpl; [done|].
    pose proof (IH e1 e2 b0 x G He Heq) as Hx.
    destruct (writeAttr fuel e1 b0 x G) as [[e1' b1]|] eqn:E1,
             (writeAttr fuel e2 b0 x G) as [[e2' b2]|] eqn:E2; try done.
    simpl in Hx. injection Hx as ->.
    apply writeAttr_nohook in E1 as ->; [|done].
    apply writeAttr_nohook in E2 as ->; [|done].
    apply IHl. }
  specialize (Hfold b).
  destruct (foldlM _ attrs (e1, b)) as [[e1' b1]|],
           (foldlM _ attrs (e2, b)) as [[e2' b2]|]; try done.
Qed.

Lemma spans_eopts fuel h1 h2 attrs : forall e1 e2,
  ReplaceAttr (eopts e1) = None -> eopts e1 = eopts e2 ->
  opts h1 = opts h2 -> groupPrefix h1 = groupPrefix h2 ->
  snd <$> spans fuel h1 e1 attrs = snd <$> spans fuel h2 e2 attrs.
Proof.
  intros e1 e2 He Heq Ho Hg.
  assert (He2 : ReplaceAttr (eopts e2) = None) by (by rewrite <- Heq).
  induction attrs as [|a attrs IH]; simpl; [done|].
  replace (isHeader h2 a) with (isHeader h1 a)
    by (unfold isHeader, headerIndex; by rewrite Ho).
  destruct (isHeader h1 a); [done|]. rewrite <- Hg.
  pose proof (writeAttr_eopts fuel e1 e2 [] a (groupPrefix h1) He Heq) as Ha.
  destruct (writeAttr fuel e1 _ a _) as [[e1' s1]|] eqn:E1,
           (writeAttr fuel e2 _ a _) as [[e2' s2]|] eqn:E2; try done.
  simpl in Ha. injection Ha as ->.
  apply writeAttr_nohook in E1 as ->; [|done].
  apply writeAttr_nohook in E2 as ->; [|done].
  destruct (spans fuel h1 e1 attrs) as [[e1' sps1]|],
           (spans fuel h2 e2 attrs) as [[e2' sps2]|]; try done.
  simpl in IH. injection IH as ->. done.
Qed.

Lemma writeTimestamp_eopts e1 e2 (b : buffer) t :
  ReplaceAttr (eopts e1) = None -> eopts e1 = eopts e2 ->
  (writeTimestamp e1 b t).2 = (writeTimestamp e2 b t).2.
Proof.
  intros He Heq. unfold writeTimestamp, writeColoredTime.
  rewrite <- (etheme_eopts _ _ Heq), <- Heq, He.
  destruct (IsZero t); [done|]. simpl. f_equal. by apply withColor_eopts.
Qed.

Lemma writeLevel_eopts e1 e2 (b : buffer) l :
  ReplaceAttr (eopts e1) = None -> eopts e1 = eopts e2 ->
  (writeLevel e1 b l).2 = (writeLevel e2 b l).2.
Proof.
  intros He Heq. unfold writeLevel, writeColoredString.
  rewrite <- (etheme_eopts _ _ Heq), <- Heq, He.
  repeat destruct (_ <=? _)%Z; simpl; f_equal; by apply withColor_eopts.
Qed.

Lemma writeSource_eopts e1 e2 (b : buffer) pc d :
  ReplaceAttr (eopts e1) = None -> eopts e1 = eopts e2 ->
  (writeSource e1 b pc d).2 = (writeSource e2 b pc d).2.
Proof.
  intros He Heq. unfold writeSource, writeSourceFields.
  rewrite <- (etheme_eopts _ _ Heq), <- Heq, He. simpl.
  destruct (_ && _); [done|]. by apply withColor_eopts.
Qed.

Lemma writeMessage_eopts e1 e2 (b : buffer) l m :
  ReplaceAttr (eopts e1) = None -> eopts e1 = eopts e2 ->
  (writeMessage e1 b l m).2 = (writeMessage e2 b l m).2.
Proof.
  intros He Heq. unfold writeMessage, writeColoredString.
  rewrite <- (etheme_eopts _ _ Heq), <- Heq, He. simpl. by apply withColor_eopts.
Qed.

Lemma headerValue_eopts e1 e2 a : eopts e1 = eopts e2 -> headerValue e1 a = headerValue e2 a.
Proof.
  intros Heq. unfold headerValue. rewrite (etheme_eopts _ _ Heq).
  f_equal. by apply writeColoredValue_eopts.
Qed.

(** Without a hook, the sections of a line as bytes: the prefix of the
    header, the message, and what the slots, the context and the spans of the
    attributes give. *)
Lemma sections_spec_nohook fuel enc h sl cx rec :
  ReplaceAttr (eopts enc) = None ->
  e_headerBuf enc = [] -> e_middleBuf enc = [] -> e_trailerBuf enc = [] ->
  sections_of <$> sections_spec fuel enc h sl cx rec
  = (fun sps : list (list byte) =>
       let lvl := (writeLevel enc (writeTimestamp enc ([] : buffer) (RTime rec)).2
                     (RLevel rec)).2 in
       let hb := headerPrefix enc h rec
                 ++ concat (map (headerValue enc)
                              (shownSlots (overlay h sl (RAttrs rec)))) in
       (if (length lvl <? length hb)%nat then writeHeaderSeparator enc hb else hb,
        (writeMessage enc ([] : buffer) (RLevel rec) (RMessage rec)).2 ++ cx
          ++ concat (List.filter (fun sp => negb (hasNewline sp)) sps),
        concat (List.filter hasNewline sps)))
    <$> (snd <$> spans fuel h enc (RAttrs rec)).
Proof.
  intros He Hhb Hmb Htb. unfold sections_spec, headerPrefix. rewrite Hhb.
  pose proof (writeTimestamp_nohook enc ([] : buffer) (RTime rec) He) as E1.
  destruct (writeTimestamp enc _ _) as [e1 hb1]. simpl in E1. subst e1.
  cbn [snd].
  pose proof (writeLevel_nohook enc hb1 (RLevel rec) He) as E2.
  destruct (writeLevel enc hb1 _) as [e2 hb2]. simpl in E2. subst e2.
  cbn [snd].
  set (src := if AddSource (opts h) then writeSource enc hb2 (RPC rec) cwd else (enc, hb2)).
  assert (src = (enc, if AddSource (opts h) then (writeSource enc hb2 (RPC rec) cwd).2
                      else hb2)) as ->.
  { unfold src. destruct (AddSource (opts h)); [|done].
    pose proof (writeSource_nohook enc hb2 (RPC rec) cwd He) as E3.
    destruct (writeSource enc hb2 _ _) as [e3 hb3]. simpl in E3. by subst e3. }
  set (hb3 := if AddSource (opts h) then _ else hb2).
  rewrite Hmb.
  pose proof (writeMessage_nohook enc ([] : buffer) (RLevel rec) (RMessage rec) He) as E4.
  destruct (writeMessage enc _ _ _) as [e4 mb1]. simpl in E4. subst e4. cbn [snd].
  destruct (spans fuel h enc (RAttrs rec)) as [[e5 sps]|] eqn:Es; [|done].
  apply spans_nohook in Es as ->; [|done].
  unfold carve. rewrite Htb. simpl.
  set (ov := overlay h sl (RAttrs rec)).
  assert ((if (0 <? length ov)%nat then writeHeaders enc hb3 ov else (enc, hb3))
          = (enc, hb3 ++ concat (map (headerValue enc) (shownSlots ov)))) as ->.
  { rewrite <- writeHeaders_nohook by done. by destruct ov. }
  unfold sections_of. simpl. by rewrite <- app_assoc.
Qed.

Lemma overlay_opts h1 h2 sl attrs :
  opts h1 = opts h2 -> overlay h1 sl attrs = overlay h2 sl attrs.
Proof. intros Ho. unfold overlay, headerIndex. by rewrite Ho. Qed.

Lemma overlay_app h sl l1 l2 :
  overlay h sl (l1 ++ l2) = overlay h (overlay h sl l1) l2.
Proof. unfold overlay. by rewrite fold_left_app. Qed.

Lemma spans_app fuel h e l1 l2 sps1 :
  ReplaceAttr (eopts e) = None ->
  spans fuel h e l1 = Some (e, sps1) ->
  snd <$> spans fuel h e (l1 ++ l2) = (fun s => sps1 ++ s) <$> (snd <$> spans fuel h e l2).
Proof.
  intros He. revert sps1. induction l1 as [|a l1 IH]; intros sps1; simpl.
  - intros [= <-]. by destruct (spans fuel h e l2) as [[? ?]|].
  - destruct (isHeader h a); [by apply IH|].
    destruct (writeAttr fuel e ([] : buffer) a (groupPrefix h)) as [[e1 sp]|] eqn:Ew;
      [|done].
    apply writeAttr_nohook in Ew as ->; [|done].
    destruct (spans fuel h e l1) as [[e2 s1]|] eqn:E1; [|done].
    pose proof (spans_nohook _ _ _ _ _ _ He E1) as ->.
    intros [= <-]. specialize (IH s1 eq_refl).
    destruct (spans fuel h e (l1 ++ l2)) as [[e3 s3]|],
             (spans fuel h e l2) as [[e4 s4]|]; try done.
    simpl in IH. injection IH as ->. done.
Qed.

(** What [WithAttrs] renders into the context is what the same attributes
    give as spans of an event. *)
Lemma rendered_is_spans fuel h e e' attrs : forall (b0 : buffer) spsA e'' b,
  ReplaceAttr (eopts e) = None -> eopts e = eopts e' ->
  spans fuel h e attrs = Some (e, spsA) ->
  foldlM (fun eb a => writeAttr fuel eb.1 eb.2 a (groupPrefix h))
    (map (cleared h) attrs) (e', b0) = Some (e'', b) ->
  b = b0 ++ concat spsA.
Proof.
  induction attrs as [|a attrs IH]; intros b0 spsA e'' b He Heq; simpl.
  - intros [= <-] [= <- <-]. simpl. by rewrite app_nil_r.
  - assert (He' : ReplaceAttr (eopts e') = None) by (by rewrite <- Heq).
    unfold cleared at 1. destruct (isHeader h a).
    + intros Hsp.
      destruct (writeAttr fuel e' b0 zeroAttr (groupPrefix h)) as [[e1 b1]|] eqn:Ez;
        [|done].
      assert (b1 = b0) as ->.
      { destruct fuel as [|fuel]; [done|]. cbn [writeAttr] in Ez.
        rewrite He' in Ez. by injection Ez as <- <-. }
      apply writeAttr_nohook in Ez as ->; [|done]. simpl. by apply IH.
    + destruct (writeAttr fuel e ([] : buffer) a (groupPrefix h)) as [[e1 sp]|] eqn:Ew;
        [|done].
      pose proof (writeAttr_nohook _ _ _ _ _ _ _ He Ew) as ->.
      destruct (spans fuel h e attrs) as [[e2 s1]|] eqn:E1; [|done].
      pose proof (spans_nohook _ _ _ _ _ _ He E1) as ->.
      intros [= <-].
      rewrite writeAttr_span.
      pose proof (writeAttr_eopts fuel e e' [] a (groupPrefix h) He Heq) as Hsame.
      rewrite Ew in Hsame.
      destruct (writeAttr fuel e' ([] : buffer) a (groupPrefix h)) as [[e3 sp']|] eqn:Ew';
        [|done].
      simpl in Hsame. injection Hsame as <-.
      apply writeAttr_nohook in Ew' as ->; [|done]. simpl.
      intros Hrest. rewrite (IH _ _ _ _ He Heq eq_refl Hrest).
      by rewrite <- app_assoc.
Qed.

(** X8.  Binding attributes with [WithAttrs] and passing them with the
    event give the same line.  For a handler without hook, and attributes none
    of which renders over several lines: the header, body and trailer of an
    event rendered by the derived handler are those of the event with the
    attributes put in front of its own, rendered by the parent.  The derived
    handler renders from its slots and context in both worlds. *)
Theorem X8_bound_or_passed fuel w h attrs rec w1 c attrs' e0 spsA :
  world_ok w -> handler_ok w h -> ReplaceAttr (opts h) = None ->
  WithAttrs fuel w h attrs = Some (w1, c, attrs') ->
  spans fuel h (newEncoder w h).2 attrs = Some (e0, spsA) ->
  Forall (fun sp => hasNewline sp = false) spsA ->
  sections_of <$> sections_spec fuel (newEncoder w1 c).2 c (slots w1 c) (ctx w1 c) rec
  = sections_of <$> sections_spec fuel (newEncoder w h).2 h (slots w h) (ctx w h)
                      (withAttrsInFront attrs rec)
  /\ renders_from fuel w1 c rec (slots w1 c) (ctx w1 c)
  /\ renders_from fuel w h (withAttrsInFront attrs rec) (slots w h) (ctx w h).
Proof.
  intros Hw Hh Hhook Hrun Hsp Hsingle.
  pose proof (WithAttrs_spec fuel w h attrs Hw Hh) as Hspec.
  destruct (WithAttrs_rendered fuel w h attrs) as [b|] eqn:Hren; [|congruence].
  destruct Hspec as (w1' & c' & Hrun' & Hw1 & Hc & _ & _ & _ & _ & _ & _
                     & Hctx & Hslots & Hopts & _ & Hgp & _).
  rewrite Hrun' in Hrun. injection Hrun as -> -> _.
  split_and!; [|by apply renders_from_held..].
  pose proof (newEncoder_spec w h) as Hnh. simpl in Hnh.
  destruct Hnh as (_ & _ & _ & _ & _ & Hehh & _ & Hfh).
  destruct (Hfh Hw) as (Hhb & Hmb & Htb & _).
  pose proof (newEncoder_spec w1 c) as Hnc. simpl in Hnc.
  destruct Hnc as (_ & _ & _ & _ & _ & Hehc & _ & Hfc).
  destruct (Hfc Hw1) as (Hhbc & Hmbc & Htbc & _).
  set (eh := (newEncoder w h).2) in *. set (ec := (newEncoder w1 c).2) in *.
  assert (Heh : ReplaceAttr (eopts eh) = None) by (unfold eopts; by rewrite Hehh).
  assert (Heq : eopts ec = eopts eh) by (unfold eopts; by rewrite Hehh, Hehc).
  assert (Hec : ReplaceAttr (eopts ec) = None) by (by rewrite Heq).
  pose proof (spans_nohook _ _ _ _ _ _ Heh Hsp) as ->.
  assert (Hb : b = concat spsA).
  { unfold WithAttrs_rendered in Hren.
    destruct Hh as (_ & Hwfh & Hph & Hlenh & _).
    destruct (extractHeaders_spec (attrs_mem w) h attrs Hwfh Hph Hlenh)
      as (mem' & hs & Hx & _).
    rewrite Hx in Hren.
    pose proof (newEncoder_spec (set_attrs_mem w mem') h) as Hn. simpl in Hn.
    destruct Hn as (_ & _ & _ & _ & _ & Heh' & _).
    destruct (newEncoder (set_attrs_mem w mem') h) as [w' e']. simpl in Heh'.
    destruct (foldlM _ _ (e', ([] : buffer))) as [[e'' b']|] eqn:Ef; [|done].
    injection Hren as ->.
    eapply (rendered_is_spans fuel h eh e' attrs [] spsA e'' b Heh); [|done|done].
    unfold eopts. by rewrite Hehh, Heh'. }
  rewrite !sections_spec_nohook by done.
  cbn [withAttrsInFront RTime RLevel RMessage RPC RAttrs].
  rewrite (spans_app fuel h eh attrs (RAttrs rec) spsA Heh Hsp).
  rewrite <- (spans_eopts fuel c h (RAttrs rec) ec eh Hec Heq Hopts Hgp).
  destruct (spans fuel c ec (RAttrs rec)) as [[e5 spsR]|]; [|done].
  cbn [fmap option_fmap option_map snd].
  rewrite Hslots, Hctx, Hb.
  rewrite (overlay_opts c h) by done. rewrite <- overlay_app.
  assert (Hpre : headerPrefix ec c rec = headerPrefix eh h (withAttrsInFront attrs rec)).
  { unfold headerPrefix. cbn [withAttrsInFront RTime RLevel RMessage RPC RAttrs].
    rewrite Hopts.
    pose proof (writeTimestamp_nohook ec ([] : buffer) (RTime rec) Hec) as E1.
    pose proof (writeTimestamp_nohook eh ([] : buffer) (RTime rec) Heh) as E1'.
    pose proof (writeTimestamp_eopts ec eh [] (RTime rec) Hec Heq) as E1''.
    destruct (writeTimestamp ec _ _) as [x1 hb1], (writeTimestamp eh _ _) as [x1' hb1'].
    simpl in E1, E1', E1''. subst x1 x1' hb1'.
    pose proof (writeLevel_nohook ec hb1 (RLevel rec) Hec) as E2.
    pose proof (writeLevel_nohook eh hb1 (RLevel rec) Heh) as E2'.
    pose proof (writeLevel_eopts ec eh hb1 (RLevel rec) Hec Heq) as E2''.
    destruct (writeLevel ec _ _) as [x2 hb2], (writeLevel eh _ _) as [x2' hb2'].
    simpl in E2, E2', E2''. subst x2 x2' hb2'.
    destruct (AddSource (opts h)); [|done]. by apply writeSource_eopts. }
  assert (Hlvl : (writeLevel ec (writeTimestamp ec ([] : buffer) (RTime rec)).2
                    (RLevel rec)).2
                 = (writeLevel eh (writeTimestamp eh ([] : buffer) (RTime rec)).2
                      (RLevel rec)).2).
  { rewrite (writeTimestamp_eopts ec eh) by done. by apply writeLevel_eopts. }
  rewrite Hpre, Hlvl, (writeMessage_eopts ec eh) by done.
  rewrite (map_ext (headerValue ec) (headerValue eh))
    by (intros; by apply headerValue_eopts).
  assert (Hsep : forall x : buffer, writeHeaderSeparator ec x = writeHeaderSeparator eh x).
  { intros x. unfold writeHeaderSeparator, writeColoredString.
    rewrite (etheme_eopts _ _ Heq). by apply withColor_eopts. }
  rewrite Hsep.
  assert (List.filter (fun sp => negb (hasNewline sp)) spsA = spsA
          /\ List.filter hasNewline spsA = []) as [Hf1 Hf2].
  { clear -Hsingle. induction Hsingle as [|sp l Hsp _ [IH1 IH2]]; [done|].
    simpl. rewrite Hsp. simpl. by rewrite IH1, IH2. }
  rewrite !List.filter_app, Hf1, Hf2, concat_app. simpl.
  by rewrite <- !app_assoc.
Qed.

End BoundOrPassed.

Lemma X8_witness :
  sections_of <$> sections_spec (H := demoRuntime) 3
                    (newEncoder Family.w1 Family.child1).2 Family.child1
                    (slots Family.w1 Family.child1) (ctx Family.w1 Family.child1)
                    Family.rec0
  = sections_of <$> sections_spec (H := demoRuntime) 3
                      (newEncoder Family.w0 Family.parent).2 Family.parent
                      (slots Family.w0 Family.parent) (ctx Family.w0 Family.parent)
                      (withAttrsInFront Family.attrs1 Family.rec0).
Proof.
  refine (proj1 (X8_bound_or_passed (H := demoRuntime) 3 Family.w0 Family.parent
                   Family.attrs1 Family.rec0 Family.w1 Family.child1 Family.attrs1
                   (newEncoder Family.w0 Family.parent).2 [bytes_of " a=1"]
                   ltac:(handler_ok_by_computation) ltac:(handler_ok_by_computation)
                   eq_refl ltac:(vm_compute; reflexivity) ltac:(vm_compute; reflexivity)
                   _)).
  repeat constructor.
Defined.

Section NoColour.
Context `{Runtime}.

Lemma writeColoredValue_uncoloured e1 e2 (b : buffer) v c1 c2 :
  uncoloured e1 e2 -> writeColoredValue e1 b v c1 = writeColoredValue e2 b v c2.
Proof.
  intros (_ & _ & Hn1 & Hn2 & Htf).
  unfold writeColoredValue, writeColoredString, writeColoredInt, writeColoredUint,
    writeColoredFloat, writeColoredBool, writeColoredDuration, writeColoredTime.
  rewrite Htf.
  destruct v as [[| ? []| | | |]| | | | | | | | |];
    by rewrite !withColor_plain.
Qed.

Lemma writeAttr_uncoloured fuel : forall e1 e2 (b : buffer) a g,
  uncoloured e1 e2 ->
  snd <$> writeAttr fuel e1 b a g = snd <$> writeAttr fuel e2 b a g.
Proof.
  induction fuel as [|fuel IH]; intros e1 e2 b a g Hu; cbn [writeAttr]; [done|].
  pose proof Hu as (He1 & He2 & Hn1 & Hn2 & Htf).
  rewrite He1, He2. unfold hasHook. rewrite He1, He2. cbn [Key Val].
  destruct (isZeroAttr _); [done|].
  destruct (Resolve (Val a)) eqn:Ev;
    try (cbn [fmap option_fmap option_map snd];
         rewrite !withColor_plain by done;
         f_equal; by apply writeColoredValue_uncoloured).
  set (G := if String.eqb g "" then Key a else _).
  assert (Hfold : forall b,
            snd <$> foldlM (fun eb attr => writeAttr fuel eb.1 eb.2 attr G) attrs (e1, b)
            = snd <$> foldlM (fun eb attr => writeAttr fuel eb.1 eb.2 attr G) attrs (e2, b)).
  { clear Ev. induction attrs as [|x l IHl]; intros b0; simpl; [done|].
    pose proof (IH e1 e2 b0 x G Hu) as Hx.
    destruct (writeAttr fuel e1 b0 x G) as [[e1' b1]|] eqn:E1,
             (writeAttr fuel e2 b0 x G) as [[e2' b2]|] eqn:E2; try done.
    simpl in Hx. injection Hx as ->.
    apply writeAttr_nohook in E1 as ->; [|done].
    apply writeAttr_nohook in E2 as ->; [|done].
    apply IHl. }
  specialize (Hfold b).
  destruct (foldlM _ attrs (e1, b)) as [[e1' b1]|],
           (foldlM _ attrs (e2, b)) as [[e2' b2]|]; try done.
Qed.

Lemma spans_uncoloured fuel h1 h2 attrs e1 e2 :
  uncoloured e1 e2 ->
  Headers (opts h1) = Headers (opts h2) -> groupPrefix h1 = groupPrefix h2 ->
  snd <$> spans fuel h1 e1 attrs = snd <$> spans fuel h2 e2 attrs.
Proof.
  intros Hu Ho Hg. pose proof Hu as (He1 & He2 & _).
  induction attrs as [|a attrs IH]; simpl; [done|].
  replace (isHeader h2 a) with (isHeader h1 a)
    by (unfold isHeader, headerIndex; by rewrite Ho).
  destruct (isHeader h1 a); [done|]. rewrite <- Hg.
  pose proof (writeAttr_uncoloured fuel e1 e2 [] a (groupPrefix h1) Hu) as Ha.
  destruct (writeAttr fuel e1 _ a _) as [[e1' s1]|] eqn:E1,
           (writeAttr fuel e2 _ a _) as [[e2' s2]|] eqn:E2; try done.
  simpl in Ha. injection Ha as ->.
  apply writeAttr_nohook in E1 as ->; [|done].
  apply writeAttr_nohook in E2 as ->; [|done].
  destruct (spans fuel h1 e1 attrs) as [[e1' sps1]|],
           (spans fuel h2 e2 attrs) as [[e2' sps2]|]; try done.
  simpl in IH. injection IH as ->. done.
Qed.

Lemma writeTimestamp_uncoloured e1 e2 (b : buffer) t :
  uncoloured e1 e2 -> (writeTimestamp e1 b t).2 = (writeTimestamp e2 b t).2.
Proof.
  intros (He1 & He2 & Hn1 & Hn2 & Htf). unfold writeTimestamp, writeColoredTime.
  rewrite He1, He2, Htf. destruct (IsZero t); [done|]. simpl.
  by rewrite !withColor_plain.
Qed.

Lemma writeLevel_uncoloured e1 e2 (b : buffer) l :
  uncoloured e1 e2 -> (writeLevel e1 b l).2 = (writeLevel e2 b l).2.
Proof.
  intros (He1 & He2 & Hn1 & Hn2 & Htf). unfold writeLevel, writeColoredString.
  rewrite He1, He2.
  repeat destruct (_ <=? _)%Z; simpl; by rewrite !withColor_plain.
Qed.

Lemma writeSource_uncoloured e1 e2 (b : buffer) pc d :
  uncoloured e1 e2 -> (writeSource e1 b pc d).2 = (writeSource e2 b pc d).2.
Proof.
  intros (He1 & He2 & Hn1 & Hn2 & Htf). unfold writeSource, writeSourceFields.
  rewrite He1, He2. simpl.
  destruct (_ && _); [done|]. by rewrite !withColor_plain.
Qed.

Lemma writeMessage_uncoloured e1 e2 (b : buffer) l m :
  uncoloured e1 e2 -> (writeMessage e1 b l m).2 = (writeMessage e2 b l m).2.
Proof.
  intros (He1 & He2 & Hn1 & Hn2 & Htf). unfold writeMessage, writeColoredString.
  rewrite He1, He2. simpl. by rewrite !withColor_plain.
Qed.

(** X14.  With [NoColor] the theme does not matter: for two handlers without
    hook whose options differ in the theme at most, an event has the same
    header, body and trailer from the same slots and context. *)
Theorem X14_NoColor_ignores_theme fuel e1 e2 h1 h2 sl cx rec :
  uncoloured e1 e2 ->
  e_headerBuf e1 = [] -> e_middleBuf e1 = [] -> e_trailerBuf e1 = [] ->
  e_headerBuf e2 = [] -> e_middleBuf e2 = [] -> e_trailerBuf e2 = [] ->
  AddSource (opts h1) = AddSource (opts h2) ->
  Headers (opts h1) = Headers (opts h2) -> groupPrefix h1 = groupPrefix h2 ->
  sections_of <$> sections_spec fuel e1 h1 sl cx rec
  = sections_of <$> sections_spec fuel e2 h2 sl cx rec.
Proof.
  intros Hu Hh1 Hm1 Ht1 Hh2 Hm2 Ht2 Hsrc Hkeys Hgp.
  pose proof Hu as (He1 & He2 & Hn1 & Hn2 & Htf).
  rewrite !sections_spec_nohook by done.
  rewrite (spans_uncoloured fuel h1 h2 (RAttrs rec) e1 e2 Hu Hkeys Hgp).
  destruct (spans fuel h2 e2 (RAttrs rec)) as [[e5 sps]|]; [|done].
  cbn [fmap option_fmap option_map snd].
  assert (Hov : overlay h1 sl (RAttrs rec) = overlay h2 sl (RAttrs rec)).
  { unfold overlay, headerIndex. by rewrite Hkeys. }
  assert (Hlvl : (writeLevel e1 (writeTimestamp e1 ([] : buffer) (RTime rec)).2
                    (RLevel rec)).2
                 = (writeLevel e2 (writeTimestamp e2 ([] : buffer) (RTime rec)).2
                      (RLevel rec)).2).
  { rewrite (writeTimestamp_uncoloured e1 e2) by done. by apply writeLevel_uncoloured. }
  assert (Hpre : headerPrefix e1 h1 rec = headerPrefix e2 h2 rec).
  { unfold headerPrefix. rewrite Hsrc.
    pose proof (writeTimestamp_nohook e1 ([] : buffer) (RTime rec) He1) as E1.
    pose proof (writeTimestamp_nohook e2 ([] : buffer) (RTime rec) He2) as E1'.
    pose proof (writeTimestamp_uncoloured e1 e2 [] (RTime rec) Hu) as E1''.
    destruct (writeTimestamp e1 _ _) as [x1 hb1], (writeTimestamp e2 _ _) as [x1' hb1'].
    simpl in E1, E1', E1''. subst x1 x1' hb1'.
    pose proof (writeLevel_nohook e1 hb1 (RLevel rec) He1) as E2.
    pose proof (writeLevel_nohook e2 hb1 (RLevel rec) He2) as E2'.
    pose proof (writeLevel_uncoloured e1 e2 hb1 (RLevel rec) Hu) as E2''.
    destruct (writeLevel e1 _ _) as [x2 hb2], (writeLevel e2 _ _) as [x2' hb2'].
    simpl in E2, E2', E2''. subst x2 x2' hb2'.
    destruct (AddSource (opts h2)); [|done]. by apply writeSource_uncoloured. }
  rewrite Hov, Hlvl, Hpre, (writeMessage_uncoloured e1 e2) by done.
  rewrite (map_ext (headerValue e1) (headerValue e2)).
  2: { intros a. unfold headerValue. f_equal. by apply writeColoredValue_uncoloured. }
  assert (Hsep : forall x : buffer, writeHeaderSeparator e1 x = writeHeaderSeparator e2 x).
  { intros x. unfold writeHeaderSeparator, writeColoredString.
    by rewrite !withColor_plain. }
  by rewrite Hsep.
Qed.

End NoColour.

Lemma X14_witness :
  sections_of <$> sections_spec (H := demoRuntime) 3
                    (newEncoder Headers.w0 Headers.h0).2 Headers.h0
                    [zeroAttr; zeroAttr] [] Themed.rec0
  = sections_of <$> sections_spec (H := demoRuntime) 3
                      (newEncoder Themed.w0 Themed.h0).2 Themed.h0
                      [zeroAttr; zeroAttr] [] Themed.rec0.
Proof.
  apply (X14_NoColor_ignores_theme (H := demoRuntime)); try reflexivity.
  repeat split.
Defined.

End Verified.
